(** * getcdnimages: the image relay and the batch downloader

    A shallow embedding of [server.js] (the minimal relay), of the relay
    variant with browser defaults, request logs and magic-byte sniffing, and
    of [bin/cdn-dl.js] (the batch downloader), followed by the properties
    of the specification that were checked against them.

    Strings are Rocq strings: sequences of code units below 256, read
    as the characters U+0000 to U+00FF (the text of an HTTP header is
    such a string).  Text with characters beyond U+00FF has no
    counterpart here.  The built-ins of the JavaScript runtime that the
    programs call are modelled in [JS], [URLSearchParams] and [Path]. *)

From Stdlib Require Import ZArith QArith Qround Ascii Strings.Byte Lia.
From stdpp Require Import base gmap strings list pretty.

Local Open Scope Z_scope.

(** ** The fragment of the JavaScript runtime the programs rely on *)

Module JS.

(** Numbers.  A finite double is kept as the exact rational it denotes
    (always in lowest terms); the binary rounding of doubles is not part
    of the model.  The sign of zero is not kept: no operation used by the
    programs tells [-0] from [+0]. *)
Inductive number : Type :=
| NaN
| Infinity (negative : bool)
| Finite (q : Q).

Definition of_Z (z : Z) : number := Finite (inject_Z z).

(** Primitive values: what [argv[i]], [sp.get(k)] and the literals mixed
    with them by [||] can be. *)
Inductive prim : Type :=
| Undefined
| Null
| Bool (b : bool)
| Num (n : number)
| Str (s : string).

Definition is_zero (q : Q) : bool := (Qnum q =? 0)%Z.

(** ToBoolean *)
Definition truthy (v : prim) : bool :=
  match v with
  | Undefined | Null => false
  | Bool b => b
  | Num NaN => false
  | Num (Infinity _) => true
  | Num (Finite q) => negb (is_zero q)
  | Str s => negb (String.eqb s "")
  end.

(** [a || b] *)
Definition or (a b : prim) : prim := if truthy a then a else b.

(** What a nullable string ([sp.get], [headers.get]) is as a value. *)
Definition nullable (o : option string) : prim :=
  match o with Some s => Str s | None => Null end.

(** What [argv[i]] is as a value. *)
Definition optional (o : option string) : prim :=
  match o with Some s => Str s | None => Undefined end.

(** *** Characters and strings *)

Definition code (c : ascii) : Z := Z.of_N (N_of_ascii c).

Definition between (lo hi : ascii) (c : ascii) : bool :=
  (code lo <=? code c) && (code c <=? code hi).

Definition is_upper : ascii -> bool := between "A" "Z".
Definition is_lower : ascii -> bool := between "a" "z".
Definition is_digit : ascii -> bool := between "0" "9".

(** The capital letters up to U+00FF: A to Z, and U+00C0 to U+00DE
    without the multiplication sign U+00D7.  Each has its small letter
    32 places further on; no other character below U+0100 is changed by
    [toLowerCase]. *)
Definition is_capital (c : ascii) : bool :=
  is_upper c || (between "192" "222" c && negb (Ascii.eqb c "215")).

Definition lower_char (c : ascii) : ascii :=
  if is_capital c then ascii_of_N (N_of_ascii c + 32) else c.

Fixpoint toLowerCase (s : string) : string :=
  match s with
  | EmptyString => EmptyString
  | String c r => String (lower_char c) (toLowerCase r)
  end.

(** [s.startsWith(p)] *)
Definition startsWith (s p : string) : bool := String.prefix p s.

(** White space and line terminators up to U+00FF: TAB, LF, VT, FF, CR,
    SP and the no-break space U+00A0. *)
Definition is_white (c : ascii) : bool := Ascii.is_space c || Ascii.eqb c "160".

Fixpoint trimStart (s : string) : string :=
  match s with
  | EmptyString => EmptyString
  | String c r => if is_white c then trimStart r else s
  end.

Definition trimEnd (s : string) : string :=
  String.rev (trimStart (String.rev s)).

Definition trim (s : string) : string := trimEnd (trimStart s).

(** [s.indexOf(c)] for a one-character needle; [None] stands for [-1]. *)
Fixpoint indexOf (c : ascii) (s : string) : option nat :=
  match s with
  | EmptyString => None
  | String d r =>
      if Ascii.eqb c d then Some O
      else match indexOf c r with Some i => Some (S i) | None => None end
  end.

(** [s.slice(0, n)] and [s.slice(n)] for [0 <= n]. *)
Fixpoint take (n : nat) (s : string) : string :=
  match n, s with
  | S k, String c r => String c (take k r)
  | _, _ => EmptyString
  end.

Fixpoint drop (n : nat) (s : string) : string :=
  match n, s with
  | S k, String _ r => drop k r
  | _, _ => s
  end.

(** Every match of the class [[^a-zA-Z0-9._-]] replaced by ["_"]. *)
Definition is_safe_char (c : ascii) : bool :=
  is_lower c || is_upper c || is_digit c
  || Ascii.eqb c "." || Ascii.eqb c "_" || Ascii.eqb c "-".

Fixpoint replace_unsafe (s : string) : string :=
  match s with
  | EmptyString => EmptyString
  | String c r => String (if is_safe_char c then c else "_"%char) (replace_unsafe r)
  end.

(** *** StringToNumber

    The grammar of [StringNumericLiteral]: optional white space around
    nothing (the value 0), a signed decimal literal with optional
    fraction and exponent, a signed [Infinity], or an unsigned binary,
    octal or hexadecimal integer.  Anything else is [NaN]. *)

Definition digit_of (base : Z) (c : ascii) : option Z :=
  let v :=
    if is_digit c then Some (code c - 48)
    else if between "a" "f" c then Some (code c - 87)
    else if between "A" "F" c then Some (code c - 55)
    else None in
  match v with
  | Some d => if d <? base then Some d else None
  | None => None
  end.

(** The longest run of digits at the front of [s]: its value (continuing
    from [acc]), its length, and what follows it. *)
Fixpoint digits (base : Z) (acc : Z) (s : string) : Z * nat * string :=
  match s with
  | EmptyString => (acc, O, s)
  | String c r =>
      match digit_of base c with
      | Some d => let '(v, n, rest) := digits base (acc * base + d) r in (v, S n, rest)
      | None => (acc, O, s)
      end
  end.

Definition sign_of (s : string) : bool * string :=
  match s with
  | String "-" r => (true, r)
  | String "+" r => (false, r)
  | _ => (false, s)
  end.

(** [ExponentPart], when one is there: [None] is a malformed one. *)
Definition exponent (s : string) : option Z :=
  match s with
  | EmptyString => Some 0
  | String c r =>
      if Ascii.eqb c "e" || Ascii.eqb c "E" then
        let '(neg, r') := sign_of r in
        match digits 10 0 r' with
        | (_, O, _) => None
        | (v, _, EmptyString) => Some (if neg then - v else v)
        | _ => None
        end
      else None
  end.

Definition scale (m e : Z) : Q := Qred (inject_Z m * Qpower (inject_Z 10) e).

(** The number value of a real.  A finite number value is a double:
    [m * 2^e] with [m] up to [2^53] and [e] from -1074 to 971, below
    [2^1024].  A real is turned into the nearest of them, and into the one
    with the even [m] when two are as near; what is rounded to [2^1024]
    or beyond is infinite, and what is rounded to nothing is zero (of the
    two zeros there is one here). *)

(** The integer part of the binary logarithm of [q > 0]. *)
Definition floorLog2 (q : Q) : Z :=
  let n := Qnum q in
  let d := Zpos (Qden q) in
  let k := Z.log2 n - Z.log2 d in
  if (if 0 <=? k then d * 2 ^ k <=? n else d <=? n * 2 ^ (- k)) then k else k - 1.

(** [n / d] to the nearest integer, to the even one of two, for [n >= 0]
    and [d > 0]. *)
Definition roundHalfEven (n d : Z) : Z :=
  let f := n / d in
  let r := n mod d in
  if 2 * r <? d then f
  else if d <? 2 * r then f + 1
  else if Z.even f then f else f + 1.

Definition nearest (q : Q) : number :=
  if is_zero q then Finite 0
  else
    let negative := Qnum q <? 0 in
    let a := Qmake (Z.abs (Qnum q)) (Qden q) in
    let e := Z.max (floorLog2 a - 52) (-1074) in
    let m :=
      if 0 <=? e then roundHalfEven (Qnum a) (Zpos (Qden a) * 2 ^ e)
      else roundHalfEven (Qnum a * 2 ^ (- e)) (Zpos (Qden a)) in
    if (971 <? e) || ((e =? 971) && (m =? 2 ^ 53)) then Infinity negative
    else Finite (Qred (inject_Z (if negative then - m else m) * Qpower (inject_Z 2) e)).

Definition unsigned_decimal (s : string) : option Q :=
  let '(ip, n1, r1) := digits 10 0 s in
  let '(m, n2, r2) :=
    match r1 with
    | String "." r => digits 10 ip r
    | _ => (ip, O, r1)
    end in
  let dotted := match r1 with String "." _ => true | _ => false end in
  if (Nat.eqb n1 0 && (negb dotted || Nat.eqb n2 0))%bool then None
  else match exponent r2 with
       | Some e => Some (scale m (e - Z.of_nat n2))
       | None => None
       end.

Definition radix_literal (s : string) : option Q :=
  match s with
  | String "0" (String x r) =>
      let base :=
        if Ascii.eqb x "x" || Ascii.eqb x "X" then Some 16
        else if Ascii.eqb x "o" || Ascii.eqb x "O" then Some 8
        else if Ascii.eqb x "b" || Ascii.eqb x "B" then Some 2
        else None in
      match base with
      | Some b =>
          match digits b 0 r with
          | (_, O, _) => None
          | (v, _, EmptyString) => Some (inject_Z v)
          | _ => None
          end
      | None => None
      end
  | _ => None
  end.

Definition StringToNumber (s : string) : number :=
  let t := trim s in
  if String.eqb t "" then of_Z 0
  else match radix_literal t with
       | Some q => nearest q
       | None =>
           let '(neg, u) := sign_of t in
           if String.eqb u "Infinity" then Infinity neg
           else match unsigned_decimal u with
                | Some q => nearest (if neg then - q else q)
                | None => NaN
                end
       end.

(** [Number(v)] *)
Definition Number (v : prim) : number :=
  match v with
  | Undefined => NaN
  | Null => of_Z 0
  | Bool b => of_Z (if b then 1 else 0)
  | Num n => n
  | Str s => StringToNumber s
  end.

(** [a <= b] on numbers: false as soon as one side is [NaN]. *)
Definition leb (a b : number) : bool :=
  match a, b with
  | NaN, _ | _, NaN => false
  | Infinity true, _ => true
  | _, Infinity false => true
  | Infinity false, _ => false
  | _, Infinity true => false
  | Finite x, Finite y => Qle_bool x y
  end.

(** [Math.max(a, b)] and [Math.min(a, b)]: [NaN] as soon as one argument is. *)
Definition max (a b : number) : number :=
  match a, b with
  | NaN, _ | _, NaN => NaN
  | _, _ => if leb a b then b else a
  end.

Definition min (a b : number) : number :=
  match a, b with
  | NaN, _ | _, NaN => NaN
  | _, _ => if leb a b then a else b
  end.

(** Errors: [String(err)] is [Error.prototype.toString]. *)
Record error : Type := Error { name : string; message : string }.

(** [o[k] = v] on an object literal, for a [v] that is no object.  The
    name [__proto__] is the accessor of [Object.prototype]: its setter
    ignores such a value, and no property is made. *)
Definition assign {V} (o : gmap string V) (k : string) (v : V) : gmap string V :=
  if String.eqb k "__proto__" then o else <[k := v]> o.

Definition error_toString (e : error) : string :=
  if String.eqb (name e) "" then message e
  else if String.eqb (message e) "" then name e
  else name e +:+ ": " +:+ message e.

End JS.

(** ** [URLSearchParams]: an ordered list of name/value pairs *)

Module URLSearchParams.

Abbreviation t := (list (string * string)).

(** [sp.get(k)]: the first value of [k], or [null]. *)
Fixpoint get (sp : t) (k : string) : option string :=
  match sp with
  | [] => None
  | (k', v) :: rest => if String.eqb k' k then Some v else get rest k
  end.

(** [sp.getAll(k)] *)
Definition getAll (sp : t) (k : string) : list string :=
  snd <$> filter (λ kv, fst kv = k) sp.

(** [sp.append(k, v)] *)
Definition append (sp : t) (k v : string) : t := sp ++ [(k, v)].

Definition remove (sp : t) (k : string) : t := filter (λ kv, fst kv ≠ k) sp.

(** [sp.set(k, v)]: the first pair named [k] takes the value and the
    other ones go; without one the pair is appended. *)
Fixpoint set (sp : t) (k v : string) : t :=
  match sp with
  | [] => [(k, v)]
  | (k', v') :: rest =>
      if String.eqb k' k then (k, v) :: remove rest k
      else (k', v') :: set rest k v
  end.

End URLSearchParams.

(** ** [node:path], POSIX flavour *)

Module Path.

(** The pieces of [s] between the slashes. *)
Fixpoint split (s : string) : list string :=
  match s with
  | EmptyString => [""]
  | String c r =>
      if Ascii.eqb c "/" then "" :: split r
      else match split r with
           | x :: xs => String c x :: xs
           | [] => [String c ""]
           end
  end.

Fixpoint concat_with (sep : string) (l : list string) : string :=
  match l with
  | [] => ""
  | [x] => x
  | x :: rest => x +:+ sep +:+ concat_with sep rest
  end.

(** Empty and ["."] segments go, [".."] removes the segment before it;
    [acc] is the result so far, last segment first. *)
Fixpoint normalizeSegments (allowAboveRoot : bool) (acc segs : list string) : list string :=
  match segs with
  | [] => reverse acc
  | seg :: rest =>
      if String.eqb seg "" || String.eqb seg "." then
        normalizeSegments allowAboveRoot acc rest
      else if String.eqb seg ".." then
        match acc with
        | top :: acc' =>
            if String.eqb top ".." then
              normalizeSegments allowAboveRoot
                (if allowAboveRoot then ".." :: acc else acc) rest
            else normalizeSegments allowAboveRoot acc' rest
        | [] =>
            normalizeSegments allowAboveRoot
              (if allowAboveRoot then [".."] else []) rest
        end
      else normalizeSegments allowAboveRoot (seg :: acc) rest
  end.

Fixpoint endsWithSlash (s : string) : bool :=
  match s with
  | EmptyString => false
  | String c EmptyString => Ascii.eqb c "/"
  | String _ r => endsWithSlash r
  end.

(** [path.normalize(p)] *)
Definition normalize (p : string) : string :=
  if String.eqb p "" then "."
  else
    let isAbsolute := JS.startsWith p "/" in
    let trailing := endsWithSlash p in
    let body := concat_with "/" (normalizeSegments (negb isAbsolute) [] (split p)) in
    if String.eqb body "" then
      if isAbsolute then "/" else if trailing then "./" else "."
    else
      let body' := if trailing then body +:+ "/" else body in
      if isAbsolute then "/" +:+ body' else body'.

(** [path.join(a, b)]: the non-empty arguments joined by a slash, then
    normalised. *)
Definition join (a b : string) : string :=
  match String.eqb a "", String.eqb b "" with
  | true, true => "."
  | true, false => normalize b
  | false, true => normalize a
  | false, false => normalize (a +:+ "/" +:+ b)
  end.

Fixpoint lastNonEmpty (l : list string) : string :=
  match l with
  | [] => ""
  | x :: rest =>
      let later := lastNonEmpty rest in
      if String.eqb later "" then x else later
  end.

(** The last portion of a path: what stands between the last two
    slashes, trailing slashes ignored. *)
Definition lastPortion (p : string) : string := lastNonEmpty (split p).

(** Position of the last ["."] of [s], if there is one. *)
Fixpoint lastDot (s : string) : option nat :=
  match s with
  | EmptyString => None
  | String c r =>
      match lastDot r with
      | Some i => Some (S i)
      | None => if Ascii.eqb c "." then Some O else None
      end
  end.

(** [path.extname(p)]: from the last dot of the last portion to its end;
    empty when there is no dot, when the only dot opens the portion, and
    for [".."]. *)
Definition extname (p : string) : string :=
  let b := lastPortion p in
  match lastDot b with
  | None | Some O => ""
  | Some i => if String.eqb b ".." then "" else JS.drop i b
  end.

(** [path.basename(p)] *)
Definition basename (p : string) : string := lastPortion p.

(** [path.basename(p, ext)] for [ext = path.extname(p)], the one way the
    downloader calls it: the last portion without that extension. *)
Definition basenameWithout (p ext : string) : string :=
  let b := lastPortion p in
  JS.take (String.length b - String.length ext) b.

End Path.

(** ** The regular expression of [filenameFromDisposition]

    Two alternatives, letter case ignored: the literal [filename*=UTF-8]
    and two apostrophes followed by one or more characters other than a
    semicolon (group 1); or the literal [filename=], an optional double
    quote, one or more characters other than a double quote and a
    semicolon (group 2), and an optional double quote.  The same text in
    the three files. *)

Module Disposition.

(** The longest prefix of [s] whose characters satisfy [p]. *)
Fixpoint span (p : ascii -> bool) (s : string) : string :=
  match s with
  | EmptyString => EmptyString
  | String c r => if p c then String c (span p r) else EmptyString
  end.

(** [s] without the literal [lit] (given in lower case) at its front,
    letter case ignored. *)
Definition eat (lit s : string) : option string :=
  if String.eqb (JS.toLowerCase (JS.take (String.length lit) s)) lit
  then Some (JS.drop (String.length lit) s)
  else None.

Definition quote : ascii := "034"%char.

Definition notSemicolon (c : ascii) : bool := negb (Ascii.eqb c ";").
Definition notQuoteSemicolon (c : ascii) : bool :=
  negb (Ascii.eqb c quote) && negb (Ascii.eqb c ";").

(** First alternative at the front of [s]: group 1. *)
Definition extended (s : string) : option string :=
  match eat "filename*=utf-8''" s with
  | Some r => let g := span notSemicolon r in
              if String.eqb g "" then None else Some g
  | None => None
  end.

(** Second alternative at the front of [s]: group 2.  The optional quote
    is taken when it is there; giving it back cannot help, since the
    group may not start with a quote. *)
Definition plain (s : string) : option string :=
  match eat "filename=" s with
  | Some r =>
      let r' :=
        match r with
        | String c q => if Ascii.eqb c quote then q else r
        | EmptyString => r
        end in
      let g := span notQuoteSemicolon r' in
      if String.eqb g "" then None else Some g
  | None => None
  end.

Definition here (s : string) : option string :=
  match extended s with
  | Some g => Some g
  | None => plain s
  end.

(** [(m && (m[1] || m[2])) || null] for [m = re.exec(s)]: the match that
    starts leftmost. *)
Fixpoint exec (s : string) : option string :=
  match here s with
  | Some g => Some g
  | None =>
      match s with
      | EmptyString => None
      | String _ r => exec r
      end
  end.

End Disposition.

(** ** What [fetch] resolves to, as far as the programs read it *)

Module Fetch.

(** How a body breaks off: the error its stream fails with, and how many
    of the chunks sent before it are [lost].  A chunk that is still queued
    in the stream, or buffered on its way to the destination, when the
    error arrives is dropped and never seen by the reader; how many these
    are is a matter of timing. *)
Record breakdown : Type := Breakdown {
  reason : JS.error;
  lost : nat
}.

(** The upstream sends [chunks]; when [failure] is set the stream errors
    after the last of them. *)
Record stream : Type := Stream {
  chunks : list (list byte);
  failure : option breakdown
}.

(** The chunks that reach the reader of the stream. *)
Definition arriving (st : stream) : list (list byte) :=
  match failure st with
  | Some b => take (length (chunks st) - lost b) (chunks st)
  | None => chunks st
  end.

(** The error the reader meets after them. *)
Definition broken (st : stream) : option JS.error := reason <$> failure st.

(** [body] is [None] for a response without one ([body] is [null]). *)
Record response : Type := Response {
  status : Z;
  contentType : option string;
  contentLength : option string;
  contentDisposition : option string;
  body : option stream
}.

(** [ok] *)
Definition ok (r : response) : bool := (200 <=? status r) && (status r <=? 299).

Inductive fetched : Type :=
| Rejected (err : JS.error)
| Resolved (resp : response).

End Fetch.

(** ** What the two relay files share

    [json], [bad], [pushHeader], [filenameFromDisposition],
    [sanitizeFilename], the body of [handlePostImage] up to its last line
    and the request router are the same text in [server.js] and in the
    relay variant with sniffing. *)

Module Relay.
Export Fetch.

(** *** JSON values: the parsed body of a POST, and the error replies *)

#[warnings="-register-all"]
Inductive jvalue : Type :=
| JNull
| JBool (b : bool)
| JNum (n : JS.number)
| JStr (s : string)
| JArr (items : list jvalue)
| JObj (fields : list (string * jvalue)).

(** ToBoolean of [body.k]; [None] is [undefined]. *)
Definition truthy (v : option jvalue) : bool :=
  match v with
  | None | Some JNull => false
  | Some (JBool b) => b
  | Some (JNum n) => JS.truthy (JS.Num n)
  | Some (JStr s) => JS.truthy (JS.Str s)
  | Some (JArr _) | Some (JObj _) => true
  end.

Fixpoint assoc {A} (fields : list (string * A)) (k : string) : option A :=
  match fields with
  | [] => None
  | (k', v) :: rest => if String.eqb k' k then Some v else assoc rest k
  end.

(** [body.k] for the names [handlePostImage] reads (none of them is a
    property of arrays, strings, numbers or booleans).  [fields] are the
    own properties of the parsed object, each name once. *)
Definition prop (body : jvalue) (k : string) : option jvalue :=
  match body with
  | JObj fields => assoc fields k
  | _ => None
  end.

Section Conversions.

(** [Number.prototype.toString], taken as given. *)
Variable numberToString : JS.number -> string.

(** ToString: [String(v)], [`${v}`] and the conversion of an argument
    of [sp.set] or [sp.append]. *)
Fixpoint toString (v : jvalue) : string :=
  match v with
  | JNull => "null"
  | JBool b => if b then "true" else "false"
  | JNum n => numberToString n
  | JStr s => s
  | JArr items =>
      Path.concat_with ","
        ((fix each (l : list jvalue) : list string :=
            match l with
            | [] => []
            | JNull :: r => "" :: each r
            | x :: r => toString x :: each r
            end) items)
  | JObj _ => "[object Object]"
  end.

(** [Object.entries(v)] of an array or an object. *)
Definition entries (v : jvalue) : list (string * jvalue) :=
  match v with
  | JObj fields => fields
  | JArr items => imap (λ i x, (pretty i, x)) items
  | _ => []
  end.

Definition isObject (v : jvalue) : bool :=
  match v with JArr _ | JObj _ => true | _ => false end.

Definition setIf (body : jvalue) (k : string) (sp : URLSearchParams.t) : URLSearchParams.t :=
  match prop body k with
  | Some v => if truthy (Some v) then URLSearchParams.set sp k (toString v) else sp
  | None => sp
  end.

(** The [URLSearchParams] that [handlePostImage] fills from the body. *)
Definition fill (body : jvalue) : URLSearchParams.t :=
  let sp := [] in
  let sp := setIf body "url" sp in
  let sp := setIf body "timeout" sp in
  let sp :=
    if truthy (prop body "allowAny")
    then URLSearchParams.set sp "allowAny"
           (if truthy (prop body "allowAny") then "1" else "0")
    else sp in
  let sp := setIf body "contentDisposition" sp in
  let sp := setIf body "filename" sp in
  let sp := setIf body "auth" sp in
  let sp := setIf body "referer" sp in
  let sp := setIf body "origin" sp in
  let sp :=
    match prop body "cookie" with
    | Some c =>
        if truthy (Some c) then
          let list := match c with JArr items => items | _ => [c] end in
          foldl (λ sp c, URLSearchParams.append sp "cookie" (toString c)) sp list
        else sp
    | None => sp
    end in
  match prop body "headers" with
  | Some h =>
      if truthy (Some h) && isObject h then
        foldl (λ sp kv, URLSearchParams.append sp "header"
                          (fst kv +:+ ": " +:+ toString (snd kv)))
              sp (entries h)
      else sp
  | None => sp
  end.

(** What [handlePostImage] hands to [proxyImage].  The argument is the
    outcome of [JSON.parse(text || '{}')], or [None] when that throws
    (the body is then the empty object).  The result is [None] when
    reading a property of the body throws, which is the case for
    [null]. *)
Definition postParams (parsed : option jvalue) : option URLSearchParams.t :=
  match default (JObj []) parsed with
  | JNull => None
  | body => Some (fill body)
  end.

End Conversions.

(** *** The upstream side *)

(** The network: the outcome of
    [fetch(url, { headers, redirect: 'follow', signal })] when the signal
    aborts after [timeoutMs]. *)
Definition network : Type := string -> gmap string string -> JS.number -> fetched.

(** *** The client side *)

(** How a streamed reply is closed: [res.end()] at the end of the piped
    stream, or [res.destroy(e)]. *)
Inductive streamEnd : Type :=
| Ended
| Destroyed (e : JS.error).

(** What is written to the response after its head: a JSON document, or
    the chunks handed to it, in order, and the way it is closed. *)
Inductive payload : Type :=
| Json (data : list (string * jvalue))
| Streamed (data : list (list byte)) (last : streamEnd).

Record reply : Type := Reply {
  code : Z;
  headers : gmap string string;
  content : payload
}.

(** What a request does besides replying. *)
Inductive event : Type :=
| Fetch (url : string) (headers : gmap string string) (timeoutMs : JS.number)
| Log (level name : string) (fields : list (string * jvalue)).

Definition isFetch (e : event) : bool :=
  match e with Fetch _ _ _ => true | Log _ _ _ => false end.

Definition json (code : Z) (data : list (string * jvalue)) : reply :=
  {| code := code;
     headers := {[ "content-type" := "application/json; charset=utf-8" ]};
     content := Json data |}.

Definition bad (code : Z) (message : string) (extra : list (string * jvalue)) : reply :=
  json code ([("ok", JBool false); ("error", JStr message)] ++ extra).

(** The helper inside [parseHeadersFromQuery]; [v] is always a string
    where it is called. *)
Definition pushHeader (headers : gmap string string) (k v : string) : gmap string string :=
  if String.eqb k "" then headers
  else if String.eqb (JS.toLowerCase k) "cookie" then
    let before :=
      match headers !! "Cookie" with
      | Some c => if String.eqb c "" then "" else c +:+ "; "
      | None => ""
      end in
    <["Cookie" := before +:+ v]> headers
  else JS.assign headers k v.

(** One [header] parameter, ["Name: Value"]. *)
Definition pushLine (headers : gmap string string) (h : string) : gmap string string :=
  match JS.indexOf ":" h with
  | Some (S i) => pushHeader headers (JS.trim (JS.take (S i) h)) (JS.trim (JS.drop (S (S i)) h))
  | _ => headers
  end.

(** The value of [Authorization] for a non-empty [auth]. *)
Definition authorization (auth : string) : string :=
  if JS.startsWith auth "Bearer " || JS.startsWith auth "Basic " then auth
  else "Bearer " +:+ auth.

(** The part of [parseHeadersFromQuery] the two files share: everything
    up to the default headers. *)
Definition explicitHeaders (sp : URLSearchParams.t) : gmap string string :=
  let headers := foldl pushLine ∅ (URLSearchParams.getAll sp "header") in
  let headers :=
    match URLSearchParams.get sp "auth" with
    | Some auth =>
        if JS.truthy (JS.Str auth)
        then pushHeader headers "Authorization" (authorization auth)
        else headers
    | None => headers
    end in
  let headers :=
    match URLSearchParams.get sp "referer" with
    | Some referer =>
        if JS.truthy (JS.Str referer) then pushHeader headers "Referer" referer else headers
    | None => headers
    end in
  let headers :=
    match URLSearchParams.get sp "origin" with
    | Some origin =>
        if JS.truthy (JS.Str origin) then pushHeader headers "Origin" origin else headers
    | None => headers
    end in
  foldl (λ headers c, pushHeader headers "Cookie" c) headers
        (URLSearchParams.getAll sp "cookie").

(** [/^https?:\/\//i.test(url)] *)
Definition isHttpUrl (url : string) : bool :=
  let u := JS.toLowerCase url in
  JS.startsWith u "http://" || JS.startsWith u "https://".

(** [sp.get('allowAny') === '1' || sp.get('allowAny') === 'true'] *)
Definition allowAnyOf (sp : URLSearchParams.t) : bool :=
  bool_decide (URLSearchParams.get sp "allowAny" = Some "1")
  || bool_decide (URLSearchParams.get sp "allowAny" = Some "true").

(** [Math.min(Math.max(Number(sp.get('timeout') || 15000), 1_000), 120_000)] *)
Definition timeoutOf (sp : URLSearchParams.t) : JS.number :=
  JS.min
    (JS.max
       (JS.Number (JS.or (JS.nullable (URLSearchParams.get sp "timeout"))
                         (JS.Num (JS.of_Z 15000))))
       (JS.of_Z 1000))
    (JS.of_Z 120000).

(** [sp.get('contentDisposition') || 'inline'] *)
Definition dispositionOf (sp : URLSearchParams.t) : string :=
  match URLSearchParams.get sp "contentDisposition" with
  | Some cd => if String.eqb cd "" then "inline" else cd
  | None => "inline"
  end.

(** [a || b] on nullable strings. *)
Definition orElse (a b : option string) : option string :=
  match a with
  | Some s => if String.eqb s "" then b else a
  | None => b
  end.

(** [String(name || 'file').replace(/[^a-zA-Z0-9._-]/g, '_')] *)
Definition sanitizeFilename (name : option string) : string :=
  JS.replace_unsafe (default "file" (orElse name (Some "file"))).

Section Decoding.

(** [decodeURIComponent], taken as given; [None] is a [URIError]. *)
Variable decodeURIComponent : string -> option string.

Definition filenameFromDisposition (disposition : option string) : option string :=
  match disposition with
  | None => None
  | Some d =>
      if String.eqb d "" then None
      else match Disposition.exec d with
           | Some v =>
               match decodeURIComponent v with
               | Some decoded => Some decoded
               | None => Some v
               end
           | None => None
           end
  end.

(** The headers of a 200 reply, given the resolved type. *)
Definition headersOut (sp : URLSearchParams.t) (resp : response) (type : string)
  : gmap string string :=
  let filename :=
    sanitizeFilename
      (orElse (URLSearchParams.get sp "filename")
              (filenameFromDisposition (contentDisposition resp))) in
  let out : gmap string string :=
    <["content-disposition" :=
        dispositionOf sp +:+ "; filename=" +:+ String Disposition.quote
          ((if String.eqb filename "" then "file" else filename)
             +:+ String Disposition.quote "")]>
      (<["cache-control" := "no-store"]>
         {[ "content-type" := if String.eqb type "" then "application/octet-stream" else type ]}) in
  match contentLength resp with
  | Some clen => if String.eqb clen "" then out else <["content-length" := clen]> out
  | None => out
  end.

End Decoding.

(** *** [res.writeHead(200, headersOut)] *)

(** The characters a header value may hold: TAB, U+0020 to U+007E and
    U+0080 to U+00FF. *)
Definition isHeaderChar (c : ascii) : bool :=
  Ascii.eqb c "009" || JS.between " " "~" c || (128 <=? JS.code c).

Fixpoint validHeaderValue (v : string) : bool :=
  match v with
  | EmptyString => true
  | String c rest => isHeaderChar c && validHeaderValue rest
  end.

(** The error [writeHead] throws for the header [name]; Node shows the
    code of the error after its name. *)
Definition invalidChar (name : string) : JS.error :=
  JS.Error "TypeError [ERR_INVALID_CHAR]"
    ("Invalid character in header content [" +:+ String Disposition.quote
       (name +:+ String Disposition.quote "]")).

(** The headers are checked in the order [headersOut] was filled in; the
    first value with another character is refused, and nothing is sent.
    [None]: the head is accepted. *)
Definition refusedHead (out : gmap string string) : option JS.error :=
  invalidChar <$>
    head (filter (λ name, from_option (λ v, negb (validHeaderValue v)) false (out !! name) = true)
                 ["content-type"; "cache-control"; "content-disposition"; "content-length"]).

(** *** The request *)

(** A request as the listener meets it: the method, the request target
    ([req.url]), the chunks of its body, and the error the body breaks
    off with when it does not end. *)
Record request : Type := Request {
  method : string;
  target : string;
  sent : list (list byte);
  aborted : option JS.error
}.

(** The promise at the head of [handlePostImage]: resolved when the body
    has ended, with the chunks collected; rejected ([inl]) by an error of
    the request, or once more than [MAX] bytes have come. *)
Fixpoint collect (size : Z) (chunks : list (list byte)) (aborted : option JS.error)
  : JS.error + list (list byte) :=
  match chunks with
  | [] =>
      match aborted with
      | Some e => inl e
      | None => inr []
      end
  | c :: rest =>
      let size := size + Z.of_nat (length c) in
      if 1000000 <? size then inl (JS.Error "Error" "payload too large")
      else match collect size rest aborted with
           | inl e => inl e
           | inr chunks => inr (c :: chunks)
           end
  end.

Section Parsing.

(** [JSON.parse] of the text the bytes decode to, taken as given; [None]
    when it throws. *)
Variable parseJson : list byte -> option jvalue.

(** [JSON.parse(Buffer.concat(chunks).toString('utf8') || '{}')] inside
    its [try]; the text is empty only for no bytes. *)
Definition parsedBody (chunks : list (list byte)) : option jvalue :=
  match concat chunks with
  | [] => Some (JObj [])
  | bytes => parseJson bytes
  end.

End Parsing.

(** The reply of [GET /] and [GET /health] at time [now]. *)
Definition health (now : Z) : reply :=
  json 200 [("ok", JBool true); ("service", JStr "getcdnimages");
             ("endpoints", JArr [JStr "/image"]); ("ts", JNum (JS.of_Z now))].

(** The reply to another method on [/image]. *)
Definition methodNotAllowed : reply :=
  let r := bad 405 "method not allowed" [] in
  {| code := code r; headers := <["Allow" := "GET, POST"]> (headers r); content := content r |}.

(** What the stream piped into the reply delivers: the chunks that came,
    then the end or the error. *)
Definition piped (chunks : list (list byte)) (failure : option JS.error) : payload :=
  Streamed chunks (match failure with Some e => Destroyed e | None => Ended end).

End Relay.

(** ** [server.js]: the minimal relay *)

Module Server.
Import Relay.

(** No default headers in this file. *)
Definition parseHeadersFromQuery (sp : URLSearchParams.t) : gmap string string :=
  explicitHeaders sp.

Section Run.

Variable decodeURIComponent : string -> option string.
Variable numberToString : JS.number -> string.
(** What [Readable.fromWeb(resp.body)] throws when there is no body. *)
Variable nullBody : JS.error.
Variable net : network.
(** [new URL(req.url, 'http://localhost')], taken as given: the
    [pathname] and the [searchParams] of the target, or the error it
    throws. *)
Variable locate : string -> JS.error + (string * URLSearchParams.t).
Variable parseJson : list byte -> option jvalue.

(** [proxyImage(req, res, sp)]: what the request does and the reply.
    The reply is [None] when the promise of the function is rejected
    with nothing sent: [writeHead] stands before the [try]. *)
Definition proxyImage (sp : URLSearchParams.t) : list event * option reply :=
  match orElse (URLSearchParams.get sp "url") None with
  | None => ([], Some (bad 400 "missing url parameter" []))
  | Some url =>
      if negb (isHttpUrl url) then ([], Some (bad 400 "url must be http(s)" []))
      else
        let headers := parseHeadersFromQuery sp in
        let allowAny := allowAnyOf sp in
        let timeoutMs := timeoutOf sp in
        let did := [Fetch url headers timeoutMs] in
        match net url headers timeoutMs with
        | Rejected err =>
            (did, Some (bad 502 "fetch error" [("detail", JStr (JS.error_toString err))]))
        | Resolved resp =>
            if negb (ok resp) then
              (did, Some (bad 502 ("upstream HTTP " +:+ pretty (status resp)) []))
            else
              let ctype := JS.toLowerCase (default "" (contentType resp)) in
              if negb allowAny && negb (JS.startsWith ctype "image/") then
                (did, Some (bad 415 ("unsupported content-type: " +:+ ctype) []))
              else
                let out := headersOut decodeURIComponent sp resp ctype in
                match refusedHead out with
                | Some _ => (did, None)
                | None =>
                    (did,
                     Some {| code := 200;
                             headers := out;
                             content :=
                               match body resp with
                               | Some st => piped (arriving st) (broken st)
                               | None => Streamed [] (Destroyed nullBody)
                               end |})
                end
        end
  end.

(** [handlePostImage(req, res)].  Its promise is rejected, with nothing
    done, when the body cannot be collected and when reading a property
    of the parsed body throws. *)
Definition handlePostImage (req : request) : list event * option reply :=
  match collect 0 (sent req) (aborted req) with
  | inl _ => ([], None)
  | inr chunks =>
      match postParams numberToString (parsedBody parseJson chunks) with
      | Some sp => proxyImage sp
      | None => ([], None)
      end
  end.

(** The request listener.  Its [catch] sees what is thrown before a
    handler is called, which is the error of [new URL]; the promise of a
    handler is returned as it is, and no reply is made when it is
    rejected. *)
Definition serve (now : Z) (req : request) : list event * option reply :=
  match locate (target req) with
  | inl e => ([], Some (bad 500 "internal error" [("detail", JStr (JS.error_toString e))]))
  | inr (pathname, searchParams) =>
      if String.eqb (method req) "GET"
         && (String.eqb pathname "/" || String.eqb pathname "/health")
      then ([], Some (health now))
      else if String.eqb pathname "/image" then
        if String.eqb (method req) "GET" then proxyImage searchParams
        else if String.eqb (method req) "POST" then handlePostImage req
        else ([], Some methodNotAllowed)
      else ([], Some (bad 404 "not found" []))
  end.

End Run.

End Server.

(** ** The relay variant with browser defaults, logs and sniffing *)

Module Sniffing.
Import Relay.

Definition parseHeadersFromQuery (sp : URLSearchParams.t) : gmap string string :=
  let headers := explicitHeaders sp in
  let headers :=
    if JS.truthy (JS.optional (headers !! "Accept")) then headers
    else <["Accept" := "image/avif,image/webp,image/*;q=0.9,*/*;q=0.8"]> headers in
  if JS.truthy (JS.optional (headers !! "User-Agent")) then headers
  else <["User-Agent" :=
           "Mozilla/5.0 (Windows NT 10.0; Win64; x64) AppleWebKit/537.36 (KHTML, like Gecko) Chrome/124 Safari/537.36"]>
         headers.

(** [b.length >= n] and [b[i] === x] *)
Definition atLeast (b : list byte) (n : nat) : bool := (n <=? length b)%nat.
Definition byteIs (b : list byte) (i : nat) (x : byte) : bool :=
  match b !! i with
  | Some y => Byte.eqb y x
  | None => false
  end.

Definition sniffImageType (b : list byte) : option string :=
  if atLeast b 3 && byteIs b 0 xff && byteIs b 1 xd8 && byteIs b 2 xff then Some "image/jpeg"
  else if atLeast b 8 && byteIs b 0 x89 && byteIs b 1 x50 && byteIs b 2 x4e && byteIs b 3 x47
          && byteIs b 4 x0d && byteIs b 5 x0a && byteIs b 6 x1a && byteIs b 7 x0a then Some "image/png"
  else if atLeast b 12 && byteIs b 0 x47 && byteIs b 1 x49 && byteIs b 2 x46 && byteIs b 3 x38
  then Some "image/gif"
  else if atLeast b 12 && byteIs b 0 x52 && byteIs b 1 x49 && byteIs b 2 x46 && byteIs b 3 x46
          && byteIs b 8 x57 && byteIs b 9 x45 && byteIs b 10 x42 && byteIs b 11 x50 then Some "image/webp"
  else None.

(** The outcome of the first [reader.read()]. *)
Inductive firstRead : Type :=
| Threw (e : JS.error)
| Got (firstChunk : list byte) (rest : list (list byte)) (failure : option JS.error).

Section Run.

Variable decodeURIComponent : string -> option string.
Variable numberToString : JS.number -> string.
(** What [resp.body.getReader()] throws when there is no body. *)
Variable nullBody : JS.error.
Variable net : network.
(** [new URL(req.url, 'http://localhost')], taken as given: the
    [pathname] and the [searchParams] of the target, or the error it
    throws. *)
Variable locate : string -> JS.error + (string * URLSearchParams.t).
Variable parseJson : list byte -> option jvalue.

Definition readFirst (resp : response) : firstRead :=
  match body resp with
  | None => Threw nullBody
  | Some st =>
      match arriving st, broken st with
      | c :: rest, f => Got c rest f
      | [], Some e => Threw e
      | [], None => Got [] [] None
      end
  end.

(** The type the reply is labelled with: the declared one in lower
    case, or the sniffed one when the declared one is no image type. *)
Definition resolveType (upstreamType : string) (sniffed : option string) : string :=
  if String.eqb upstreamType "" || negb (JS.startsWith upstreamType "image/") then
    match sniffed with
    | Some t => if String.eqb t "" then upstreamType else t
    | None => upstreamType
    end
  else upstreamType.

Definition orUnknown (s : string) : string :=
  if String.eqb s "" then "unknown" else s.

(** The chunks [gen()] yields and the number of bytes it counts. *)
Definition yielded (firstChunk : list byte) (rest : list (list byte)) : list (list byte) :=
  (if (length firstChunk =? 0)%nat then [] else [firstChunk]) ++ rest.

(** [proxyImage(req, res, sp)].  Of the log lines the time stamp, the
    request identifier and the elapsed time are left out. *)
Definition proxyImage (method : string) (sp : URLSearchParams.t) : list event * reply :=
  match orElse (URLSearchParams.get sp "url") None with
  | None => ([], bad 400 "missing url parameter" [])
  | Some url =>
      if negb (isHttpUrl url) then ([], bad 400 "url must be http(s)" [])
      else
        let headers := parseHeadersFromQuery sp in
        let allowAny := allowAnyOf sp in
        let timeoutMs := timeoutOf sp in
        let did :=
          [Log "info" "start"
               [("method", JStr method); ("url", JStr url); ("allowAny", JBool allowAny)];
           Fetch url headers timeoutMs] in
        match net url headers timeoutMs with
        | Rejected err =>
            (did ++ [Log "error" "error"
                         [("stage", JStr "fetch"); ("error", JStr (JS.error_toString err))]],
             bad 502 "fetch error" [("detail", JStr (JS.error_toString err))])
        | Resolved resp =>
            if negb (ok resp) then
              (did ++ [Log "warn" "upstream" [("status", JNum (JS.of_Z (status resp)))]],
               bad 502 ("upstream HTTP " +:+ pretty (status resp)) [])
            else
              match readFirst resp with
              | Threw e =>
                  (did ++ [Log "error" "error"
                               [("stage", JStr "setup"); ("error", JStr (JS.error_toString e))]],
                   bad 500 "stream setup error" [("detail", JStr (JS.error_toString e))])
              | Got firstChunk rest failure =>
                  let upstreamType := JS.toLowerCase (default "" (contentType resp)) in
                  let outType := resolveType upstreamType (sniffImageType firstChunk) in
                  if negb allowAny
                     && (String.eqb outType "" || negb (JS.startsWith outType "image/"))
                  then
                    (did ++ [Log "warn" "reject"
                                 [("reason", JStr "unsupported content-type");
                                  ("upstreamType", JStr upstreamType)]],
                     bad 415 ("unsupported content-type: " +:+ orUnknown upstreamType) [])
                  else
                    let out := headersOut decodeURIComponent sp resp outType in
                    match refusedHead out with
                    | Some e =>
                        (did ++ [Log "error" "error"
                                     [("stage", JStr "setup");
                                      ("error", JStr (JS.error_toString e))]],
                         bad 500 "stream setup error"
                             [("detail", JStr (JS.error_toString e))])
                    | None =>
                        let data := yielded firstChunk rest in
                        (did ++
                           match failure with
                           | Some e =>
                               [Log "error" "error"
                                    [("stage", JStr "stream");
                                     ("error", JStr (JS.error_toString e))]]
                           | None =>
                               [Log "info" "done"
                                    [("status", JNum (JS.of_Z 200));
                                     ("type", JStr (orUnknown
                                        (if String.eqb outType "" then upstreamType
                                         else outType)));
                                     ("bytes", JNum (JS.of_Z
                                        (Z.of_nat (length firstChunk
                                                   + length (concat rest)))))]]
                           end,
                         {| code := 200; headers := out; content := piped data failure |})
                    end
              end
        end
  end.

(** [handlePostImage(req, res)].  Its promise is rejected, with nothing
    done, when the body cannot be collected and when reading a property
    of the parsed body throws. *)
Definition handlePostImage (req : request) : list event * option reply :=
  match collect 0 (sent req) (aborted req) with
  | inl _ => ([], None)
  | inr chunks =>
      match postParams numberToString (parsedBody parseJson chunks) with
      | Some sp =>
          let run := proxyImage (Relay.method req) sp in
          (fst run, Some (snd run))
      | None => ([], None)
      end
  end.

(** The request listener.  Its [catch] sees what is thrown before a
    handler is called, which is the error of [new URL]; the promise of a
    handler is returned as it is, and no reply is made when it is
    rejected. *)
Definition serve (now : Z) (req : request) : list event * option reply :=
  match locate (target req) with
  | inl e => ([], Some (bad 500 "internal error" [("detail", JStr (JS.error_toString e))]))
  | inr (pathname, searchParams) =>
      if String.eqb (Relay.method req) "GET"
         && (String.eqb pathname "/" || String.eqb pathname "/health")
      then ([], Some (health now))
      else if String.eqb pathname "/image" then
        if String.eqb (Relay.method req) "GET" then
          let run := proxyImage (Relay.method req) searchParams in
          (fst run, Some (snd run))
        else if String.eqb (Relay.method req) "POST" then handlePostImage req
        else ([], Some methodNotAllowed)
      else ([], Some (bad 404 "not found" []))
  end.

End Run.

End Sniffing.

(** ** [bin/cdn-dl.js]: the batch downloader *)

Module Downloader.
Import Fetch.

(** The object [parseArgs] fills.  A value that [next()] delivers is
    [None] when [argv] has run out ([undefined]). *)
Record options : Type := Options {
  urls : list (option string);
  headers : gmap string (option string);
  outDir : option string;
  concurrency : JS.number;
  retries : JS.number;
  input : option string
}.

Definition initial : options :=
  {| urls := []; headers := ∅; outDir := Some "downloads";
     concurrency := JS.of_Z 4; retries := JS.of_Z 2; input := None |}.

Definition pushUrl (u : option string) (o : options) : options :=
  {| urls := urls o ++ [u]; headers := headers o; outDir := outDir o;
     concurrency := concurrency o; retries := retries o; input := input o |}.
Definition setInput (v : option string) (o : options) : options :=
  {| urls := urls o; headers := headers o; outDir := outDir o;
     concurrency := concurrency o; retries := retries o; input := v |}.
Definition setOutDir (v : option string) (o : options) : options :=
  {| urls := urls o; headers := headers o; outDir := v;
     concurrency := concurrency o; retries := retries o; input := input o |}.
Definition setConcurrency (n : JS.number) (o : options) : options :=
  {| urls := urls o; headers := headers o; outDir := outDir o;
     concurrency := n; retries := retries o; input := input o |}.
Definition setRetries (n : JS.number) (o : options) : options :=
  {| urls := urls o; headers := headers o; outDir := outDir o;
     concurrency := concurrency o; retries := n; input := input o |}.
Definition setHeader (k : string) (v : option string) (o : options) : options :=
  {| urls := urls o; headers := JS.assign (headers o) k v; outDir := outDir o;
     concurrency := concurrency o; retries := retries o; input := input o |}.

(** [Number(v || d) || d] *)
Definition numberOr (v : option string) (d : Z) : JS.number :=
  let n := JS.Number (JS.or (JS.optional v) (JS.Num (JS.of_Z d))) in
  if JS.truthy (JS.Num n) then n else JS.of_Z d.

(** The value of [Authorization] for a non-empty [--auth]. *)
Definition authorization (v : string) : string :=
  if JS.startsWith v "Bearer " || JS.startsWith v "Basic " then v
  else "Bearer " +:+ v.

Definition headerFlag (h : option string) (o : options) : options :=
  match h with
  | Some h =>
      match JS.indexOf ":" h with
      | Some (S i) =>
          setHeader (JS.trim (JS.take (S i) h)) (Some (JS.trim (JS.drop (S (S i)) h))) o
      | _ => o
      end
  | None => o
  end.

Definition cookieFlag (v : option string) (o : options) : options :=
  match v with
  | Some v =>
      if String.eqb v "" then o
      else
        let before :=
          match headers o !! "Cookie" with
          | Some (Some c) => if String.eqb c "" then "" else c +:+ "; "
          | Some None | None => ""
          end in
        setHeader "Cookie" (Some (before +:+ v)) o
  | None => o
  end.

Definition authFlag (v : option string) (o : options) : options :=
  match v with
  | Some v =>
      if String.eqb v "" then o else setHeader "Authorization" (Some (authorization v)) o
  | None => o
  end.

(** What is left of [argv] once [next()] has taken its value. *)
Definition after (rest : list string) : list string :=
  match rest with
  | [] => rest
  | _ :: t => t
  end.

Inductive parsed : Type :=
| Help
| Parsed (o : options).

(** The loop of [parseArgs] from position [i] on: [argv] is what is left
    from [argv[i]]. [Help] is [printHelp(); process.exit(0)]. *)
Fixpoint parseFrom (argv : list string) (o : options) : parsed :=
  match argv with
  | [] => Parsed o
  | a :: rest =>
      let next := head rest in
      if String.eqb a "--url" then parseFrom (after rest) (pushUrl next o)
      else if String.eqb a "--input" then parseFrom (after rest) (setInput next o)
      else if String.eqb a "--output" then parseFrom (after rest) (setOutDir next o)
      else if String.eqb a "--concurrency"
      then parseFrom (after rest) (setConcurrency (numberOr next 4) o)
      else if String.eqb a "--retry"
      then parseFrom (after rest) (setRetries (numberOr next 2) o)
      else if String.eqb a "--header" then parseFrom (after rest) (headerFlag next o)
      else if String.eqb a "--cookie" then parseFrom (after rest) (cookieFlag next o)
      else if String.eqb a "--auth" then parseFrom (after rest) (authFlag next o)
      else if String.eqb a "--referer" then parseFrom (after rest) (setHeader "Referer" next o)
      else if String.eqb a "--origin" then parseFrom (after rest) (setHeader "Origin" next o)
      else if String.eqb a "-h" || String.eqb a "--help" then Help
      else if negb (String.eqb a "") && negb (JS.startsWith a "-")
      then parseFrom rest (pushUrl (Some a) o)
      else parseFrom rest o
  end.

Definition parseArgs (argv : list string) : parsed := parseFrom argv initial.

(** [name.replace(/[^a-zA-Z0-9._-]/g, '_')] *)
Definition sanitizeName (name : string) : string := JS.replace_unsafe name.

(** *** The file system: what each existing path names *)

Inductive node : Type :=
| Dir
| File (content : list byte).

(** [fs.existsSync(p)] *)
Definition existsSync (fs : gmap string node) (p : string) : bool :=
  bool_decide (is_Some (fs !! p)).

(** The [i]-th name [uniquePath] tries after the plain one. *)
Definition numbered (base : string) (i : Z) : string :=
  let ext := Path.extname base in
  let name := Path.basenameWithout base ext in
  name +:+ " (" +:+ pretty i +:+ ")" +:+ ext.

(** The [while] loop of [uniquePath], at most [fuel] rounds of it. *)
Fixpoint uniqueFrom (fuel : nat) (fs : gmap string node) (dir base : string)
         (p : string) (i : Z) : option string :=
  if existsSync fs p then
    match fuel with
    | O => None
    | S fuel' => uniqueFrom fuel' fs dir base (Path.join dir (numbered base i)) (i + 1)
    end
  else Some p.

(** [uniquePath(dir, base)]; [None] when [fuel] rounds do not reach a
    free path. *)
Definition uniquePath (fuel : nat) (fs : gmap string node) (dir base : string) : option string :=
  uniqueFrom fuel fs dir base (Path.join dir base) 1.

(** What one pass through the body of the [while] loop of [downloadOne]
    comes to. *)
Inductive attempted : Type :=
| Saved (outPath : string)
| Threw (err : JS.error)
| Stuck.

Inductive event : Type :=
| Fetch (url : string) (headers : gmap string (option string))
| Sleep (ms : Z).

Record outcome : Type := Outcome {
  url : string;
  path : option string;
  error : option string;
  ok_ : bool
}.

(** The network: the outcome of the [n]-th [fetch(url, { headers, redirect: 'follow' })]
    of a download, counting from 1. *)
Definition network : Type := string -> gmap string (option string) -> Z -> fetched.

Section Run.

(** [decodeURIComponent], and the [URIError] it throws where it is [None]. *)
Variable decodeURIComponent : string -> option string.
Variable uriError : JS.error.
(** [new URL(u).pathname]; [None] when the constructor throws. *)
Variable pathnameOf : string -> option string.
(** What [Readable.fromWeb(res.body)] throws when there is no body. *)
Variable nullBody : JS.error.
Variable net : network.

Definition pickFilenameFromUrl (u : string) : string :=
  match pathnameOf u with
  | Some pathname =>
      let base := Path.basename pathname in
      sanitizeName (if String.eqb base "" then "file" else base)
  | None => "file"
  end.

(** [inl] is the error thrown, [inr] the value returned. *)
Definition filenameFromDisposition (disposition : option string)
  : JS.error + option string :=
  match disposition with
  | None => inr None
  | Some d =>
      if String.eqb d "" then inr None
      else match Disposition.exec d with
           | Some v =>
               match decodeURIComponent v with
               | Some decoded => inr (Some (sanitizeName decoded))
               | None => inl uriError
               end
           | None => inr None
           end
  end.

(** The body of the [try] block.  The output directory is taken to
    exist and to be writable, as [main] has made sure of: opening the
    write stream creates the file.  An interrupted copy leaves in it
    the bytes that were handed to the stream before the error. *)
Definition attempt (fuel : nat) (fs : gmap string node) (url : string)
           (headers : gmap string (option string)) (outDir : string) (n : Z)
  : gmap string node * attempted :=
  match net url headers n with
  | Rejected err => (fs, Threw err)
  | Resolved res =>
      if negb (ok res) then (fs, Threw (JS.Error "Error" ("HTTP " +:+ pretty (status res))))
      else
        let ctype := default "" (contentType res) in
        if negb (JS.startsWith (JS.toLowerCase ctype) "image/") then
          (fs, Threw (JS.Error "Error" ("Content-Type not image/* (" +:+ ctype +:+ ")")))
        else
          match filenameFromDisposition (contentDisposition res) with
          | inl err => (fs, Threw err)
          | inr named =>
              let filename :=
                match named with
                | Some f => if String.eqb f "" then pickFilenameFromUrl url else f
                | None => pickFilenameFromUrl url
                end in
              match uniquePath fuel fs outDir filename with
              | None => (fs, Stuck)
              | Some outPath =>
                  match body res with
                  | None => (<[outPath := File []]> fs, Threw nullBody)
                  | Some st =>
                      (<[outPath := File (concat (arriving st))]> fs,
                       match broken st with
                       | Some e => Threw e
                       | None => Saved outPath
                       end)
                  end
              end
          end
  end.

(** [String(lastErr)]; [lastErr] is [null] before the first failure. *)
Definition describe (lastErr : option JS.error) : string :=
  match lastErr with
  | Some e => JS.error_toString e
  | None => "null"
  end.

(** The [while] loop of [downloadOne], entered with [attempt] at [n]:
    what happened, the file system afterwards and the result.  [rounds]
    bounds the passes through the loop and [fuel] the rounds of each
    [uniquePath]; the result is [None] when one of them does not
    suffice. *)
Fixpoint downloadFrom (fuel : nat) (rounds : nat) (fs : gmap string node) (url : string)
         (headers : gmap string (option string)) (outDir : string) (retries : JS.number)
         (n : Z) (lastErr : option JS.error)
  : option (list event * gmap string node * outcome) :=
  if JS.leb (JS.of_Z n) retries then
    match rounds with
    | O => None
    | S rounds' =>
        let n := n + 1 in
        match attempt fuel fs url headers outDir n with
        | (fs', Saved outPath) =>
            Some ([Fetch url headers], fs',
                  {| url := url; path := Some outPath; error := None; ok_ := true |})
        | (_, Stuck) => None
        | (fs', Threw err) =>
            let pause := if JS.leb (JS.of_Z n) retries then [Sleep (250 * n)] else [] in
            match downloadFrom fuel rounds' fs' url headers outDir retries n (Some err) with
            | Some (did, fs'', r) => Some (Fetch url headers :: pause ++ did, fs'', r)
            | None => None
            end
        end
    end
  else
    Some ([], fs, {| url := url; path := None; error := Some (describe lastErr);
                     ok_ := false |}).

(** [downloadOne(url, headers, outDir, retries)], with [fuel] for both
    bounds. *)
Definition downloadOne (fuel : nat) (fs : gmap string node) (url : string)
           (headers : gmap string (option string)) (outDir : string) (retries : JS.number)
  : option (list event * gmap string node * outcome) :=
  downloadFrom fuel fuel fs url headers outDir retries 0 None.

End Run.

End Downloader.

(** ** [bin/cdn-dl.js]: the list of URLs in a file *)

Module Listing.
Import Relay.

Definition LF : ascii := "010"%char.
Definition CR : ascii := "013"%char.

(** [data.split(/\r?\n/)]: cut at every line feed, which takes a
    carriage return right before it along. *)
Fixpoint splitLines (data : string) : list string :=
  match data with
  | EmptyString => [EmptyString]
  | String c r =>
      if Ascii.eqb c LF then EmptyString :: splitLines r
      else if Ascii.eqb c CR && JS.startsWith r (String LF "") then splitLines r
      else match splitLines r with
           | x :: xs => String c x :: xs
           | [] => [String c EmptyString]
           end
  end.

Section Input.

(** [fs.readFileSync(path, 'utf8')]; [inl] is the error it throws. *)
Variable readFileSync : string -> JS.error + string.
(** [JSON.parse]; [None] when it throws. *)
Variable parse : string -> option jvalue.

(** [loadUrls(input)]: [inl] is the error the promise is rejected with.
    The elements of a JSON array are returned as they are. *)
Definition loadUrls (input : option string) : JS.error + list jvalue :=
  if negb (JS.truthy (JS.optional input)) then inr []
  else
    match readFileSync (default "" input) with
    | inl e => inl e
    | inr data =>
        match parse data with
        | Some (JArr items) => inr items
        | Some _ => inr []
        | None =>
            inr (JStr <$> filter (λ s, JS.truthy (JS.Str s) = true)
                            (JS.trim <$> splitLines data))
        end
    end.

End Input.

End Listing.

(** * The terms the properties are stated in *)

Module Terms.

(** Arguments that neither set [Authorization] nor end the program. *)
Definition quiet (a : string) : Prop :=
  a ≠ "--auth" ∧ a ≠ "--header" ∧ a ≠ "-h" ∧ a ≠ "--help".

(** Both counts are truthy: neither zero nor [NaN]. *)
Definition positive_counts (o : Downloader.options) : Prop :=
  JS.truthy (JS.Num (Downloader.retries o)) = true
  ∧ JS.truthy (JS.Num (Downloader.concurrency o)) = true.

(** The [url] parameter is missing, or it is no [http(s)://] address. *)
Definition refused (sp : URLSearchParams.t) : Prop :=
  URLSearchParams.get sp "url" = None
  ∨ ∃ url, URLSearchParams.get sp "url" = Some url ∧ Relay.isHttpUrl url = false.

(** The error message of the refusal. *)
Definition message (sp : URLSearchParams.t) : string :=
  match Relay.orElse (URLSearchParams.get sp "url") None with
  | None => "missing url parameter"
  | Some _ => "url must be http(s)"
  end.

(** The head of a 200 reply labelled [type] holds no character that
    [writeHead] refuses: none in the label, in the [contentDisposition]
    parameter or in the upstream content length (the file name in it is
    sanitised). *)
Definition sendable (sp : URLSearchParams.t) (resp : Fetch.response) (type : string) : bool :=
  Relay.validHeaderValue type
  && Relay.validHeaderValue (Relay.dispositionOf sp)
  && Relay.validHeaderValue (default "" (Fetch.contentLength resp)).

(** [q] brought into the interval from 1000 to 120000. *)
Definition clamp (q : Q) : Q :=
  if Qle_bool q (inject_Z 1000) then inject_Z 1000
  else if Qle_bool q (inject_Z 120000) then q
  else inject_Z 120000.

(** No character of [s] is a slash. *)
Fixpoint slashFree (s : string) : bool :=
  match s with
  | EmptyString => true
  | String c r => negb (Ascii.eqb c "/") && slashFree r
  end.

(** A segment that [normalize] keeps as it is. *)
Definition ordinary (seg : string) : Prop :=
  slashFree seg = true ∧ (3 ≤ String.length seg)%nat.

(** The [k]-th path [uniquePath] tries after the plain one. *)
Definition candidate (dir base : string) (k : Z) : string :=
  Path.join dir (Downloader.numbered base k).

(** The response makes the attempt fail before the output file is opened:
    the fetch is rejected, the status is not 2xx, the declared type is no
    image type, or the file name cannot be decoded. *)
Definition failsBeforeWriting (decodeURIComponent : string → option string)
    (uriError : JS.error) (r : Fetch.fetched) : bool :=
  match r with
  | Fetch.Rejected _ => true
  | Fetch.Resolved res =>
      negb (Fetch.ok res)
      || negb (JS.startsWith (JS.toLowerCase (default "" (Fetch.contentType res))) "image/")
      || match Downloader.filenameFromDisposition decodeURIComponent uriError
                 (Fetch.contentDisposition res) with
         | inl _ => true
         | inr _ => false
         end
  end.

(** The number of attempts a download makes when each of them fails: none
    when [retries] is negative, [NaN] or minus infinity. *)
Definition attemptsOf (retries : JS.number) : nat :=
  match retries with
  | JS.Finite q => Z.to_nat (Qfloor q + 1)
  | _ => O
  end.

(** What a download does when all its attempts fail and [k] retries are
    left, the next attempt being number [n]. *)
Fixpoint schedule (url : string) (headers : gmap string (option string)) (k : nat) (n : Z)
  : list Downloader.event :=
  match k with
  | O => [Downloader.Fetch url headers]
  | S k' =>
      Downloader.Fetch url headers :: Downloader.Sleep (250 * n)
        :: schedule url headers k' (n + 1)
  end.

End Terms.

(** * Further terms *)

Module Notions.

(** Every character of [s] is a letter, a digit, a dot, an underscore or a
    hyphen. *)
Fixpoint safe (s : string) : bool :=
  match s with
  | EmptyString => true
  | String c r => JS.is_safe_char c && safe r
  end.

(** Every character of [s] satisfies [p]. *)
Fixpoint every (p : ascii → bool) (s : string) : bool :=
  match s with
  | EmptyString => true
  | String c r => p c && every p r
  end.

(** A printable character other than the space. *)
Definition visible (c : ascii) : bool := JS.between "!" "~" c.

(** The strings of [l] from the first one that is not empty. *)
Fixpoint fromFirstNonEmpty (l : list string) : list string :=
  match l with
  | [] => []
  | s :: rest => if String.eqb s "" then fromFirstNonEmpty rest else l
  end.

(** A character other than a colon. *)
Definition notColon (c : ascii) : bool := negb (Ascii.eqb c ":").

(** A word of [argv] that [parseArgs] takes for a URL when it meets it in
    the [default] branch. *)
Definition positional (a : string) : bool :=
  negb (String.eqb a "") && negb (JS.startsWith a "-").

(** The fetches among the events of a download. *)
Definition isDownload (e : Downloader.event) : bool :=
  match e with Downloader.Fetch _ _ => true | Downloader.Sleep _ => false end.

(** The number of fetches a download has made. *)
Definition fetches (did : list Downloader.event) : Z :=
  Z.of_nat (length (filter (λ e, isDownload e = true) did)).

(** [Some _] or [None]. *)
Definition found {A} (o : option A) : bool :=
  match o with Some _ => true | None => false end.

End Notions.

(** * Sample evaluations *)

Module Samples.

Example number_of_word : JS.StringToNumber "abc" = JS.NaN.
Proof. reflexivity. Qed.
Example number_of_exponent : JS.StringToNumber " 15e2 " = JS.of_Z 1500.
Proof. reflexivity. Qed.
Example number_of_hex : JS.StringToNumber "0x1F" = JS.of_Z 31.
Proof. reflexivity. Qed.
Example number_of_fraction : JS.StringToNumber "-.5" = JS.Finite (-1 # 2).
Proof. reflexivity. Qed.
Example number_of_unit : JS.StringToNumber "12px" = JS.NaN.
Proof. reflexivity. Qed.
Example number_of_signed_hex : JS.StringToNumber "-0x10" = JS.NaN.
Proof. reflexivity. Qed.
Example number_of_infinity : JS.StringToNumber "-Infinity" = JS.Infinity true.
Proof. reflexivity. Qed.
Example number_of_blank : JS.StringToNumber "  " = JS.of_Z 0.
Proof. reflexivity. Qed.
Example number_of_tenth :
  JS.StringToNumber "0.1" = JS.Finite (3602879701896397 # 36028797018963968).
Proof. vm_compute. reflexivity. Qed.
Example number_of_odd : JS.StringToNumber "9007199254740993" = JS.of_Z 9007199254740992.
Proof. vm_compute. reflexivity. Qed.
Example number_of_huge : JS.StringToNumber "1e400" = JS.Infinity false.
Proof. vm_compute. reflexivity. Qed.
Example number_of_largest :
  JS.StringToNumber "1.7976931348623157e308" = JS.of_Z ((2 ^ 53 - 1) * 2 ^ 971).
Proof. vm_compute. reflexivity. Qed.
Example number_of_tiny : JS.StringToNumber "-1e-400" = JS.of_Z 0.
Proof. vm_compute. reflexivity. Qed.
Example number_of_smallest : JS.StringToNumber "5e-324" = JS.Finite (Qpower (inject_Z 2) (-1074)).
Proof. vm_compute. reflexivity. Qed.

Example join_plain : Path.join "downloads" "a.jpg" = "downloads/a.jpg".
Proof. reflexivity. Qed.
Example join_up : Path.join "./out/" "../a.jpg" = "a.jpg".
Proof. reflexivity. Qed.
Example join_absolute : Path.join "/x//y/" ".." = "/x".
Proof. reflexivity. Qed.
Example join_above : Path.join "a" "../.." = "..".
Proof. reflexivity. Qed.
Example extname_last : Path.extname "a.tar.gz" = ".gz".
Proof. reflexivity. Qed.
Example extname_hidden : Path.extname ".bashrc" = "".
Proof. reflexivity. Qed.
Example extname_dots : Path.extname ".." = "" ∧ Path.extname "..." = ".".
Proof. split; reflexivity. Qed.
Example basename_slashes : Path.basename "/img/dir//" = "dir" ∧ Path.basename "/" = "".
Proof. split; reflexivity. Qed.
Example stem : Path.basenameWithout "a.tar.gz" ".gz" = "a.tar".
Proof. reflexivity. Qed.

Example params_set :
  URLSearchParams.set [("a", "1"); ("b", "2"); ("a", "3")] "a" "9" = [("a", "9"); ("b", "2")].
Proof. reflexivity. Qed.

Example disposition_quoted :
  Disposition.exec ("attachment; filename=" +:+ String Disposition.quote "a b.jpg"
                      +:+ String Disposition.quote "") = Some "a b.jpg".
Proof. reflexivity. Qed.
Example disposition_extended :
  Disposition.exec "attachment; FileName*=utf-8''a%20b.jpg; x" = Some "a%20b.jpg".
Proof. reflexivity. Qed.
Example disposition_none : Disposition.exec "inline" = None.
Proof. reflexivity. Qed.

Example numbered_once : Downloader.numbered "a.jpg" 1 = "a (1).jpg".
Proof. reflexivity. Qed.
Example numbered_plain : Downloader.numbered "file" 12 = "file (12)".
Proof. reflexivity. Qed.

End Samples.

(** * Properties *)

Ltac case_if :=
  match goal with
  | |- context [if ?b then _ else _] => destruct b eqn:?
  end.

(** ** Strings, numbers and query parameters *)

Lemma truthy_Str (s : string) : s ≠ "" → JS.truthy (JS.Str s) = true.
Proof.
  intros Hs. simpl. destruct (String.eqb_spec s ""); [contradiction | reflexivity].
Qed.

Module ParamFacts.
Import URLSearchParams.

Lemma get_remove_ne (sp : t) (k k' : string) : k ≠ k' → get (remove sp k) k' = get sp k'.
Proof.
  intros Hne. induction sp as [|[a v] sp IH]; [reflexivity|].
  unfold remove in *. rewrite filter_cons. simpl.
  destruct (decide (a ≠ k)) as [Hak|Hak]; simpl.
  - destruct (String.eqb a k'); [reflexivity | exact IH].
  - apply dec_stable in Hak. subst a.
    destruct (String.eqb_spec k k'); [contradiction | exact IH].
Qed.

Lemma get_set_ne (sp : t) (k k' v : string) : k ≠ k' → get (set sp k v) k' = get sp k'.
Proof.
  intros Hne. induction sp as [|[a w] sp IH]; simpl.
  - destruct (String.eqb_spec k k'); [contradiction | reflexivity].
  - destruct (String.eqb_spec a k) as [->|Hak]; simpl.
    + destruct (String.eqb_spec k k'); [contradiction|]. by apply get_remove_ne.
    + destruct (String.eqb a k'); [reflexivity | exact IH].
Qed.

Lemma get_set_eq (sp : t) (k v : string) : get (set sp k v) k = Some v.
Proof.
  induction sp as [|[a w] sp IH]; simpl.
  - by rewrite String.eqb_refl.
  - destruct (String.eqb_spec a k) as [->|Hak]; simpl.
    + by rewrite String.eqb_refl.
    + destruct (String.eqb_spec a k); [contradiction | exact IH].
Qed.

Lemma get_append_ne (sp : t) (k k' v : string) : k ≠ k' → get (append sp k v) k' = get sp k'.
Proof.
  intros Hne. unfold append. induction sp as [|[a w] sp IH]; simpl.
  - destruct (String.eqb_spec k k'); [contradiction | reflexivity].
  - destruct (String.eqb a k'); [reflexivity | exact IH].
Qed.

Lemma get_foldl_append_ne {A} (f : A → string) (l : list A) (sp : t) (k k' : string) :
  k ≠ k' → get (foldl (λ sp x, append sp k (f x)) sp l) k' = get sp k'.
Proof.
  intros Hne. revert sp. induction l as [|x l IH]; intros sp; simpl; [reflexivity|].
  rewrite IH. by apply get_append_ne.
Qed.

End ParamFacts.

(** ** Assignment to a property of an object literal *)

Module ObjectFacts.

Lemma assign_ne {V} (o : gmap string V) (k j : string) (v : V) :
  j ≠ k → JS.assign o k v !! j = o !! j.
Proof.
  intros Hne. unfold JS.assign.
  destruct (String.eqb k "__proto__"); [reflexivity | by rewrite lookup_insert_ne].
Qed.

Lemma assign_insert {V} (o : gmap string V) (k : string) (v : V) :
  k ≠ "__proto__" → JS.assign o k v = <[k := v]> o.
Proof.
  intros Hne. unfold JS.assign. by destruct (String.eqb_spec k "__proto__").
Qed.

Lemma assign_proto {V} (o : gmap string V) (v : V) : JS.assign o "__proto__" v = o.
Proof. reflexivity. Qed.

Lemma assign_twice {V} (o : gmap string V) (k : string) (v w : V) :
  JS.assign (JS.assign o k v) k w = JS.assign o k w.
Proof.
  unfold JS.assign. destruct (String.eqb k "__proto__"); [reflexivity|].
  by rewrite insert_insert_eq.
Qed.

End ObjectFacts.

(** ** The request headers of the relay *)

Module HeaderFacts.
Import Relay.

Lemma pushHeader_other (h : gmap string string) (k v j : string) :
  j ≠ "Cookie" → j ≠ k → pushHeader h k v !! j = h !! j.
Proof.
  intros Hc Hk. unfold pushHeader.
  destruct (String.eqb k ""); [reflexivity|].
  destruct (String.eqb (JS.toLowerCase k) "cookie").
  - by rewrite lookup_insert_ne.
  - by apply ObjectFacts.assign_ne.
Qed.

Lemma pushHeader_authorization (h : gmap string string) (v : string) :
  pushHeader h "Authorization" v !! "Authorization" = Some v.
Proof. unfold pushHeader, JS.assign. simpl. by rewrite lookup_insert_eq. Qed.

Lemma cookies_other (l : list string) (h : gmap string string) (j : string) :
  j ≠ "Cookie" → foldl (λ h c, pushHeader h "Cookie" c) h l !! j = h !! j.
Proof.
  intros Hj. revert h. induction l as [|c l IH]; intros h; simpl; [reflexivity|].
  rewrite IH. by apply pushHeader_other.
Qed.

Lemma explicitHeaders_authorization (sp : URLSearchParams.t) (auth : string) :
  URLSearchParams.get sp "auth" = Some auth → auth ≠ "" →
  explicitHeaders sp !! "Authorization" = Some (authorization auth).
Proof.
  intros Hget Hne. unfold explicitHeaders.
  rewrite Hget, (truthy_Str _ Hne).
  rewrite cookies_other by done.
  destruct (URLSearchParams.get sp "origin") as [o|];
    [destruct (JS.truthy (JS.Str o)); [rewrite pushHeader_other by done|]|];
    (destruct (URLSearchParams.get sp "referer") as [r|];
     [destruct (JS.truthy (JS.Str r)); [rewrite pushHeader_other by done|]|]);
    apply pushHeader_authorization.
Qed.

Lemma sniffing_defaults_other (sp : URLSearchParams.t) (j : string) :
  j ≠ "Accept" → j ≠ "User-Agent" →
  Sniffing.parseHeadersFromQuery sp !! j = explicitHeaders sp !! j.
Proof.
  intros Ha Hu. unfold Sniffing.parseHeadersFromQuery.
  destruct (JS.truthy (JS.optional (explicitHeaders sp !! "Accept")));
    match goal with |- context [if ?b then _ else _] => destruct b end;
    repeat (rewrite lookup_insert_ne by done); reflexivity.
Qed.

End HeaderFacts.

(** ** The argument parser of the downloader *)

Module ArgFacts.
Import Downloader Terms.

Lemma after_length (rest : list string) : (length (after rest) ≤ length rest)%nat.
Proof. destruct rest; simpl; lia. Qed.

Lemma after_Forall (P : string → Prop) (rest : list string) :
  Forall P rest → Forall P (after rest).
Proof. destruct rest; simpl; [done|]. by inversion 1. Qed.

Lemma cookieFlag_other (v : option string) (o : options) (j : string) :
  j ≠ "Cookie" → headers (cookieFlag v o) !! j = headers o !! j.
Proof.
  intros Hj. unfold cookieFlag. destruct v as [v|]; [|reflexivity].
  destruct (String.eqb v ""); [reflexivity|]. simpl. by rewrite ObjectFacts.assign_ne.
Qed.

Ltac flag a lit := destruct (String.eqb_spec a lit) as [?|?].

Lemma parseFrom_keeps_authorization (n : nat) :
  ∀ (rest : list string) (o : options),
    (length rest ≤ n)%nat → Forall quiet rest →
    ∃ o', parseFrom rest o = Parsed o'
          ∧ headers o' !! "Authorization" = headers o !! "Authorization".
Proof.
  induction n as [|n IH]; intros [|a rest] o Hlen Hq; simpl in Hlen;
    try lia; try (by eexists).
  apply Forall_cons in Hq as [(Hauth & Hheader & Hh & Hhelp) Hq].
  assert (Hlen' : (length (after rest) ≤ n)%nat) by (pose proof (after_length rest); lia).
  assert (Hlen'' : (length rest ≤ n)%nat) by lia.
  pose proof (after_Forall _ _ Hq) as Hq'.
  simpl.
  flag a "--url". { apply (IH _ (pushUrl _ o) Hlen' Hq'). }
  flag a "--input". { apply (IH _ (setInput _ o) Hlen' Hq'). }
  flag a "--output". { apply (IH _ (setOutDir _ o) Hlen' Hq'). }
  flag a "--concurrency". { apply (IH _ (setConcurrency _ o) Hlen' Hq'). }
  flag a "--retry". { apply (IH _ (setRetries _ o) Hlen' Hq'). }
  flag a "--header"; [contradiction|].
  flag a "--cookie".
  { destruct (IH _ (cookieFlag (head rest) o) Hlen' Hq') as (o' & -> & Ho').
    eexists; split; [reflexivity|]. rewrite Ho'. by apply cookieFlag_other. }
  flag a "--auth"; [contradiction|].
  flag a "--referer".
  { destruct (IH _ (setHeader "Referer" (head rest) o) Hlen' Hq') as (o' & -> & Ho').
    eexists; split; [reflexivity|]. rewrite Ho'. simpl. by rewrite ObjectFacts.assign_ne. }
  flag a "--origin".
  { destruct (IH _ (setHeader "Origin" (head rest) o) Hlen' Hq') as (o' & -> & Ho').
    eexists; split; [reflexivity|]. rewrite Ho'. simpl. by rewrite ObjectFacts.assign_ne. }
  flag a "-h"; [contradiction|].
  flag a "--help"; [contradiction|].
  simpl.
  destruct (negb (String.eqb a "") && negb (JS.startsWith a "-")).
  - apply (IH _ (pushUrl _ o) Hlen'' Hq).
  - apply (IH _ o Hlen'' Hq).
Qed.

End ArgFacts.

(** C8: in both relay files and in the downloader a non-empty [auth] value
    that starts with ["Bearer "] or ["Basic "] becomes the [Authorization]
    header unchanged, and any other one becomes ["Bearer "] followed by
    the value.  For the relay this is the header map that
    [parseHeadersFromQuery] returns; for the downloader it is the header
    map [parseArgs] ends with when no later argument sets the header
    again. *)
Theorem C8_authorization_header (auth : string) :
  auth ≠ "" →
  let expected :=
    if JS.startsWith auth "Bearer " || JS.startsWith auth "Basic "
    then auth else "Bearer " +:+ auth in
  (∀ sp, URLSearchParams.get sp "auth" = Some auth →
         Server.parseHeadersFromQuery sp !! "Authorization" = Some expected
         ∧ Sniffing.parseHeadersFromQuery sp !! "Authorization" = Some expected)
  ∧ (∀ o rest,
       Downloader.parseFrom ("--auth" :: auth :: rest) o
       = Downloader.parseFrom rest
           (Downloader.setHeader "Authorization" (Some expected) o))
  ∧ (∀ o rest, Forall Terms.quiet rest →
       ∃ o', Downloader.parseFrom ("--auth" :: auth :: rest) o = Downloader.Parsed o'
             ∧ Downloader.headers o' !! "Authorization" = Some (Some expected)).
Proof.
  intros Hne expected.
  assert (Hstep : ∀ o rest,
             Downloader.parseFrom ("--auth" :: auth :: rest) o
             = Downloader.parseFrom rest
                 (Downloader.setHeader "Authorization" (Some expected) o)).
  { intros o rest. simpl. unfold Downloader.authFlag.
    destruct (String.eqb_spec auth ""); [contradiction | reflexivity]. }
  split; [|split].
  - intros sp Hget. split.
    + unfold Server.parseHeadersFromQuery.
      by rewrite (HeaderFacts.explicitHeaders_authorization sp auth).
    + rewrite HeaderFacts.sniffing_defaults_other by done.
      by rewrite (HeaderFacts.explicitHeaders_authorization sp auth).
  - exact Hstep.
  - intros o rest Hq. rewrite Hstep.
    destruct (ArgFacts.parseFrom_keeps_authorization (length rest) rest
                (Downloader.setHeader "Authorization" (Some expected) o))
      as (o' & Ho' & Hlook); [lia | exact Hq |].
    exists o'. split; [exact Ho'|]. rewrite Hlook.
    unfold Downloader.setHeader, JS.assign. simpl. by rewrite lookup_insert_eq.
Qed.

(** A bare token, in the query of the relay and on the command line. *)
Lemma C8_authorization_header_witness :
  "abc123" ≠ ""
  ∧ Server.parseHeadersFromQuery [("url", "https://cdn.test/a"); ("auth", "abc123")]
      !! "Authorization" = Some "Bearer abc123"
  ∧ (∃ o', Downloader.parseFrom ["--auth"; "abc123"; "--referer"; "https://site.test"]
             Downloader.initial = Downloader.Parsed o'
           ∧ Downloader.headers o' !! "Authorization" = Some (Some "Bearer abc123")).
Proof.
  assert (Hne : "abc123" ≠ "") by discriminate.
  destruct (C8_authorization_header "abc123" Hne) as (Hrelay & _ & Hcli).
  split; [exact Hne|]. split.
  - apply (Hrelay [("url", "https://cdn.test/a"); ("auth", "abc123")]). reflexivity.
  - apply (Hcli Downloader.initial ["--referer"; "https://site.test"]).
    repeat constructor; discriminate.
Defined.

(** ** Zero is not a value of [--retry] and [--concurrency] *)

Module CountFacts.
Import Downloader Terms.

Lemma numberOr_truthy (v : option string) (d : Z) :
  d ≠ 0 → JS.truthy (JS.Num (numberOr v d)) = true.
Proof.
  intros Hd. unfold numberOr.
  destruct (JS.truthy (JS.Num (JS.Number _))) eqn:Hn; [exact Hn|].
  simpl. unfold JS.is_zero. simpl. destruct (Z.eqb_spec d 0); [contradiction | reflexivity].
Qed.

Lemma headerFlag_counts (h : option string) (o : options) :
  positive_counts o → positive_counts (headerFlag h o).
Proof.
  unfold headerFlag. destruct h as [h|]; [|done].
  destruct (JS.indexOf ":" h) as [[|i]|]; done.
Qed.

Lemma cookieFlag_counts (v : option string) (o : options) :
  positive_counts o → positive_counts (cookieFlag v o).
Proof.
  unfold cookieFlag. destruct v as [v|]; [|done]. destruct (String.eqb v ""); done.
Qed.

Lemma authFlag_counts (v : option string) (o : options) :
  positive_counts o → positive_counts (authFlag v o).
Proof.
  unfold authFlag. destruct v as [v|]; [|done]. destruct (String.eqb v ""); done.
Qed.

Lemma parseFrom_counts (n : nat) :
  ∀ (argv : list string) (o o' : options),
    (length argv ≤ n)%nat → positive_counts o →
    parseFrom argv o = Parsed o' → positive_counts o'.
Proof.
  induction n as [|n IH]; intros [|a rest] o o' Hlen Ho; simpl in Hlen; try lia;
    try (simpl; intros [= <-]; exact Ho).
  assert (Hlen' : (length (after rest) ≤ n)%nat)
    by (pose proof (ArgFacts.after_length rest); lia).
  assert (Hlen'' : (length rest ≤ n)%nat) by lia.
  pose proof Ho as [Hr Hc].
  simpl.
  ArgFacts.flag a "--url". { by apply IH. }
  ArgFacts.flag a "--input". { by apply IH. }
  ArgFacts.flag a "--output". { by apply IH. }
  ArgFacts.flag a "--concurrency".
  { apply IH; [exact Hlen'|]. split; [exact Hr|]. by apply numberOr_truthy. }
  ArgFacts.flag a "--retry".
  { apply IH; [exact Hlen'|]. split; [|exact Hc]. by apply numberOr_truthy. }
  ArgFacts.flag a "--header". { apply IH; [exact Hlen'|]. by apply headerFlag_counts. }
  ArgFacts.flag a "--cookie". { apply IH; [exact Hlen'|]. by apply cookieFlag_counts. }
  ArgFacts.flag a "--auth". { apply IH; [exact Hlen'|]. by apply authFlag_counts. }
  ArgFacts.flag a "--referer". { by apply IH. }
  ArgFacts.flag a "--origin". { by apply IH. }
  ArgFacts.flag a "-h"; [discriminate|].
  ArgFacts.flag a "--help"; [discriminate|].
  simpl.
  destruct (negb (String.eqb a "") && negb (JS.startsWith a "-")); by apply IH.
Qed.

End CountFacts.

(** C9: for the argument parser of the downloader an explicit [0] is the
    same as no value.  [--retry 0] sets [retries] to 2 and
    [--concurrency 0] sets [concurrency] to 4, which are the values the
    options start with: where the option still has that value the two
    arguments change nothing, and [--retry 0 --concurrency 0] parses to
    the same options as no argument at all.  Whatever the arguments are,
    neither option ends up zero (or [NaN]). *)
Theorem C9_zero_is_the_default :
  (∀ o rest, Downloader.parseFrom ("--retry" :: "0" :: rest) o
             = Downloader.parseFrom rest (Downloader.setRetries (JS.of_Z 2) o))
  ∧ (∀ o rest, Downloader.parseFrom ("--concurrency" :: "0" :: rest) o
               = Downloader.parseFrom rest (Downloader.setConcurrency (JS.of_Z 4) o))
  ∧ (∀ o rest, Downloader.retries o = JS.of_Z 2 →
               Downloader.parseFrom ("--retry" :: "0" :: rest) o = Downloader.parseFrom rest o)
  ∧ (∀ o rest, Downloader.concurrency o = JS.of_Z 4 →
               Downloader.parseFrom ("--concurrency" :: "0" :: rest) o
               = Downloader.parseFrom rest o)
  ∧ Downloader.retries Downloader.initial = JS.of_Z 2
  ∧ Downloader.concurrency Downloader.initial = JS.of_Z 4
  ∧ Downloader.parseArgs ["--retry"; "0"; "--concurrency"; "0"] = Downloader.parseArgs []
  ∧ (∀ argv, match Downloader.parseArgs argv with
             | Downloader.Parsed o =>
                 Downloader.retries o ≠ JS.of_Z 0 ∧ Downloader.retries o ≠ JS.NaN
                 ∧ Downloader.concurrency o ≠ JS.of_Z 0 ∧ Downloader.concurrency o ≠ JS.NaN
             | Downloader.Help => True
             end).
Proof.
  repeat split; try reflexivity.
  - intros o rest Hretries.
    transitivity (Downloader.parseFrom rest (Downloader.setRetries (JS.of_Z 2) o));
      [reflexivity|].
    f_equal. destruct o. simpl in Hretries. by rewrite <- Hretries.
  - intros o rest Hconcurrency.
    transitivity (Downloader.parseFrom rest (Downloader.setConcurrency (JS.of_Z 4) o));
      [reflexivity|].
    f_equal. destruct o. simpl in Hconcurrency. by rewrite <- Hconcurrency.
  - intros argv. destruct (Downloader.parseArgs argv) as [|o] eqn:Hparse; [exact I|].
    assert (Hpos : Terms.positive_counts o).
    { apply (CountFacts.parseFrom_counts (length argv) argv Downloader.initial o);
        [lia | by split | exact Hparse]. }
    destruct Hpos as [Hr Hc].
    repeat split; intros Heq; rewrite Heq in *; discriminate.
Qed.

(** [--retry 0] in front of a URL: the options are those of the URL alone. *)
Lemma C9_zero_is_the_default_witness :
  Downloader.parseArgs ["--retry"; "0"; "https://cdn.test/a.jpg"]
  = Downloader.parseArgs ["https://cdn.test/a.jpg"].
Proof.
  destruct C9_zero_is_the_default as (_ & _ & Hsame & _).
  apply (Hsame Downloader.initial ["https://cdn.test/a.jpg"]). reflexivity.
Defined.

(** ** The parameters of a POST *)

Module PostFacts.
Import Relay.

Lemma get_setIf_ne nts (body : jvalue) (k k' : string) (sp : URLSearchParams.t) :
  k ≠ k' → URLSearchParams.get (setIf nts body k sp) k' = URLSearchParams.get sp k'.
Proof.
  intros Hne. unfold setIf. destruct (prop body k) as [v|]; [|reflexivity].
  destruct (truthy (Some v)); [|reflexivity]. by apply ParamFacts.get_set_ne.
Qed.

Lemma fill_allowAny nts (body : jvalue) :
  URLSearchParams.get (fill nts body) "allowAny"
  = if truthy (prop body "allowAny") then Some "1" else None.
Proof.
  unfold fill.
  assert (Hheaders : ∀ sp,
    URLSearchParams.get
      (match prop body "headers" with
       | Some h =>
           if truthy (Some h) && isObject h then
             foldl (λ sp kv, URLSearchParams.append sp "header"
                               (fst kv +:+ ": " +:+ toString nts (snd kv)))
                   sp (entries h)
           else sp
       | None => sp
       end) "allowAny" = URLSearchParams.get sp "allowAny").
  { intros sp. destruct (prop body "headers") as [h|]; [|reflexivity].
    destruct (truthy (Some h) && isObject h); [|reflexivity].
    by apply (ParamFacts.get_foldl_append_ne
                (λ kv : string * jvalue, fst kv +:+ ": " +:+ toString nts (snd kv))). }
  assert (Hcookie : ∀ sp,
    URLSearchParams.get
      (match prop body "cookie" with
       | Some c =>
           if truthy (Some c) then
             foldl (λ sp c, URLSearchParams.append sp "cookie" (toString nts c)) sp
                   (match c with JArr items => items | _ => [c] end)
           else sp
       | None => sp
       end) "allowAny" = URLSearchParams.get sp "allowAny").
  { intros sp. destruct (prop body "cookie") as [c|]; [|reflexivity].
    destruct (truthy (Some c)); [|reflexivity].
    by apply (ParamFacts.get_foldl_append_ne (toString nts)). }
  rewrite Hheaders, Hcookie.
  rewrite !get_setIf_ne by done.
  destruct (truthy (prop body "allowAny")).
  - apply ParamFacts.get_set_eq.
  - rewrite !get_setIf_ne by done. reflexivity.
Qed.

End PostFacts.

(** C10: for [POST /image] the [allowAny] flag that [proxyImage] computes
    from the parameters [handlePostImage] hands over is the JavaScript
    truth value of the body's [allowAny] field.  So the strings ["false"]
    and ["0"] switch it on, and [false], [0], [null] and a missing field
    leave it off. *)
Theorem C10_post_allowAny_is_truthiness :
  (∀ numberToString parsed sp,
     Relay.postParams numberToString parsed = Some sp →
     Relay.allowAnyOf sp
     = Relay.truthy (Relay.prop (default (Relay.JObj []) parsed) "allowAny"))
  ∧ (∀ numberToString url v,
       let flag :=
         Relay.allowAnyOf <$>
           Relay.postParams numberToString
             (Some (Relay.JObj [("url", Relay.JStr url); ("allowAny", v)])) in
       (v = Relay.JStr "false" → flag = Some true)
       ∧ (v = Relay.JStr "0" → flag = Some true)
       ∧ (v = Relay.JBool false → flag = Some false)
       ∧ (v = Relay.JNum (JS.of_Z 0) → flag = Some false)
       ∧ (v = Relay.JNull → flag = Some false))
  ∧ (∀ numberToString url,
       Relay.allowAnyOf <$>
         Relay.postParams numberToString (Some (Relay.JObj [("url", Relay.JStr url)]))
       = Some false).
Proof.
  assert (Hmain : ∀ numberToString parsed sp,
     Relay.postParams numberToString parsed = Some sp →
     Relay.allowAnyOf sp
     = Relay.truthy (Relay.prop (default (Relay.JObj []) parsed) "allowAny")).
  { intros nts parsed sp Hpost. unfold Relay.postParams in Hpost.
    assert (Hsp : sp = Relay.fill nts (default (Relay.JObj []) parsed))
      by (destruct (default (Relay.JObj []) parsed); congruence).
    subst sp. unfold Relay.allowAnyOf. rewrite PostFacts.fill_allowAny.
    destruct (Relay.truthy _); reflexivity. }
  assert (Hobj : ∀ numberToString fields,
     Relay.allowAnyOf <$> Relay.postParams numberToString (Some (Relay.JObj fields))
     = Some (Relay.truthy (Relay.prop (Relay.JObj fields) "allowAny"))).
  { intros nts fields.
    pose proof (Hmain nts (Some (Relay.JObj fields))
                  (Relay.fill nts (Relay.JObj fields)) eq_refl) as Hflag.
    change (default (Relay.JObj []) (Some (Relay.JObj fields)))
      with (Relay.JObj fields) in Hflag.
    rewrite <- Hflag. reflexivity. }
  split; [exact Hmain|]. split.
  - intros nts url v flag.
    repeat split; intros ->; subst flag; rewrite Hobj; reflexivity.
  - intros nts url. rewrite Hobj. reflexivity.
Qed.

(** A body with [allowAny: "false"]: the flag is on. *)
Lemma C10_post_allowAny_is_truthiness_witness :
  Relay.allowAnyOf [("url", "https://cdn.test/a"); ("allowAny", "1")]
  = Relay.truthy (Some (Relay.JStr "false")).
Proof.
  destruct C10_post_allowAny_is_truthiness as [Hmain _].
  apply (Hmain (λ _, "")
           (Some (Relay.JObj [("url", Relay.JStr "https://cdn.test/a");
                              ("allowAny", Relay.JStr "false")]))).
  reflexivity.
Defined.

(** ** The body of a POST *)

Module RouteFacts.
Import Relay.

(** A body of more than [MAX] bytes is never collected. *)
Lemma collect_too_large (chunks : list (list byte)) (aborted : option JS.error) (size : Z) :
  1000000 < size + Z.of_nat (length (concat chunks)) →
  size ≤ 1000000 →
  collect size chunks aborted = inl (JS.Error "Error" "payload too large")
  ∨ ∃ e, aborted = Some e ∧ collect size chunks aborted = inl e.
Proof.
  revert size. induction chunks as [|c chunks IH]; intros size Hlarge Hsize.
  - simpl in Hlarge. lia.
  - cbn [collect]. cbn [concat] in Hlarge. rewrite length_app in Hlarge.
    destruct (Z.ltb_spec 1000000 (size + Z.of_nat (length c))) as [Hover|Hfits];
      [by left|].
    destruct (IH (size + Z.of_nat (length c))) as [-> | (e & -> & ->)];
      [lia | lia | by left | right; eauto].
Qed.

(** A body that fits and ends is collected as it came. *)
Lemma collect_all (chunks : list (list byte)) (size : Z) :
  size + Z.of_nat (length (concat chunks)) ≤ 1000000 →
  0 ≤ size →
  collect size chunks None = inr chunks.
Proof.
  revert size. induction chunks as [|c chunks IH]; intros size Hfits Hsize; [reflexivity|].
  cbn [collect]. cbn [concat] in Hfits. rewrite length_app in Hfits.
  destruct (Z.ltb_spec 1000000 (size + Z.of_nat (length c))) as [Hover|_]; [lia|].
  rewrite IH by lia. reflexivity.
Qed.

(** A body that breaks off is not. *)
Lemma collect_aborted (chunks : list (list byte)) (e : JS.error) (size : Z) :
  ∃ e', collect size chunks (Some e) = inl e'.
Proof.
  revert size. induction chunks as [|c chunks IH]; intros size; [by eexists|].
  cbn [collect]. case_if; [by eexists|].
  destruct (IH (size + Z.of_nat (length c))) as [e' ->]. by eexists.
Qed.

End RouteFacts.

(** ** Requests the relay refuses before it fetches *)

Module GateFacts.
Import Relay Terms.

Lemma isHttpUrl_nonempty (url : string) : isHttpUrl url = true → url ≠ "".
Proof. intros H ->. discriminate. Qed.

Lemma accepted_url (sp : URLSearchParams.t) (url : string) :
  URLSearchParams.get sp "url" = Some url → isHttpUrl url = true →
  orElse (URLSearchParams.get sp "url") None = Some url.
Proof.
  intros -> Hhttp. simpl.
  destruct (String.eqb_spec url ""); [by apply isHttpUrl_nonempty in Hhttp | reflexivity].
Qed.

Section Refusal.
Variables (decodeURIComponent : string → option string) (nullBody : JS.error).
Variables (net : network) (method : string).

Lemma refused_cases (sp : URLSearchParams.t) :
  refused sp →
  orElse (URLSearchParams.get sp "url") None = None
  ∨ ∃ url, orElse (URLSearchParams.get sp "url") None = Some url ∧ isHttpUrl url = false.
Proof.
  intros [Hnone | (url & Hget & Hhttp)]; rewrite ?Hnone, ?Hget; simpl; [by left|].
  destruct (String.eqb url ""); [by left | right; eauto].
Qed.

Lemma server_refuses (sp : URLSearchParams.t) :
  refused sp →
  Server.proxyImage decodeURIComponent nullBody net sp = ([], Some (bad 400 (message sp) [])).
Proof.
  intros Hr. unfold Server.proxyImage, message.
  destruct (refused_cases sp Hr) as [-> | (url & -> & ->)]; reflexivity.
Qed.

Lemma sniffing_refuses (sp : URLSearchParams.t) :
  refused sp →
  Sniffing.proxyImage decodeURIComponent nullBody net method sp
  = ([], bad 400 (message sp) []).
Proof.
  intros Hr. unfold Sniffing.proxyImage, message.
  destruct (refused_cases sp Hr) as [-> | (url & -> & ->)]; reflexivity.
Qed.

End Refusal.

Section Requests.
Variables (decodeURIComponent : string → option string).
Variables (numberToString : JS.number → string) (nullBody : JS.error).
Variables (net : network) (locate : string → JS.error + (string * URLSearchParams.t)).
Variables (parseJson : list byte → option jvalue) (now : Z).

(** A request to [/image] whose handler gets as far as [proxyImage] with
    parameters that carry no usable [url]: by GET with its query, or by
    POST with a body that is collected and whose parsed value has
    properties.  It is answered 400 by both files, and nothing else
    happens. *)
Lemma bad_url_refused (req : request) (query sp : URLSearchParams.t) :
  locate (target req) = inr ("/image", query) →
  (Relay.method req = "GET" ∧ sp = query)
  ∨ (Relay.method req = "POST"
     ∧ ∃ chunks, collect 0 (sent req) (aborted req) = inr chunks
                 ∧ postParams numberToString (parsedBody parseJson chunks) = Some sp) →
  refused sp →
  Server.serve decodeURIComponent numberToString nullBody net locate parseJson now req
  = ([], Some (bad 400 (message sp) []))
  ∧ Sniffing.serve decodeURIComponent numberToString nullBody net locate parseJson now req
    = ([], Some (bad 400 (message sp) [])).
Proof.
  intros Hlocate Hmethod Hurl.
  pose proof (server_refuses decodeURIComponent nullBody net sp Hurl) as Hs.
  pose proof (sniffing_refuses decodeURIComponent nullBody net (Relay.method req) sp Hurl) as Hn.
  unfold Server.serve, Sniffing.serve, Server.handlePostImage, Sniffing.handlePostImage.
  rewrite Hlocate.
  destruct Hmethod as [[Hm ->] | (Hm & chunks & Hbody & Hpost)]; rewrite Hm in *; simpl;
    rewrite ?Hbody, ?Hpost; simpl; rewrite Hs, Hn; split; reflexivity.
Qed.

End Requests.

End GateFacts.

(** C5, at a POST whose body is the JSON text [null]: the request has no
    [url] parameter, and it is not answered 400.  The body ends, it is
    within the limit of 1000000 bytes, and [JSON.parse] returns [null]
    for it.  Reading [body.url] then throws, and the promise of
    [handlePostImage] is rejected outside the [try] of the listener: no
    reply is made, by either relay file, and nothing is fetched.  (A
    request to [/image] that reaches [proxyImage] without a usable [url]
    is answered 400 with nothing else done: [GateFacts.bad_url_refused].) *)
Theorem C5_post_null_is_not_answered
    (decodeURIComponent : string → option string)
    (numberToString : JS.number → string) (nullBody : JS.error)
    (net : Relay.network) (locate : string → JS.error + (string * URLSearchParams.t))
    (parseJson : list byte → option Relay.jvalue) (now : Z)
    (req : Relay.request) (query : URLSearchParams.t) :
  Relay.method req = "POST" →
  locate (Relay.target req) = inr ("/image", query) →
  Relay.aborted req = None →
  Z.of_nat (length (concat (Relay.sent req))) ≤ 1000000 →
  Relay.parsedBody parseJson (Relay.sent req) = Some Relay.JNull →
  Relay.postParams numberToString (Relay.parsedBody parseJson (Relay.sent req)) = None
  ∧ Server.serve decodeURIComponent numberToString nullBody net locate parseJson now req
    = ([], None)
  ∧ Sniffing.serve decodeURIComponent numberToString nullBody net locate parseJson now req
    = ([], None).
Proof.
  intros Hmethod Hlocate Hended Hfits Hnull.
  assert (Hbody : Relay.collect 0 (Relay.sent req) (Relay.aborted req)
                  = inr (Relay.sent req)).
  { rewrite Hended. apply RouteFacts.collect_all; lia. }
  unfold Server.serve, Sniffing.serve, Server.handlePostImage, Sniffing.handlePostImage.
  rewrite Hlocate, Hmethod, Hbody, Hnull. repeat split.
Qed.

(** [POST /image] with the four bytes [null] as its body. *)
Lemma C5_post_null_is_not_answered_witness :
  let req :=
    {| Relay.method := "POST"; Relay.target := "/image";
       Relay.sent := [[x6e; x75; x6c; x6c]]; Relay.aborted := None |} in
  Server.serve Some (λ _, "") (JS.Error "TypeError" "")
    (λ _ _ _, Fetch.Rejected (JS.Error "" "")) (λ _, inr ("/image", []))
    (λ _, Some Relay.JNull) 0 req
  = ([], None).
Proof.
  intros req.
  destruct (C5_post_null_is_not_answered Some (λ _, "") (JS.Error "TypeError" "")
              (λ _ _ _, Fetch.Rejected (JS.Error "" "")) (λ _, inr ("/image", []))
              (λ _, Some Relay.JNull) 0 req [])
    as (_ & Hserver & _); [reflexivity | reflexivity | reflexivity | simpl; lia | reflexivity |].
  exact Hserver.
Defined.

(** ** The timeout of the upstream fetch *)

Module TimeoutFacts.
Import Relay Terms.

Lemma clamp_bounds (q : Q) : (inject_Z 1000 <= clamp q <= inject_Z 120000)%Q.
Proof.
  unfold clamp.
  destruct (Qle_bool q (inject_Z 1000)) eqn:Hlo.
  - split; [apply Qle_refl | by apply Qle_bool_iff].
  - destruct (Qle_bool q (inject_Z 120000)) eqn:Hhi.
    + split; [|by apply Qle_bool_iff].
      destruct (Qlt_le_dec (inject_Z 1000) q) as [Hlt|Hle];
        [by apply Qlt_le_weak|].
      apply Qle_bool_iff in Hle. congruence.
    + split; [by apply Qle_bool_iff | apply Qle_refl].
Qed.

(** Without the parameter, or with an empty one, the timeout is 15000. *)
Lemma timeout_default (sp : URLSearchParams.t) :
  URLSearchParams.get sp "timeout" = None ∨ URLSearchParams.get sp "timeout" = Some "" →
  timeoutOf sp = JS.of_Z 15000.
Proof. intros [H | H]; unfold timeoutOf; rewrite H; reflexivity. Qed.

(** A parameter that reads as a finite number is clamped. *)
Lemma timeout_finite (sp : URLSearchParams.t) (s : string) (q : Q) :
  URLSearchParams.get sp "timeout" = Some s → s ≠ "" →
  JS.StringToNumber s = JS.Finite q →
  timeoutOf sp = JS.Finite (clamp q).
Proof.
  intros Hget Hne Hnum. unfold timeoutOf, JS.or. rewrite Hget.
  cbn [JS.nullable]. rewrite (truthy_Str _ Hne). cbn [JS.Number]. rewrite Hnum.
  unfold clamp, JS.max, JS.min, JS.of_Z. cbn [JS.leb].
  destruct (Qle_bool q (inject_Z 1000)) eqn:Hlo; cbn [JS.leb].
  - reflexivity.
  - destruct (Qle_bool q (inject_Z 120000)); reflexivity.
Qed.

(** A parameter that does not read as a number makes the timeout [NaN]. *)
Lemma timeout_not_numeric (sp : URLSearchParams.t) (s : string) :
  URLSearchParams.get sp "timeout" = Some s → s ≠ "" →
  JS.StringToNumber s = JS.NaN →
  timeoutOf sp = JS.NaN.
Proof.
  intros Hget Hne Hnum. unfold timeoutOf, JS.or. rewrite Hget.
  cbn [JS.nullable]. rewrite (truthy_Str _ Hne). cbn [JS.Number]. rewrite Hnum.
  reflexivity.
Qed.

End TimeoutFacts.

(** C2, at a timeout that is not numeric: for [timeout=abc] both relay
    files compute [NaN], which is neither 15000 nor a value between 1000
    and 120000, and hand it to the timer of the fetch. *)
Theorem C2_timeout_not_numeric
    (decodeURIComponent : string → option string) (nullBody : JS.error)
    (net : Relay.network) (method : string) :
  let sp := [("url", "https://cdn.test/a.jpg"); ("timeout", "abc")] in
  Relay.timeoutOf sp = JS.NaN
  ∧ Relay.timeoutOf sp ≠ JS.of_Z 15000
  ∧ fst (Server.proxyImage decodeURIComponent nullBody net sp)
    = [Relay.Fetch "https://cdn.test/a.jpg" ∅ JS.NaN]
  ∧ filter (λ e, Relay.isFetch e = true)
      (fst (Sniffing.proxyImage decodeURIComponent nullBody net method sp))
    = [Relay.Fetch "https://cdn.test/a.jpg"
         (Sniffing.parseHeadersFromQuery [("url", "https://cdn.test/a.jpg"); ("timeout", "abc")])
         JS.NaN].
Proof.
  intros sp. split; [reflexivity|]. split; [discriminate|]. split.
  - unfold Server.proxyImage. simpl.
    change (Relay.timeoutOf sp) with JS.NaN.
    change (Server.parseHeadersFromQuery sp) with (∅ : gmap string string).
    destruct (net _ _ _) as [err|resp]; [reflexivity|].
    repeat case_if; reflexivity.
  - unfold Sniffing.proxyImage. simpl.
    change (Relay.timeoutOf sp) with JS.NaN.
    destruct (net _ _ _) as [err|resp]; [reflexivity|].
    case_if; [reflexivity|].
    destruct (Sniffing.readFirst nullBody resp) as [e|firstChunk rest failure]; [reflexivity|].
    case_if; [reflexivity|].
    destruct (Relay.refusedHead _); [reflexivity|].
    destruct failure; reflexivity.
Qed.

(** ** The type a 200 reply is labelled with *)

Module TypeFacts.
Import Relay.

Lemma headersOut_content_type decode (sp : URLSearchParams.t) (resp : response)
      (type : string) :
  headersOut decode sp resp type !! "content-type"
  = Some (if String.eqb type "" then "application/octet-stream" else type).
Proof.
  unfold headersOut.
  destruct (contentLength resp) as [clen|]; [destruct (String.eqb clen "")|];
    repeat (rewrite lookup_insert_ne by done); by rewrite lookup_singleton_eq.
Qed.


Lemma image_nonempty (s : string) : JS.startsWith s "image/" = true → s ≠ "".
Proof. intros H ->. discriminate. Qed.

Lemma resolveType_declared (t : string) (sniffed : option string) :
  JS.startsWith t "image/" = true → Sniffing.resolveType t sniffed = t.
Proof.
  intros H. unfold Sniffing.resolveType. rewrite H.
  destruct (String.eqb_spec t ""); [by apply image_nonempty in H | reflexivity].
Qed.

Lemma sniff_jpeg (tail : list byte) :
  Sniffing.sniffImageType (xff :: xd8 :: xff :: tail) = Some "image/jpeg".
Proof. reflexivity. Qed.

Lemma passes_gate (allowAny : bool) (t : string) :
  JS.startsWith t "image/" = true →
  negb allowAny && (String.eqb t "" || negb (JS.startsWith t "image/")) = false.
Proof.
  intros H. rewrite H.
  destruct (String.eqb_spec t ""); [by apply image_nonempty in H|].
  by destruct allowAny.
Qed.

End TypeFacts.

(** ** The head of a 200 reply *)

Module HeadFacts.
Import Relay.

Lemma valid_app (a b : string) :
  validHeaderValue (a +:+ b) = validHeaderValue a && validHeaderValue b.
Proof.
  induction a as [|c a IH]; [reflexivity|].
  simpl. rewrite IH. by rewrite andb_assoc.
Qed.



Lemma safe_char_valid (c : ascii) : JS.is_safe_char c = true → isHeaderChar c = true.
Proof. destruct c as [[] [] [] [] [] [] [] []]; vm_compute; congruence. Qed.

Lemma valid_replaced (s : string) : validHeaderValue (JS.replace_unsafe s) = true.
Proof.
  induction s as [|c s IH]; [reflexivity|].
  cbn [JS.replace_unsafe]. destruct (JS.is_safe_char c) eqn:Hc;
    cbn [validHeaderValue]; rewrite IH; [by rewrite (safe_char_valid c Hc) | reflexivity].
Qed.

(** The [content-disposition] of the reply is refused only for its first
    part, the [contentDisposition] parameter: the file name is sanitised. *)
Lemma valid_disposition (cd : string) (name : option string) :
  let filename := sanitizeFilename name in
  validHeaderValue
    (cd +:+ "; filename=" +:+ String Disposition.quote
       ((if String.eqb filename "" then "file" else filename)
          +:+ String Disposition.quote ""))
  = validHeaderValue cd.
Proof.
  intros filename. rewrite !valid_app. cbn [validHeaderValue String.app].
  rewrite !valid_app.
  assert (Hname : validHeaderValue (if String.eqb filename "" then "file" else filename) = true).
  { destruct (String.eqb filename ""); [reflexivity | apply valid_replaced]. }
  rewrite Hname. vm_compute (isHeaderChar _). cbn [validHeaderValue andb].
  by rewrite !andb_true_r.
Qed.

Section Head.
Variable decodeURIComponent : string → option string.

Lemma headersOut_cache_control (sp : URLSearchParams.t) (resp : response) (type : string) :
  headersOut decodeURIComponent sp resp type !! "cache-control" = Some "no-store".
Proof.
  unfold headersOut.
  destruct (contentLength resp) as [clen|]; [destruct (String.eqb clen "")|];
    repeat (rewrite lookup_insert_ne by done); by rewrite lookup_insert_eq.
Qed.

Lemma headersOut_content_disposition (sp : URLSearchParams.t) (resp : response)
      (type : string) :
  let filename :=
    sanitizeFilename
      (orElse (URLSearchParams.get sp "filename")
              (filenameFromDisposition decodeURIComponent (contentDisposition resp))) in
  headersOut decodeURIComponent sp resp type !! "content-disposition"
  = Some (dispositionOf sp +:+ "; filename=" +:+ String Disposition.quote
            ((if String.eqb filename "" then "file" else filename)
               +:+ String Disposition.quote "")).
Proof.
  unfold headersOut.
  destruct (contentLength resp) as [clen|]; [destruct (String.eqb clen "")|];
    repeat (rewrite lookup_insert_ne by done); by rewrite lookup_insert_eq.
Qed.

Lemma headersOut_content_length (sp : URLSearchParams.t) (resp : response) (type : string) :
  headersOut decodeURIComponent sp resp type !! "content-length"
  = orElse (contentLength resp) None.
Proof.
  unfold headersOut, orElse.
  destruct (contentLength resp) as [clen|]; [destruct (String.eqb clen "")|];
    rewrite ?lookup_insert_eq; [| reflexivity |];
    repeat (rewrite lookup_insert_ne by done); by rewrite lookup_singleton_ne.
Qed.

(** Which header [writeHead] refuses. *)
Lemma refusedHead_headersOut (sp : URLSearchParams.t) (resp : response) (type : string) :
  refusedHead (headersOut decodeURIComponent sp resp type)
  = if negb (validHeaderValue type) then Some (invalidChar "content-type")
    else if negb (validHeaderValue (dispositionOf sp))
    then Some (invalidChar "content-disposition")
    else if negb (validHeaderValue (default "" (contentLength resp)))
    then Some (invalidChar "content-length")
    else None.
Proof.
  unfold refusedHead. cbn [filter list_filter].
  rewrite TypeFacts.headersOut_content_type, headersOut_cache_control,
    headersOut_content_disposition, headersOut_content_length.
  cbn [from_option]. rewrite valid_disposition.
  assert (Htype : validHeaderValue (if String.eqb type "" then "application/octet-stream"
                                    else type) = validHeaderValue type).
  { by destruct (String.eqb_spec type "") as [->|]. }
  rewrite Htype.
  assert (Hlen : from_option (λ v, negb (validHeaderValue v)) false
                   (orElse (contentLength resp) None)
                 = negb (validHeaderValue (default "" (contentLength resp)))).
  { unfold orElse. destruct (contentLength resp) as [clen|]; [|reflexivity].
    by destruct (String.eqb_spec clen "") as [->|]. }
  rewrite Hlen.
  destruct (validHeaderValue type), (validHeaderValue (dispositionOf sp)),
    (validHeaderValue (default "" (contentLength resp))); reflexivity.
Qed.

Lemma accepted (sp : URLSearchParams.t) (resp : response) (type : string) :
  Terms.sendable sp resp type = true →
  refusedHead (headersOut decodeURIComponent sp resp type) = None.
Proof.
  unfold Terms.sendable. rewrite refusedHead_headersOut.
  by destruct (validHeaderValue type), (validHeaderValue (dispositionOf sp)),
    (validHeaderValue (default "" (contentLength resp))).
Qed.

Lemma refused (sp : URLSearchParams.t) (resp : response) (type : string) :
  Terms.sendable sp resp type = false →
  ∃ name, refusedHead (headersOut decodeURIComponent sp resp type)
          = Some (invalidChar name).
Proof.
  unfold Terms.sendable. rewrite refusedHead_headersOut.
  destruct (validHeaderValue type), (validHeaderValue (dispositionOf sp)),
    (validHeaderValue (default "" (contentLength resp)));
    first [discriminate | intros _; eexists; reflexivity].
Qed.

Lemma refused_named (sp : URLSearchParams.t) (resp : response) (type : string) :
  Terms.sendable sp resp type = false →
  ∃ name, name ∈ ["content-type"; "content-disposition"; "content-length"]
          ∧ refusedHead (headersOut decodeURIComponent sp resp type)
            = Some (invalidChar name).
Proof.
  unfold Terms.sendable. rewrite refusedHead_headersOut.
  destruct (validHeaderValue type), (validHeaderValue (dispositionOf sp)),
    (validHeaderValue (default "" (contentLength resp)));
    first [discriminate | intros _; eexists; split; [|reflexivity]];
    rewrite !elem_of_cons; auto.
Qed.


End Head.

End HeadFacts.

(** C1, at the minimal relay: [server.js] does not look at the body.  For
    an upstream reply with status 200, declared type [text/plain] and a
    body that starts with FF D8 FF, with [allowAny] unset, it answers 415
    and not 200. *)
Lemma C1_minimal_relay_rejects_jpeg :
  let resp :=
    {| Fetch.status := 200; Fetch.contentType := Some "text/plain";
       Fetch.contentLength := None; Fetch.contentDisposition := None;
       Fetch.body := Some {| Fetch.chunks := [[xff; xd8; xff; xe0]];
                             Fetch.failure := None |} |} in
  let net : Relay.network := λ _ _ _, Fetch.Resolved resp in
  let sp := [("url", "https://cdn.test/a")] in
  let reply := snd (Server.proxyImage Some (JS.Error "TypeError" "") net sp) in
  Fetch.ok resp = true
  ∧ Relay.allowAnyOf sp = false
  ∧ Relay.code <$> reply = Some 415
  ∧ Relay.code <$> reply ≠ Some 200.
Proof. repeat split; discriminate. Qed.

(** C1, amended: in the relay file with sniffing, an upstream reply with a
    2xx status, declared type [text/plain] and a first chunk that starts
    with FF D8 FF is answered with status 200, content type [image/jpeg]
    and the body as it arrived, whether [allowAny] is set or not,
    provided the head of the reply can be sent: neither the
    [contentDisposition] parameter nor the upstream content length holds
    a character that [writeHead] refuses.  When one does, the answer is
    500 [stream setup error].  The minimal relay, [server.js], has no
    sniffing: with [allowAny] unset it answers such a reply with 415. *)
Theorem C1_sniffing_relay_passes_jpeg
    (decodeURIComponent : string → option string) (nullBody : JS.error)
    (net : Relay.network) (method : string) (sp : URLSearchParams.t) (url : string)
    (resp : Fetch.response) (st : Fetch.stream) (tail : list byte) (rest : list (list byte)) :
  URLSearchParams.get sp "url" = Some url →
  Relay.isHttpUrl url = true →
  Fetch.ok resp = true →
  Fetch.contentType resp = Some "text/plain" →
  Fetch.body resp = Some st →
  Fetch.arriving st = (xff :: xd8 :: xff :: tail) :: rest →
  (net url (Sniffing.parseHeadersFromQuery sp) (Relay.timeoutOf sp) = Fetch.Resolved resp →
   let reply := snd (Sniffing.proxyImage decodeURIComponent nullBody net method sp) in
   (Relay.validHeaderValue (Relay.dispositionOf sp) = true →
    Relay.validHeaderValue (default "" (Fetch.contentLength resp)) = true →
    Relay.code reply = 200
    ∧ Relay.headers reply !! "content-type" = Some "image/jpeg"
    ∧ Relay.content reply
      = Relay.piped ((xff :: xd8 :: xff :: tail) :: rest) (Fetch.broken st))
   ∧ (Relay.validHeaderValue (Relay.dispositionOf sp)
      && Relay.validHeaderValue (default "" (Fetch.contentLength resp)) = false →
      ∃ detail,
        reply = Relay.bad 500 "stream setup error" [("detail", Relay.JStr detail)]))
  ∧ (net url (Server.parseHeadersFromQuery sp) (Relay.timeoutOf sp) = Fetch.Resolved resp →
     Relay.allowAnyOf sp = false →
     Relay.code <$> snd (Server.proxyImage decodeURIComponent nullBody net sp) = Some 415).
Proof.
  intros Hget Hhttp Hok Htype Hbody Hchunks.
  pose proof (GateFacts.accepted_url sp url Hget Hhttp) as Hurl.
  split.
  - intros Hnet reply. subst reply. unfold Sniffing.proxyImage.
    rewrite Hurl, Hhttp. cbn [negb]. rewrite Hnet, Hok. cbn [negb].
    unfold Sniffing.readFirst. rewrite Hbody, Hchunks, Htype.
    rewrite TypeFacts.sniff_jpeg.
    change (Sniffing.resolveType (JS.toLowerCase (default "" (Some "text/plain")))
              (Some "image/jpeg")) with "image/jpeg".
    rewrite (TypeFacts.passes_gate _ "image/jpeg") by reflexivity.
    split.
    + intros Hcd Hlen.
      rewrite HeadFacts.accepted
        by (unfold Terms.sendable; rewrite Hcd, Hlen; reflexivity).
      cbn [snd Relay.code Relay.headers Relay.content].
      rewrite TypeFacts.headersOut_content_type. repeat split.
    + intros Hbad.
      destruct (HeadFacts.refused decodeURIComponent sp resp "image/jpeg")
        as [name ->]; [exact Hbad|].
      eexists. reflexivity.
  - intros Hnet Hany. unfold Server.proxyImage.
    rewrite Hurl, Hhttp. cbn [negb]. rewrite Hnet, Hok, Hany, Htype. reflexivity.
Qed.

(** A JPEG sent as [text/plain], through the relay with sniffing. *)
Lemma C1_sniffing_relay_passes_jpeg_witness :
  let resp :=
    {| Fetch.status := 200; Fetch.contentType := Some "text/plain";
       Fetch.contentLength := None; Fetch.contentDisposition := None;
       Fetch.body := Some {| Fetch.chunks := [[xff; xd8; xff; xe0]];
                             Fetch.failure := None |} |} in
  let net : Relay.network := λ _ _ _, Fetch.Resolved resp in
  let reply :=
    snd (Sniffing.proxyImage Some (JS.Error "TypeError" "") net "GET"
           [("url", "https://cdn.test/a")]) in
  Relay.code reply = 200 ∧ Relay.headers reply !! "content-type" = Some "image/jpeg".
Proof.
  intros resp net reply.
  destruct (C1_sniffing_relay_passes_jpeg Some (JS.Error "TypeError" "") net "GET"
              [("url", "https://cdn.test/a")] "https://cdn.test/a" resp
              {| Fetch.chunks := [[xff; xd8; xff; xe0]]; Fetch.failure := None |}
              [xe0] [] eq_refl eq_refl eq_refl eq_refl eq_refl eq_refl)
    as [Hsniff _].
  destruct (Hsniff eq_refl) as [Hsent _].
  destruct (Hsent eq_refl eq_refl) as (Hcode & Htype & _).
  split; [exact Hcode | exact Htype].
Defined.




(** ** Strings without a slash, and the paths [uniquePath] tries *)

Module PathFacts.
Import Path Terms.

Lemma app_cons (c : ascii) (r s : string) : String c r +:+ s = String c (r +:+ s).
Proof. reflexivity. Qed.

Lemma app_empty (s : string) : "" +:+ s = s.
Proof. reflexivity. Qed.

Lemma app_assoc (a b c : string) : (a +:+ b) +:+ c = a +:+ b +:+ c.
Proof. induction a as [|x a IH]; [reflexivity|]. by rewrite !app_cons, IH. Qed.

Lemma app_length (a b : string) :
  String.length (a +:+ b) = (String.length a + String.length b)%nat.
Proof. induction a as [|x a IH]; [reflexivity|]. rewrite app_cons. simpl. by rewrite IH. Qed.

Lemma app_inj_length (s1 s2 t1 t2 : string) :
  String.length s1 = String.length s2 → s1 +:+ t1 = s2 +:+ t2 → s1 = s2 ∧ t1 = t2.
Proof.
  revert s2. induction s1 as [|x s1 IH]; intros [|y s2] Hlen Heq; try discriminate.
  - by rewrite !app_empty in Heq.
  - rewrite !app_cons in Heq. injection Heq as -> Heq. injection Hlen as Hlen.
    destruct (IH s2 Hlen Heq) as [-> ->]. done.
Qed.

Lemma app_inj_r (s1 s2 t : string) : s1 +:+ t = s2 +:+ t → s1 = s2.
Proof.
  intros Heq. apply (app_inj_length s1 s2 t t); [|exact Heq].
  apply (f_equal String.length) in Heq. rewrite !app_length in Heq. lia.
Qed.

Lemma slashFree_app (a b : string) : slashFree (a +:+ b) = slashFree a && slashFree b.
Proof.
  induction a as [|x a IH]; [reflexivity|].
  rewrite app_cons. simpl. rewrite IH. by rewrite andb_assoc.
Qed.

Lemma split_nonempty (s : string) : ∃ x xs, split s = x :: xs.
Proof.
  induction s as [|c s (x & xs & IH)]; simpl; [eauto|].
  destruct (Ascii.eqb c "/"); [eauto|]. rewrite IH. eauto.
Qed.

Lemma split_slashFree (s : string) : slashFree s = true → split s = [s].
Proof.
  induction s as [|c s IH]; simpl; [done|].
  intros [Hc Hs]%andb_true_iff. apply negb_true_iff in Hc. rewrite Hc.
  by rewrite (IH Hs).
Qed.

Lemma split_app (s t : string) :
  slashFree t = true → split (s +:+ "/" +:+ t) = split s ++ [t].
Proof.
  intros Ht. induction s as [|c s IH].
  - rewrite app_empty, app_cons, app_empty. simpl. by rewrite (split_slashFree t Ht).
  - rewrite app_cons. simpl. rewrite IH.
    destruct (Ascii.eqb c "/"); [reflexivity|].
    destruct (split_nonempty s) as (x & xs & ->). reflexivity.
Qed.

Lemma split_segments (s : string) : Forall (λ x, slashFree x = true) (split s).
Proof.
  induction s as [|c s IH]; simpl; [by repeat constructor|].
  destruct (Ascii.eqb c "/") eqn:Hc; [by constructor|].
  destruct (split s) as [|x xs]; [by repeat constructor; simpl; rewrite Hc|].
  apply Forall_cons in IH as [Hx Hxs]. constructor; [|exact Hxs].
  simpl. by rewrite Hc, Hx.
Qed.

Lemma lastPortion_slashFree (p : string) : slashFree (lastPortion p) = true.
Proof.
  unfold lastPortion. induction (split_segments p) as [|x l Hx _ IH]; simpl; [done|].
  by destruct (String.eqb (lastNonEmpty l) "").
Qed.

Lemma take_slashFree (n : nat) (s : string) : slashFree s = true → slashFree (JS.take n s) = true.
Proof.
  revert s. induction n as [|n IH]; intros [|c s]; simpl; try done.
  intros [Hc Hs]%andb_true_iff. by rewrite Hc, (IH s Hs).
Qed.

Lemma drop_slashFree (n : nat) (s : string) : slashFree s = true → slashFree (JS.drop n s) = true.
Proof.
  revert s. induction n as [|n IH]; intros [|c s]; simpl; try done.
  intros [Hc Hs]%andb_true_iff. by apply IH.
Qed.

Lemma extname_slashFree (p : string) : slashFree (extname p) = true.
Proof.
  unfold extname. destruct (lastDot (lastPortion p)) as [[|i]|]; try done.
  destruct (String.eqb (lastPortion p) ".."); [done|].
  apply drop_slashFree, lastPortion_slashFree.
Qed.

Lemma digits_slashFree (x : N) (s : string) :
  slashFree s = true → slashFree (pretty_N_go x s) = true.
Proof.
  revert s. induction (N.lt_wf_0 x) as [x _ IH]; intros s Hs.
  assert (x = 0 ∨ 0 < x)%N as [->|Hpos] by lia; [by rewrite pretty_N_go_0|].
  rewrite pretty_N_go_step by done. apply IH; [by apply N.div_lt|].
  simpl. rewrite Hs. unfold pretty_N_char. by repeat case_match.
Qed.

Lemma pretty_slashFree (k : Z) : 0 < k → slashFree (pretty k) = true.
Proof.
  destruct k as [|p|p]; try lia. intros _.
  unfold pretty, pretty_Z, pretty, pretty_positive, pretty, pretty_N.
  case_decide; [done|]. by apply digits_slashFree.
Qed.

Lemma numbered_slashFree (base : string) (k : Z) :
  0 < k → slashFree (Downloader.numbered base k) = true.
Proof.
  intros Hk. unfold Downloader.numbered, basenameWithout.
  rewrite !slashFree_app, (pretty_slashFree k Hk), extname_slashFree.
  rewrite take_slashFree by apply lastPortion_slashFree. reflexivity.
Qed.

Lemma numbered_length (base : string) (k : Z) :
  (3 ≤ String.length (Downloader.numbered base k))%nat.
Proof. unfold Downloader.numbered. rewrite !app_length. simpl. lia. Qed.

Lemma numbered_inj (base : string) (j k : Z) :
  Downloader.numbered base j = Downloader.numbered base k → j = k.
Proof.
  unfold Downloader.numbered. intros Heq.
  apply (inj (String.app _)) in Heq. apply (inj (String.app _)) in Heq.
  apply app_inj_r in Heq. by apply (inj pretty) in Heq.
Qed.

Lemma ordinary_eqb (seg : string) :
  ordinary seg →
  String.eqb seg "" = false ∧ String.eqb seg "." = false ∧ String.eqb seg ".." = false.
Proof.
  intros [_ Hlen]. repeat split; apply String.eqb_neq; intros ->; simpl in Hlen; lia.
Qed.

Lemma ordinary_not_absolute (seg : string) : ordinary seg → JS.startsWith seg "/" = false.
Proof.
  intros [Hfree Hlen]. destruct seg as [|c seg]; [simpl in Hlen; lia|].
  simpl in Hfree. apply andb_true_iff in Hfree as [Hc _]. apply negb_true_iff in Hc.
  unfold JS.startsWith. cbn [String.prefix].
  destruct (ascii_dec "/" c) as [<-|]; [vm_compute in Hc; discriminate | reflexivity].
Qed.

Lemma endsWithSlash_app (a seg : string) :
  ordinary seg → endsWithSlash (a +:+ seg) = false.
Proof.
  intros [Hfree Hlen]. induction a as [|c a IH].
  - rewrite app_empty. clear Hlen. induction seg as [|c seg IH]; [done|].
    simpl in Hfree. apply andb_true_iff in Hfree as [Hc Hs].
    simpl. destruct seg; [by apply negb_true_iff in Hc | by apply IH].
  - rewrite app_cons. simpl. destruct (a +:+ seg) eqn:Happ; [|exact IH].
    apply (f_equal String.length) in Happ. rewrite app_length in Happ. simpl in Happ. lia.
Qed.

Lemma normalizeSegments_snoc (allow : bool) (seg : string) :
  ordinary seg →
  ∀ xs acc, normalizeSegments allow acc (xs ++ [seg])
            = normalizeSegments allow acc xs ++ [seg].
Proof.
  intros (He & Hd & Hdd)%ordinary_eqb. induction xs as [|x xs IH]; intros acc.
  - simpl. rewrite He, Hd, Hdd. simpl. by rewrite reverse_cons.
  - simpl. repeat case_match; apply IH.
Qed.

Lemma concat_with_snoc (sep seg : string) (ys : list string) :
  concat_with sep (ys ++ [seg])
  = (match ys with [] => "" | _ => concat_with sep ys +:+ sep end) +:+ seg.
Proof.
  induction ys as [|y ys IH]; [reflexivity|].
  destruct ys as [|y' ys]; [simpl; by rewrite app_assoc|].
  change (concat_with sep ((y :: y' :: ys) ++ [seg]))
    with (y +:+ sep +:+ concat_with sep ((y' :: ys) ++ [seg])).
  rewrite IH.
  change (concat_with sep (y :: y' :: ys)) with (y +:+ sep +:+ concat_with sep (y' :: ys)).
  by rewrite !app_assoc.
Qed.

Lemma app_nonempty (a seg : string) : ordinary seg → String.eqb (a +:+ seg) "" = false.
Proof.
  intros [_ Hlen]. apply String.eqb_neq. intros Heq.
  apply (f_equal String.length) in Heq. rewrite app_length in Heq. simpl in Heq. lia.
Qed.

(** Joined to a directory, an ordinary segment stays at the end of the
    path, behind a front that only depends on the directory. *)
Lemma join_ordinary (dir : string) :
  ∃ front, ∀ seg, ordinary seg → join dir seg = front +:+ seg.
Proof.
  destruct (String.eqb_spec dir "") as [->|Hdir].
  - exists "". intros seg Hseg.
    destruct (ordinary_eqb seg Hseg) as (He & Hd & Hdd).
    unfold join. simpl. rewrite He. unfold normalize. rewrite He.
    rewrite (ordinary_not_absolute seg Hseg). simpl.
    rewrite (split_slashFree seg (proj1 Hseg)). simpl. rewrite He, Hd, Hdd. simpl.
    rewrite He. rewrite <- (app_empty seg) at 1. rewrite endsWithSlash_app by done.
    reflexivity.
  - set (abs := JS.startsWith dir "/").
    set (ys := normalizeSegments (negb abs) [] (split dir)).
    exists ((if abs then "/" else "")
              +:+ match ys with [] => "" | _ => concat_with "/" ys +:+ "/" end).
    intros seg Hseg.
    destruct (ordinary_eqb seg Hseg) as (He & Hd & Hdd).
    unfold join. rewrite He. apply String.eqb_neq in Hdir. rewrite Hdir.
    unfold normalize.
    assert (Hp : String.eqb (dir +:+ "/" +:+ seg) "" = false).
    { rewrite <- app_assoc. by apply app_nonempty. }
    rewrite Hp.
    assert (Habs : JS.startsWith (dir +:+ "/" +:+ seg) "/" = abs).
    { subst abs. destruct dir as [|c dir]; [discriminate|].
      unfold JS.startsWith. rewrite app_cons. cbn [String.prefix].
      destruct (ascii_dec "/" c); [|reflexivity].
      destruct (dir +:+ "/" +:+ seg); by destruct dir. }
    rewrite Habs.
    assert (Htrail : endsWithSlash (dir +:+ "/" +:+ seg) = false).
    { rewrite <- app_assoc. by apply endsWithSlash_app. }
    rewrite Htrail.
    rewrite (split_app dir seg (proj1 Hseg)).
    rewrite (normalizeSegments_snoc _ seg Hseg). fold ys.
    rewrite concat_with_snoc, app_nonempty by done.
    rewrite app_assoc. by destruct abs.
Qed.

(** The paths tried after the plain one are pairwise different. *)
Lemma candidates_inj (dir base : string) (j k : Z) :
  0 < j → 0 < k →
  join dir (Downloader.numbered base j) = join dir (Downloader.numbered base k) → j = k.
Proof.
  intros Hj Hk. destruct (join_ordinary dir) as [front Hfront].
  rewrite !Hfront by (split; [by apply numbered_slashFree | apply numbered_length]).
  intros Heq. apply (inj (String.app _)) in Heq. by apply numbered_inj in Heq.
Qed.

End PathFacts.

(** ** [uniquePath] *)

Module UniqueFacts.
Import Downloader Terms.

Lemma existsSync_true (fs : gmap string node) (p : string) :
  existsSync fs p = true ↔ is_Some (fs !! p).
Proof. unfold existsSync. by rewrite bool_decide_eq_true. Qed.

Lemma existsSync_false (fs : gmap string node) (p : string) :
  existsSync fs p = false ↔ fs !! p = None.
Proof. unfold existsSync. by rewrite bool_decide_eq_false, eq_None_not_Some. Qed.

Lemma existsSync_insert (fs : gmap string node) (p : string) (x : node) :
  existsSync (<[p := x]> fs) p = true.
Proof. apply existsSync_true. rewrite lookup_insert_eq. by eexists. Qed.

Lemma existsSync_insert_mono (fs : gmap string node) (p q : string) (x : node) :
  existsSync fs q = true → existsSync (<[p := x]> fs) q = true.
Proof.
  rewrite !existsSync_true. intros Hq.
  destruct (decide (p = q)) as [->|Hne];
    [rewrite lookup_insert_eq; by eexists | by rewrite lookup_insert_ne].
Qed.

(** A free path is returned as it is. *)
Lemma uniqueFrom_free (fuel : nat) (fs : gmap string node) (dir base p : string) (i : Z) :
  existsSync fs p = false → uniqueFrom fuel fs dir base p i = Some p.
Proof. intros H. destruct fuel; simpl; by rewrite H. Qed.

(** What is returned names nothing. *)
Lemma uniqueFrom_result_free (fuel : nat) (fs : gmap string node) (dir base : string) :
  ∀ p i q, uniqueFrom fuel fs dir base p i = Some q → existsSync fs q = false.
Proof.
  induction fuel as [|fuel IH]; intros p i q; simpl;
    destruct (existsSync fs p) eqn:Hp; try congruence; try discriminate.
  apply IH.
Qed.

(** The loop stops at the first free candidate. *)
Lemma uniqueFrom_search (fs : gmap string node) (dir base : string) (n : nat) :
  ∀ fuel p i,
    existsSync fs p = true →
    (∀ k, i ≤ k < i + Z.of_nat n → existsSync fs (candidate dir base k) = true) →
    existsSync fs (candidate dir base (i + Z.of_nat n)) = false →
    (n < fuel)%nat →
    uniqueFrom fuel fs dir base p i = Some (candidate dir base (i + Z.of_nat n)).
Proof.
  induction n as [|n IH]; intros [|fuel] p i Hp Hbusy Hfree Hfuel; try lia;
    simpl; rewrite Hp.
  - change (Z.of_nat 0) with 0 in *. rewrite Z.add_0_r in *. by apply uniqueFrom_free.
  - replace (i + Z.of_nat (S n)) with (i + 1 + Z.of_nat n) in * by lia.
    apply IH; [apply Hbusy; lia | intros k Hk; apply Hbusy; lia | exact Hfree | lia].
Qed.

Lemma all_or_some (f : Z → bool) (n : nat) :
  ∀ i, (∀ k, i ≤ k < i + Z.of_nat n → f k = true)
       ∨ (∃ k, i ≤ k < i + Z.of_nat n ∧ f k = false).
Proof.
  induction n as [|n IH]; intros i; [left; intros; lia|].
  destruct (f i) eqn:Hi; [|right; exists i; split; [lia | exact Hi]].
  destruct (IH (i + 1)) as [Hall | (k & Hk & Hf)].
  - left. intros k Hk. destruct (decide (k = i)) as [->|]; [exact Hi | apply Hall; lia].
  - right. exists k. split; [lia | exact Hf].
Qed.

Lemma least_false (f : Z → bool) (n : nat) :
  ∀ i, (∃ k, i ≤ k < i + Z.of_nat n ∧ f k = false) →
       ∃ m : nat, (m < n)%nat ∧ f (i + Z.of_nat m) = false
                  ∧ ∀ k, i ≤ k < i + Z.of_nat m → f k = true.
Proof.
  induction n as [|n IH]; intros i (k & Hk & Hf); [lia|].
  destruct (f i) eqn:Hi.
  - destruct (IH (i + 1)) as (m & Hm & Hfm & Hbefore).
    { exists k. split; [|exact Hf]. destruct (decide (k = i)) as [->|]; [congruence | lia]. }
    exists (S m). split; [lia|]. split.
    + by replace (i + Z.of_nat (S m)) with (i + 1 + Z.of_nat m) by lia.
    + intros j Hj. destruct (decide (j = i)) as [->|]; [exact Hi | apply Hbefore; lia].
  - exists O. split; [lia|]. change (Z.of_nat 0) with 0. rewrite Z.add_0_r.
    split; [exact Hi | intros; lia].
Qed.

(** More candidates than existing paths: one of them is free. *)
Lemma some_candidate_free (fs : gmap string node) (dir base : string) (i : Z) :
  0 < i →
  ∃ k, i ≤ k < i + Z.of_nat (S (size fs)) ∧ existsSync fs (candidate dir base k) = false.
Proof.
  intros Hi.
  destruct (all_or_some (λ k, existsSync fs (candidate dir base k)) (S (size fs)) i)
    as [Hall | Hsome]; [exfalso | exact Hsome].
  set (l := candidate dir base <$> seqZ i (Z.of_nat (S (size fs)))).
  assert (Hnodup : NoDup l).
  { apply NoDup_fmap_2_strong; [|apply NoDup_seqZ].
    intros x y Hx%elem_of_seqZ Hy%elem_of_seqZ Heq.
    apply (PathFacts.candidates_inj dir base); [lia | lia | exact Heq]. }
  assert (Hsub : (list_to_set l : gset string) ⊆ dom fs).
  { intros p Hp%elem_of_list_to_set. unfold l in Hp.
    apply list_elem_of_fmap in Hp as (k & -> & Hk%elem_of_seqZ).
    apply elem_of_dom, existsSync_true, Hall. lia. }
  apply subseteq_size in Hsub.
  rewrite size_list_to_set in Hsub by exact Hnodup.
  rewrite size_dom in Hsub. unfold l in Hsub.
  rewrite length_fmap, length_seqZ in Hsub. lia.
Qed.

(** [uniquePath] always finds a path: one more round than there are
    existing paths is enough. *)
Lemma uniquePath_total (fs : gmap string node) (dir base : string) :
  ∃ p, existsSync fs p = false
       ∧ ∀ fuel, (size fs < fuel)%nat → uniquePath fuel fs dir base = Some p.
Proof.
  unfold uniquePath.
  destruct (existsSync fs (Path.join dir base)) eqn:Hplain.
  - destruct (least_false (λ k, existsSync fs (candidate dir base k)) (S (size fs)) 1
                (some_candidate_free fs dir base 1 ltac:(lia)))
      as (m & Hm & Hfree & Hbusy).
    exists (candidate dir base (1 + Z.of_nat m)). split; [exact Hfree|].
    intros fuel Hfuel. apply uniqueFrom_search; [exact Hplain | exact Hbusy | exact Hfree | lia].
  - exists (Path.join dir base). split; [exact Hplain|].
    intros fuel _. by apply uniqueFrom_free.
Qed.

End UniqueFacts.

Module StemFacts.
Import Path Terms.

Lemma take_all (s : string) : JS.take (String.length s) s = s.
Proof. induction s as [|c s IH]; simpl; [done | by rewrite IH]. Qed.

Lemma app_empty_r (s : string) : s +:+ "" = s.
Proof. induction s as [|c s IH]; [done|]. by rewrite PathFacts.app_cons, IH. Qed.

Lemma take_drop (i : nat) (s : string) : JS.take i s +:+ JS.drop i s = s.
Proof.
  revert s. induction i as [|i IH]; intros [|c s]; simpl; try done.
  by rewrite PathFacts.app_cons, IH.
Qed.

Lemma drop_length (i : nat) (s : string) :
  String.length (JS.drop i s) = (String.length s - i)%nat.
Proof. revert s. induction i as [|i IH]; intros [|c s]; simpl; done. Qed.

Lemma lastDot_lt (s : string) (i : nat) : lastDot s = Some i → (i < String.length s)%nat.
Proof.
  revert i. induction s as [|c s IH]; intros i; simpl; [done|].
  destruct (lastDot s) as [j|].
  - intros [= <-]. specialize (IH j eq_refl). lia.
  - destruct (Ascii.eqb c "."); [intros [= <-]; lia | done].
Qed.

Lemma lastPortion_slashFree_id (s : string) :
  slashFree s = true → lastPortion s = s.
Proof.
  intros Hs. unfold lastPortion. rewrite (PathFacts.split_slashFree s Hs). reflexivity.
Qed.

(** A name without a slash is its stem followed by its extension. *)
Lemma stem_extname (base : string) :
  slashFree base = true →
  basenameWithout base (extname base) +:+ extname base = base.
Proof.
  intros Hs. unfold basenameWithout, extname. rewrite (lastPortion_slashFree_id base Hs).
  destruct (lastDot base) as [[|i]|] eqn:Hdot;
    try (simpl; rewrite Nat.sub_0_r, take_all; apply app_empty_r).
  destruct (String.eqb base "..");
    [simpl; rewrite Nat.sub_0_r, take_all; apply app_empty_r|].
  apply lastDot_lt in Hdot. rewrite drop_length.
  replace (String.length base - (String.length base - S i))%nat with (S i) by lia.
  apply take_drop.
Qed.

Lemma sanitizeName_slashFree (name : string) :
  slashFree (Downloader.sanitizeName name) = true.
Proof.
  unfold Downloader.sanitizeName. induction name as [|c name IH]; [done|].
  simpl. rewrite IH, andb_true_r.
  destruct (JS.is_safe_char c) eqn:Hsafe; [|reflexivity].
  destruct (Ascii.eqb_spec c "/") as [->|]; [discriminate | reflexivity].
Qed.

End StemFacts.

(** C7: two downloads of the same base name into the same directory, the
    second one made when the file of the first one is there.  With the
    plain path and the path numbered 1 free at the start, the first
    download is given the directory joined with the base name and the
    second one the directory joined with the base name that has [" (1)"]
    between its stem and its extension, and the two paths differ.  In
    general [uniquePath] returns the plain path when that is free and
    otherwise the path with the least number, counting from 1, that is
    free; it always stops, and what it returns names no existing file. *)
Theorem C7_unique_paths (fs : gmap string Downloader.node) (dir base : string)
    (first : Downloader.node) :
  let plain := Path.join dir base in
  let second := Path.join dir (Downloader.numbered base 1) in
  Downloader.existsSync fs plain = false →
  Downloader.existsSync (<[plain := first]> fs) second = false →
  (∀ fuel, Downloader.uniquePath fuel fs dir base = Some plain)
  ∧ (∀ fuel, (0 < fuel)%nat →
             Downloader.uniquePath fuel (<[plain := first]> fs) dir base = Some second)
  ∧ plain ≠ second
  ∧ Downloader.numbered base 1
    = Path.basenameWithout base (Path.extname base) +:+ " (1)" +:+ Path.extname base
  ∧ (Terms.slashFree base = true →
     Path.basenameWithout base (Path.extname base) +:+ Path.extname base = base)
  ∧ (∀ (fs' : gmap string Downloader.node) (n : nat) fuel,
       Downloader.existsSync fs' plain = true →
       (∀ k, 1 ≤ k < 1 + Z.of_nat n →
             Downloader.existsSync fs' (Path.join dir (Downloader.numbered base k)) = true) →
       Downloader.existsSync fs'
         (Path.join dir (Downloader.numbered base (1 + Z.of_nat n))) = false →
       (n < fuel)%nat →
       Downloader.uniquePath fuel fs' dir base
       = Some (Path.join dir (Downloader.numbered base (1 + Z.of_nat n))))
  ∧ (∀ fs' : gmap string Downloader.node,
       ∃ p, Downloader.existsSync fs' p = false
            ∧ ∀ fuel, (size fs' < fuel)%nat →
                      Downloader.uniquePath fuel fs' dir base = Some p).
Proof.
  intros plain second Hplain Hsecond.
  assert (Hthere : Downloader.existsSync (<[plain := first]> fs) plain = true)
    by apply UniqueFacts.existsSync_insert.
  repeat split.
  - intros fuel. by apply UniqueFacts.uniqueFrom_free.
  - intros fuel Hfuel.
    apply (UniqueFacts.uniqueFrom_search _ dir base 0 fuel plain 1);
      [exact Hthere | intros; lia | exact Hsecond | exact Hfuel].
  - intros Heq. rewrite <- Heq in Hsecond. congruence.
  - intros Hfree. by apply StemFacts.stem_extname.
  - intros fs' n fuel Hbusy Hnumbered Hfree Hfuel.
    by apply (UniqueFacts.uniqueFrom_search fs' dir base n fuel plain 1).
  - intros fs'. apply UniqueFacts.uniquePath_total.
Qed.

(** [a.jpg] twice into [downloads]. *)
Lemma C7_unique_paths_witness :
  let fs : gmap string Downloader.node := {[ "downloads" := Downloader.Dir ]} in
  Downloader.uniquePath 1 fs "downloads" "a.jpg" = Some "downloads/a.jpg"
  ∧ Downloader.uniquePath 1 (<["downloads/a.jpg" := Downloader.File [xff; xd8]]> fs)
      "downloads" "a.jpg" = Some "downloads/a (1).jpg".
Proof.
  intros fs.
  destruct (C7_unique_paths fs "downloads" "a.jpg" (Downloader.File [xff; xd8]))
    as (Hfirst & Hsecond & _).
  - vm_compute. reflexivity.
  - vm_compute. reflexivity.
  - split; [apply Hfirst | apply Hsecond; lia].
Defined.

(** ** The retry loop of the downloader *)

Module RetryFacts.
Import Fetch Downloader Terms.

Section Loop.

Variable decodeURIComponent : string → option string.
Variable uriError : JS.error.
Variable pathnameOf : string → option string.
Variable nullBody : JS.error.
Variable net : network.

Abbreviation early := (failsBeforeWriting decodeURIComponent uriError).
Abbreviation attempt := (Downloader.attempt decodeURIComponent uriError pathnameOf nullBody net).
Abbreviation downloadFrom :=
  (Downloader.downloadFrom decodeURIComponent uriError pathnameOf nullBody net).
Abbreviation downloadOne :=
  (Downloader.downloadOne decodeURIComponent uriError pathnameOf nullBody net).

Lemma attempt_early (fuel : nat) (fs : gmap string node) (url : string)
      (headers : gmap string (option string)) (outDir : string) (n : Z) :
  early (net url headers n) = true →
  ∃ e, attempt fuel fs url headers outDir n = (fs, Threw e).
Proof.
  unfold failsBeforeWriting, Downloader.attempt.
  destruct (net url headers n) as [err|res]; [eauto|].
  destruct (negb (ok res)); [eauto|].
  destruct (negb (JS.startsWith _ _)); [eauto|].
  destruct (filenameFromDisposition _ _ _) as [err|named]; [eauto | discriminate].
Qed.

(** An attempt removes nothing. *)
Lemma attempt_keeps (fuel : nat) (fs fs' : gmap string node) (url : string)
      (headers : gmap string (option string)) (outDir : string) (n : Z) (a : attempted)
      (p : string) :
  attempt fuel fs url headers outDir n = (fs', a) →
  existsSync fs p = true → existsSync fs' p = true.
Proof.
  unfold Downloader.attempt. intros Hattempt Hp.
  repeat case_match; simplify_eq; try exact Hp;
    by apply UniqueFacts.existsSync_insert_mono.
Qed.

(** Nor does the whole loop. *)
Lemma downloadFrom_keeps (fuel : nat) (url : string) (headers : gmap string (option string))
      (outDir : string) (retries : JS.number) (p : string) (rounds : nat) :
  ∀ fs n lastErr did fs' r,
    downloadFrom fuel rounds fs url headers outDir retries n lastErr = Some (did, fs', r) →
    existsSync fs p = true → existsSync fs' p = true.
Proof.
  induction rounds as [|rounds IH]; intros fs n lastErr did fs' r;
    cbn [Downloader.downloadFrom];
    destruct (JS.leb (JS.of_Z n) retries); try discriminate;
    try (intros ? ?; by simplify_eq).
  destruct (attempt fuel fs url headers outDir (n + 1)) as [fs1 [outPath|err|]] eqn:Hattempt;
    try discriminate.
  - intros ? Hp. simplify_eq. by eapply attempt_keeps.
  - destruct (downloadFrom fuel rounds fs1 url headers outDir retries (n + 1) (Some err))
      as [[[did' fs2] r']|] eqn:Hrest; [|discriminate].
    intros ? Hp. simplify_eq. eapply IH; [exact Hrest|]. by eapply attempt_keeps.
Qed.

(** When every response fails before writing, the loop leaves the file
    system alone and reports a failure. *)
Lemma downloadFrom_untouched (fuel : nat) (url : string)
      (headers : gmap string (option string)) (outDir : string) (retries : JS.number)
      (rounds : nat) :
  (∀ n, early (net url headers n) = true) →
  ∀ fs n lastErr did fs' r,
    downloadFrom fuel rounds fs url headers outDir retries n lastErr = Some (did, fs', r) →
    fs' = fs ∧ ok_ r = false ∧ path r = None.
Proof.
  intros Hearly. induction rounds as [|rounds IH]; intros fs n lastErr did fs' r;
    cbn [Downloader.downloadFrom];
    destruct (JS.leb (JS.of_Z n) retries); try discriminate;
    try (intros ?; by simplify_eq).
  destruct (attempt_early fuel fs url headers outDir (n + 1) (Hearly _)) as [e ->].
  destruct (downloadFrom fuel rounds fs url headers outDir retries (n + 1) (Some e))
    as [[[did' fs2] r']|] eqn:Hrest; [|discriminate].
  intros ?. simplify_eq. by eapply IH.
Qed.

(** The loop is entered while the attempt counter is at most the floor of
    [retries]. *)
Lemma leb_floor (n : Z) (q : Q) : JS.leb (JS.of_Z n) (JS.Finite q) = true ↔ n ≤ Qfloor q.
Proof.
  unfold JS.of_Z. cbn [JS.leb]. rewrite Qle_bool_iff. split.
  - intros Hle. destruct (Z_le_gt_dec n (Qfloor q)) as [|Hgt]; [done|].
    exfalso. assert (Hn : (inject_Z (Qfloor q + 1) <= inject_Z n)%Q)
      by (rewrite <- Zle_Qle; lia).
    pose proof (Qlt_floor q) as Hlt.
    apply (Qlt_irrefl q). eapply Qlt_le_trans; [exact Hlt|]. by eapply Qle_trans.
  - intros Hle. eapply Qle_trans; [|apply Qfloor_le]. by rewrite <- Zle_Qle.
Qed.

(** With a finite number of retries and enough rounds the loop ends. *)
Lemma downloadFrom_ends (fuel : nat) (url : string) (headers : gmap string (option string))
      (outDir : string) (q : Q) :
  (∀ n, early (net url headers n) = true) →
  ∀ rounds fs n lastErr,
    (Z.to_nat (Qfloor q + 1 - n) ≤ rounds)%nat →
    ∃ did r, downloadFrom fuel rounds fs url headers outDir (JS.Finite q) n lastErr
             = Some (did, fs, r).
Proof.
  intros Hearly. induction rounds as [|rounds IH]; intros fs n lastErr Hrounds;
    cbn [Downloader.downloadFrom];
    destruct (JS.leb (JS.of_Z n) (JS.Finite q)) eqn:Hleb; eauto;
    apply leb_floor in Hleb; [lia|].
  destruct (attempt_early fuel fs url headers outDir (n + 1) (Hearly _)) as [e ->].
  destruct (IH fs (n + 1) (Some e)) as (did & r & ->); [lia|]. eauto.
Qed.

Lemma downloadOne_ends (fuel : nat) (fs : gmap string node) (url : string)
      (headers : gmap string (option string)) (outDir : string) (retries : JS.number) :
  (∀ n, early (net url headers n) = true) →
  retries ≠ JS.Infinity false →
  (attemptsOf retries ≤ fuel)%nat →
  ∃ did r, downloadOne fuel fs url headers outDir retries = Some (did, fs, r).
Proof.
  intros Hearly Hinf Hfuel. unfold Downloader.downloadOne.
  destruct retries as [|[|]|q]; try done.
  - destruct fuel; simpl; eauto.
  - destruct fuel; simpl; eauto.
  - apply downloadFrom_ends; [exact Hearly|]. simpl in Hfuel. lia.
Qed.



End Loop.

End RetryFacts.



(** C3, at a body that breaks off: the response is a 2xx image whose body
    stream errors after its first chunk, which is lost with it, on each of
    the three attempts.
    The download ends as a failure, and the files the attempts created at
    the paths [uniquePath] resolved are there afterwards; the first of
    them is [downloads/a.jpg], which did not exist before. *)
Lemma C3_failed_stream_leaves_file :
  let res :=
    {| Fetch.status := 200; Fetch.contentType := Some "image/jpeg";
       Fetch.contentLength := None;
       Fetch.contentDisposition := Some "attachment; filename=a.jpg";
       Fetch.body :=
         Some {| Fetch.chunks := [[xff; xd8]];
                 Fetch.failure :=
                   Some {| Fetch.reason := JS.Error "TypeError" "terminated";
                           Fetch.lost := 1 |} |} |} in
  let net : Downloader.network := λ _ _ _, Fetch.Resolved res in
  let fs : gmap string Downloader.node := {[ "downloads" := Downloader.Dir ]} in
  ∃ did fs' r,
    Downloader.downloadOne Some (JS.Error "URIError" "URI malformed") (λ _, Some "/img")
      (JS.Error "TypeError" "") net 4 fs "https://cdn.test/img" ∅ "downloads" (JS.of_Z 2)
    = Some (did, fs', r)
    ∧ Downloader.ok_ r = false
    ∧ Downloader.uniquePath 4 fs "downloads" "a.jpg" = Some "downloads/a.jpg"
    ∧ Downloader.existsSync fs "downloads/a.jpg" = false
    ∧ Downloader.existsSync fs' "downloads/a.jpg" = true
    ∧ fs' ≠ fs.
Proof.
  intros res net fs.
  pose (run := Downloader.downloadOne Some (JS.Error "URIError" "URI malformed")
                 (λ _, Some "/img") (JS.Error "TypeError" "") net 4 fs
                 "https://cdn.test/img" ∅ "downloads" (JS.of_Z 2)).
  assert (Hafter : (run ≫= λ x, Some (Downloader.existsSync x.1.2 "downloads/a.jpg",
                                      Downloader.ok_ x.2)) = Some (true, false))
    by (vm_compute; reflexivity).
  destruct run as [[[did fs'] r]|] eqn:Hrun; [|discriminate Hafter].
  exists did, fs', r. cbn in Hafter.
  split; [exact Hrun|].
  split; [congruence|]. split; [vm_compute; reflexivity|]. split; [vm_compute; reflexivity|].
  split; [congruence|].
  intros ->.
  assert (Hbefore : Downloader.existsSync fs "downloads/a.jpg" = true) by congruence.
  vm_compute in Hbefore. discriminate.
Qed.

(** C3, amended: when every attempt of a download fails before the output
    file is opened (the fetch is rejected, the status is not 2xx, the
    declared type is no image type, or the file name cannot be decoded),
    the download ends as a failure and the file system is as it was
    before.  For every [retries] other than plus infinity that many rounds
    as there are attempts are enough for the download to end. *)
Theorem C3_failure_before_writing_leaves_no_file
    (decodeURIComponent : string → option string) (uriError : JS.error)
    (pathnameOf : string → option string) (nullBody : JS.error)
    (net : Downloader.network) (fs : gmap string Downloader.node)
    (url : string) (headers : gmap string (option string)) (outDir : string)
    (retries : JS.number) :
  (∀ n, Terms.failsBeforeWriting decodeURIComponent uriError (net url headers n) = true) →
  (∀ fuel did fs' r,
     Downloader.downloadOne decodeURIComponent uriError pathnameOf nullBody net
       fuel fs url headers outDir retries = Some (did, fs', r) →
     fs' = fs ∧ Downloader.ok_ r = false ∧ Downloader.path r = None)
  ∧ (retries ≠ JS.Infinity false →
     ∀ fuel, (Terms.attemptsOf retries ≤ fuel)%nat →
       ∃ did r,
         Downloader.downloadOne decodeURIComponent uriError pathnameOf nullBody net
           fuel fs url headers outDir retries = Some (did, fs, r)
         ∧ Downloader.ok_ r = false).
Proof.
  intros Hearly.
  assert (Hsafe : ∀ fuel did fs' r,
     Downloader.downloadOne decodeURIComponent uriError pathnameOf nullBody net
       fuel fs url headers outDir retries = Some (did, fs', r) →
     fs' = fs ∧ Downloader.ok_ r = false ∧ Downloader.path r = None).
  { intros fuel did fs' r Hrun.
    eapply RetryFacts.downloadFrom_untouched; [exact Hearly | exact Hrun]. }
  split; [exact Hsafe|].
  intros Hinf fuel Hfuel.
  destruct (RetryFacts.downloadOne_ends decodeURIComponent uriError pathnameOf nullBody net
              fuel fs url headers outDir retries Hearly Hinf Hfuel) as (did & r & Hrun).
  exists did, r. split; [exact Hrun|]. by destruct (Hsafe fuel did fs r Hrun) as (_ & Hok & _).
Qed.

(** A URL that answers 404 every time. *)
Lemma C3_failure_before_writing_leaves_no_file_witness :
  let net : Downloader.network :=
    λ _ _ _, Fetch.Resolved
               {| Fetch.status := 404; Fetch.contentType := Some "text/html";
                  Fetch.contentLength := None; Fetch.contentDisposition := None;
                  Fetch.body := None |} in
  let fs : gmap string Downloader.node := {[ "downloads" := Downloader.Dir ]} in
  ∃ did r,
    Downloader.downloadOne Some (JS.Error "URIError" "URI malformed") (λ _, Some "/img/1.jpg")
      (JS.Error "TypeError" "") net 3 fs "https://cdn.test/img/1.jpg" ∅ "downloads" (JS.of_Z 2)
    = Some (did, fs, r)
    ∧ Downloader.ok_ r = false.
Proof.
  intros net fs.
  destruct (C3_failure_before_writing_leaves_no_file Some (JS.Error "URIError" "URI malformed")
              (λ _, Some "/img/1.jpg") (JS.Error "TypeError" "") net fs
              "https://cdn.test/img/1.jpg" ∅ "downloads" (JS.of_Z 2)) as [_ Hends].
  - intros n. reflexivity.
  - apply Hends; [discriminate | vm_compute; lia].
Defined.


(** * Further properties of the code *)

(** ** The relay: timeout, fetch and replies *)

(** X1: the timeout of the upstream fetch, for a parameter that can be
    used.  Without a [timeout] parameter, or with an empty one, it is
    15000 ms.  For a parameter that reads as a finite number it is that
    number brought into the interval from 1000 to 120000: the number
    itself inside the interval, 1000 below it and 120000 above it.
    [Infinity] gives 120000 and [-Infinity] gives 1000. *)
Theorem X1_timeout_of_usable_parameter (sp : URLSearchParams.t) :
  (URLSearchParams.get sp "timeout" = None ∨ URLSearchParams.get sp "timeout" = Some "" →
   Relay.timeoutOf sp = JS.of_Z 15000)
  ∧ (∀ s q, URLSearchParams.get sp "timeout" = Some s → s ≠ "" →
            JS.StringToNumber s = JS.Finite q →
            ∃ t, Relay.timeoutOf sp = JS.Finite t
                 ∧ (inject_Z 1000 <= t <= inject_Z 120000)%Q
                 ∧ ((inject_Z 1000 <= q <= inject_Z 120000)%Q → (t == q)%Q)
                 ∧ ((q <= inject_Z 1000)%Q → t = inject_Z 1000)
                 ∧ ((inject_Z 120000 <= q)%Q → (t == inject_Z 120000)%Q))
  ∧ (∀ s negative, URLSearchParams.get sp "timeout" = Some s → s ≠ "" →
                   JS.StringToNumber s = JS.Infinity negative →
                   Relay.timeoutOf sp = JS.of_Z (if negative then 1000 else 120000)).
Proof.
  split; [apply TimeoutFacts.timeout_default|]. split.
  - intros s q Hget Hne Hnum. exists (Terms.clamp q).
    split; [by apply (TimeoutFacts.timeout_finite sp s q)|].
    split; [apply TimeoutFacts.clamp_bounds|].
    unfold Terms.clamp.
    destruct (Qle_bool q (inject_Z 1000)) eqn:Hlo;
      [apply Qle_bool_iff in Hlo | apply not_true_iff_false in Hlo; rewrite Qle_bool_iff in Hlo];
      [|destruct (Qle_bool q (inject_Z 120000)) eqn:Hhi;
        [apply Qle_bool_iff in Hhi
        | apply not_true_iff_false in Hhi; rewrite Qle_bool_iff in Hhi]].
    + split; [intros [Hge _]; by apply Qle_antisym|]. split; [done|].
      intros Hge. exfalso.
      assert (Hbad : (inject_Z 120000 <= inject_Z 1000)%Q) by (by eapply Qle_trans).
      rewrite <- Zle_Qle in Hbad. lia.
    + split; [intros _; reflexivity|]. split; [intros Hle; contradiction|].
      intros Hge. by apply Qle_antisym.
    + split; [intros [_ Hle]; contradiction|]. split; [|intros _; reflexivity].
      intros Hle. exfalso. apply Hhi. eapply Qle_trans; [exact Hle|].
      rewrite <- Zle_Qle. lia.
  - intros s negative Hget Hne Hnum. unfold Relay.timeoutOf, JS.or. rewrite Hget.
    cbn [JS.nullable]. rewrite (truthy_Str _ Hne). cbn [JS.Number]. rewrite Hnum.
    by destruct negative.
Qed.

(** [timeout=500] is raised to 1000. *)
Lemma X1_timeout_of_usable_parameter_witness :
  ∃ t, Relay.timeoutOf [("url", "https://cdn.test/a.jpg"); ("timeout", "500")] = JS.Finite t
       ∧ t = inject_Z 1000.
Proof.
  destruct (X1_timeout_of_usable_parameter
              [("url", "https://cdn.test/a.jpg"); ("timeout", "500")]) as (_ & Hfinite & _).
  destruct (Hfinite "500" (inject_Z 500)) as (t & Ht & _ & _ & Hlow & _);
    [reflexivity | discriminate | reflexivity |].
  exists t. split; [exact Ht|]. apply Hlow. vm_compute. discriminate.
Defined.

(** X2: the relay makes one upstream attempt per request.  A request whose
    [url] is accepted leads to exactly one fetch, of that very URL, with
    the headers [parseHeadersFromQuery] builds and the timeout computed
    from the parameters; no request leads to more than one fetch.  This
    holds for both relay files. *)
Theorem X2_one_fetch_per_request
    (decodeURIComponent : string → option string) (nullBody : JS.error)
    (net : Relay.network) (method : string) (sp : URLSearchParams.t) :
  let fetches := filter (λ e, Relay.isFetch e = true) in
  let minimal := fst (Server.proxyImage decodeURIComponent nullBody net sp) in
  let sniffing := fst (Sniffing.proxyImage decodeURIComponent nullBody net method sp) in
  (∀ url, URLSearchParams.get sp "url" = Some url → Relay.isHttpUrl url = true →
          fetches minimal
          = [Relay.Fetch url (Server.parseHeadersFromQuery sp) (Relay.timeoutOf sp)]
          ∧ fetches sniffing
            = [Relay.Fetch url (Sniffing.parseHeadersFromQuery sp) (Relay.timeoutOf sp)])
  ∧ (length (fetches minimal) ≤ 1)%nat
  ∧ (length (fetches sniffing) ≤ 1)%nat.
Proof.
  intros fetches minimal sniffing.
  assert (Hminimal : ∀ url, Relay.orElse (URLSearchParams.get sp "url") None = Some url →
                            Relay.isHttpUrl url = true →
            fetches minimal
            = [Relay.Fetch url (Server.parseHeadersFromQuery sp) (Relay.timeoutOf sp)]).
  { intros url Hurl Hhttp. subst minimal fetches. unfold Server.proxyImage.
    rewrite Hurl, Hhttp. cbn [negb].
    destruct (net _ _ _) as [err|resp]; [reflexivity|].
    repeat case_if; reflexivity. }
  assert (Hsniffing : ∀ url, Relay.orElse (URLSearchParams.get sp "url") None = Some url →
                             Relay.isHttpUrl url = true →
            fetches sniffing
            = [Relay.Fetch url (Sniffing.parseHeadersFromQuery sp) (Relay.timeoutOf sp)]).
  { intros url Hurl Hhttp. subst sniffing fetches. unfold Sniffing.proxyImage.
    rewrite Hurl, Hhttp. cbn [negb].
    destruct (net _ _ _) as [err|resp]; [reflexivity|].
    case_if; [reflexivity|].
    destruct (Sniffing.readFirst nullBody resp) as [e|firstChunk rest failure]; [reflexivity|].
    case_if; [reflexivity|].
    destruct (Relay.refusedHead _); [reflexivity|].
    destruct failure; reflexivity. }
  split.
  - intros url Hget Hhttp. pose proof (GateFacts.accepted_url sp url Hget Hhttp) as Hurl.
    split; [by apply Hminimal | by apply Hsniffing].
  - destruct (Relay.orElse (URLSearchParams.get sp "url") None) as [url|] eqn:Hurl.
    + destruct (Relay.isHttpUrl url) eqn:Hhttp.
      * rewrite (Hminimal url eq_refl Hhttp), (Hsniffing url eq_refl Hhttp). simpl. lia.
      * subst minimal sniffing fetches. unfold Server.proxyImage, Sniffing.proxyImage.
        rewrite Hurl, Hhttp. simpl. lia.
    + subst minimal sniffing fetches. unfold Server.proxyImage, Sniffing.proxyImage.
      rewrite Hurl. simpl. lia.
Qed.

(** A plain GET of an image address. *)
Lemma X2_one_fetch_per_request_witness :
  filter (λ e, Relay.isFetch e = true)
    (fst (Server.proxyImage Some (JS.Error "TypeError" "")
            (λ _ _ _, Fetch.Rejected (JS.Error "TypeError" "fetch failed"))
            [("url", "https://cdn.test/a.jpg")]))
  = [Relay.Fetch "https://cdn.test/a.jpg" ∅ (JS.of_Z 15000)].
Proof.
  destruct (X2_one_fetch_per_request Some (JS.Error "TypeError" "")
              (λ _ _ _, Fetch.Rejected (JS.Error "TypeError" "fetch failed")) "GET"
              [("url", "https://cdn.test/a.jpg")]) as [Hone _].
  destruct (Hone "https://cdn.test/a.jpg" eq_refl eq_refl) as [Hminimal _].
  exact Hminimal.
Defined.

(** X3: upstream failures are answered with 502, whatever the other
    parameters are.  When the fetch is rejected (transport error, abort by
    the timeout) the reply is 502 [fetch error] with the text of the error
    as [detail]; when the upstream status is outside 200..299 the reply is
    502 [upstream HTTP <status>]: the upstream status is not passed on as
    the status of the reply.  This holds for both relay files. *)
Theorem X3_upstream_failure_is_502
    (decodeURIComponent : string → option string) (nullBody : JS.error)
    (net : Relay.network) (method : string) (sp : URLSearchParams.t) (url : string) :
  URLSearchParams.get sp "url" = Some url →
  Relay.isHttpUrl url = true →
  (∀ err,
     net url (Server.parseHeadersFromQuery sp) (Relay.timeoutOf sp) = Fetch.Rejected err →
     snd (Server.proxyImage decodeURIComponent nullBody net sp)
     = Some (Relay.bad 502 "fetch error" [("detail", Relay.JStr (JS.error_toString err))]))
  ∧ (∀ resp,
       net url (Server.parseHeadersFromQuery sp) (Relay.timeoutOf sp) = Fetch.Resolved resp →
       Fetch.ok resp = false →
       snd (Server.proxyImage decodeURIComponent nullBody net sp)
       = Some (Relay.bad 502 ("upstream HTTP " +:+ pretty (Fetch.status resp)) []))
  ∧ (∀ err,
       net url (Sniffing.parseHeadersFromQuery sp) (Relay.timeoutOf sp) = Fetch.Rejected err →
       snd (Sniffing.proxyImage decodeURIComponent nullBody net method sp)
       = Relay.bad 502 "fetch error" [("detail", Relay.JStr (JS.error_toString err))])
  ∧ (∀ resp,
       net url (Sniffing.parseHeadersFromQuery sp) (Relay.timeoutOf sp) = Fetch.Resolved resp →
       Fetch.ok resp = false →
       snd (Sniffing.proxyImage decodeURIComponent nullBody net method sp)
       = Relay.bad 502 ("upstream HTTP " +:+ pretty (Fetch.status resp)) []).
Proof.
  intros Hget Hhttp. pose proof (GateFacts.accepted_url sp url Hget Hhttp) as Hurl.
  repeat split.
  - intros err Hnet. unfold Server.proxyImage. by rewrite Hurl, Hhttp, Hnet.
  - intros resp Hnet Hok. unfold Server.proxyImage. by rewrite Hurl, Hhttp, Hnet, Hok.
  - intros err Hnet. unfold Sniffing.proxyImage. by rewrite Hurl, Hhttp, Hnet.
  - intros resp Hnet Hok. unfold Sniffing.proxyImage. by rewrite Hurl, Hhttp, Hnet, Hok.
Qed.

(** An upstream 404. *)
Lemma X3_upstream_failure_is_502_witness :
  let resp :=
    {| Fetch.status := 404; Fetch.contentType := Some "text/html";
       Fetch.contentLength := None; Fetch.contentDisposition := None;
       Fetch.body := None |} in
  snd (Sniffing.proxyImage Some (JS.Error "TypeError" "") (λ _ _ _, Fetch.Resolved resp) "GET"
         [("url", "https://cdn.test/a.jpg"); ("allowAny", "1")])
  = Relay.bad 502 "upstream HTTP 404" [].
Proof.
  intros resp.
  destruct (X3_upstream_failure_is_502 Some (JS.Error "TypeError" "")
              (λ _ _ _, Fetch.Resolved resp) "GET"
              [("url", "https://cdn.test/a.jpg"); ("allowAny", "1")]
              "https://cdn.test/a.jpg" eq_refl eq_refl) as (_ & _ & _ & Hstatus).
  apply (Hstatus resp); reflexivity.
Defined.

Module ReplyFacts.
Import Relay Notions.

Lemma safe_replace (s : string) : safe (JS.replace_unsafe s) = true.
Proof.
  induction s as [|c r IH]; [reflexivity|]. cbn [JS.replace_unsafe safe].
  rewrite IH, andb_true_r. by destruct (JS.is_safe_char c) eqn:Hc.
Qed.

Lemma replace_safe (s : string) : safe s = true → JS.replace_unsafe s = s.
Proof.
  induction s as [|c r IH]; [reflexivity|]. cbn [JS.replace_unsafe safe].
  intros [Hc Hr]%andb_true_iff. by rewrite Hc, IH.
Qed.

Lemma replace_nonempty (s : string) : s ≠ "" → JS.replace_unsafe s ≠ "".
Proof. by destruct s. Qed.

Lemma replace_length (s : string) : String.length (JS.replace_unsafe s) = String.length s.
Proof. induction s as [|c r IH]; [reflexivity|]. simpl. by rewrite IH. Qed.

Lemma orElse_nonempty (a : option string) : default "file" (orElse a (Some "file")) ≠ "".
Proof.
  destruct a as [s|]; simpl; [|done].
  destruct (String.eqb_spec s ""); simpl; [done|done].
Qed.

Lemma sanitizeFilename_nonempty (name : option string) : sanitizeFilename name ≠ "".
Proof. apply replace_nonempty, orElse_nonempty. Qed.

Lemma sniffed_image (b : list byte) (t : string) :
  Sniffing.sniffImageType b = Some t → JS.startsWith t "image/" = true.
Proof.
  unfold Sniffing.sniffImageType. repeat case_if; intros ?; by simplify_eq.
Qed.

(** The chunks that arrive are the first of the chunks sent, and all of
    them when the stream does not fail. *)
Lemma arriving_prefix (st : stream) : arriving st `prefix_of` chunks st.
Proof.
  unfold arriving. destruct (failure st) as [b|]; [|done].
  exists (drop (length (chunks st) - lost b) (chunks st)). by rewrite take_drop.
Qed.

Lemma arriving_all (st : stream) : failure st = None → arriving st = chunks st.
Proof. unfold arriving. by intros ->. Qed.

Lemma arriving_kept (st : stream) (b : breakdown) :
  failure st = Some b → lost b = 0%nat → arriving st = chunks st.
Proof.
  unfold arriving. intros -> ->. rewrite Nat.sub_0_r. apply firstn_all.
Qed.

(** The generator of the relay with sniffing yields the chunks that
    arrived, but for a first chunk that is empty. *)
Lemma yielded_arriving (st : stream) (firstChunk : list byte) (rest : list (list byte)) :
  arriving st = firstChunk :: rest ∨ (arriving st = [] ∧ firstChunk = [] ∧ rest = []) →
  Sniffing.yielded firstChunk rest = arriving st
  ∨ [] :: Sniffing.yielded firstChunk rest = arriving st.
Proof.
  unfold Sniffing.yielded.
  intros [-> | (-> & -> & ->)]; [|by left].
  destruct firstChunk; [by right | by left].
Qed.

Section Replies.

Variable decodeURIComponent : string → option string.
Variable nullBody : JS.error.
Variable net : network.
Variable method : string.

(** What is behind a 200 of the minimal relay. *)
Lemma server_200 (sp : URLSearchParams.t) (reply : reply) :
  snd (Server.proxyImage decodeURIComponent nullBody net sp) = Some reply →
  code reply = 200 →
  ∃ url resp,
    orElse (URLSearchParams.get sp "url") None = Some url
    ∧ isHttpUrl url = true
    ∧ net url (Server.parseHeadersFromQuery sp) (timeoutOf sp) = Resolved resp
    ∧ ok resp = true
    ∧ (allowAnyOf sp = true
       ∨ JS.startsWith (JS.toLowerCase (default "" (contentType resp))) "image/" = true)
    ∧ Server.proxyImage decodeURIComponent nullBody net sp
      = ([Fetch url (Server.parseHeadersFromQuery sp) (timeoutOf sp)], Some reply)
    ∧ reply
      = {| code := 200;
           headers := headersOut decodeURIComponent sp resp
                        (JS.toLowerCase (default "" (contentType resp)));
           content := match body resp with
                      | Some st => piped (arriving st) (broken st)
                      | None => Streamed [] (Destroyed nullBody)
                      end |}.
Proof.
  unfold Server.proxyImage.
  destruct (orElse _ _) as [url|]; [|cbn [snd]; intros [= <-]; discriminate].
  destruct (isHttpUrl url) eqn:Hhttp; [|cbn [snd]; intros [= <-]; discriminate]. cbn [negb].
  destruct (net _ _ _) as [err|resp] eqn:Hnet; [cbn [snd]; intros [= <-]; discriminate|].
  destruct (ok resp) eqn:Hok; [|cbn [snd]; intros [= <-]; discriminate]. cbn [negb].
  destruct (allowAnyOf sp) eqn:Hany; cbn [negb andb].
  - destruct (refusedHead _); [discriminate|].
    intros [= <-] _. exists url, resp. eauto 10.
  - destruct (JS.startsWith _ _) eqn:Himage; [|cbn [snd]; intros [= <-]; discriminate]. cbn [negb].
    destruct (refusedHead _); [discriminate|].
    intros [= <-] _. exists url, resp. eauto 10.
Qed.

(** What is behind a 200 of the relay with sniffing. *)
Lemma sniffing_200 (sp : URLSearchParams.t) :
  code (snd (Sniffing.proxyImage decodeURIComponent nullBody net method sp)) = 200 →
  ∃ url resp firstChunk rest failure,
    orElse (URLSearchParams.get sp "url") None = Some url
    ∧ isHttpUrl url = true
    ∧ net url (Sniffing.parseHeadersFromQuery sp) (timeoutOf sp) = Resolved resp
    ∧ ok resp = true
    ∧ Sniffing.readFirst nullBody resp = Sniffing.Got firstChunk rest failure
    ∧ refusedHead
        (headersOut decodeURIComponent sp resp
           (Sniffing.resolveType (JS.toLowerCase (default "" (contentType resp)))
              (Sniffing.sniffImageType firstChunk))) = None
    ∧ snd (Sniffing.proxyImage decodeURIComponent nullBody net method sp)
      = {| code := 200;
           headers := headersOut decodeURIComponent sp resp
                        (Sniffing.resolveType (JS.toLowerCase (default "" (contentType resp)))
                           (Sniffing.sniffImageType firstChunk));
           content := piped (Sniffing.yielded firstChunk rest) failure |}.
Proof.
  unfold Sniffing.proxyImage.
  destruct (orElse _ _) as [url|]; [|discriminate].
  destruct (isHttpUrl url) eqn:Hhttp; [|discriminate]. cbn [negb].
  destruct (net _ _ _) as [err|resp] eqn:Hnet; [discriminate|].
  destruct (ok resp) eqn:Hok; [|discriminate]. cbn [negb].
  destruct (Sniffing.readFirst nullBody resp) as [e|firstChunk rest failure] eqn:Hread;
    [discriminate|].
  case_if; [discriminate|].
  destruct (refusedHead _) eqn:Hhead; [discriminate|].
  intros _. exists url, resp, firstChunk, rest, failure. eauto 10.
Qed.

(** What [readFirst] has taken from the body. *)
Lemma readFirst_got (resp : response) (firstChunk : list byte) (rest : list (list byte))
      (failure : option JS.error) :
  Sniffing.readFirst nullBody resp = Sniffing.Got firstChunk rest failure →
  ∃ st, body resp = Some st
        ∧ broken st = failure
        ∧ concat (arriving st) = firstChunk ++ concat rest
        ∧ concat (Sniffing.yielded firstChunk rest) = concat (arriving st)
        ∧ (arriving st = firstChunk :: rest
           ∨ (arriving st = [] ∧ firstChunk = [] ∧ rest = [])).
Proof.
  unfold Sniffing.readFirst, Sniffing.yielded.
  destruct (body resp) as [st|]; [|discriminate].
  destruct (arriving st) as [|c cs] eqn:Hchunks.
  - destruct (broken st) eqn:Hfailure; [discriminate|].
    intros ?. simplify_eq. exists st. rewrite Hchunks. repeat split; auto.
  - intros ?. simplify_eq. exists st. rewrite Hchunks. repeat split; auto.
    destruct firstChunk; reflexivity.
Qed.

End Replies.

End ReplyFacts.

(** X4: the type gate of the relay and what becomes of a request that
    passes it.  For an accepted URL and a 2xx upstream response, the
    minimal relay lets the response pass when [allowAny] is set or the
    declared content type, in lower case, starts with [image/], and
    answers 415 otherwise.  The relay with sniffing, once the first chunk
    is read, lets it pass when [allowAny] is set, the declared type is an
    image type or the first chunk carries one of the four signatures, and
    answers 415 otherwise.  A response that passes is answered 200 when
    the head of the reply can be sent; its label is the declared type in
    lower case when that is an image type, else (sniffing relay) the
    sniffed type, else the declared type if there is one, else
    [application/octet-stream].  When the head cannot be sent, because
    the label, the [contentDisposition] parameter or the upstream content
    length holds a character that [writeHead] refuses, the relay with
    sniffing answers 500 [stream setup error] and the minimal relay does
    not answer at all. *)
Theorem X4_type_gate
    (decodeURIComponent : string → option string) (nullBody : JS.error)
    (net : Relay.network) (method : string) (sp : URLSearchParams.t) (url : string)
    (resp : Fetch.response) :
  URLSearchParams.get sp "url" = Some url →
  Relay.isHttpUrl url = true →
  Fetch.ok resp = true →
  let declared := JS.toLowerCase (default "" (Fetch.contentType resp)) in
  let fallback := if String.eqb declared "" then "application/octet-stream" else declared in
  (net url (Server.parseHeadersFromQuery sp) (Relay.timeoutOf sp) = Fetch.Resolved resp →
   let answer := snd (Server.proxyImage decodeURIComponent nullBody net sp) in
   let passes := Relay.allowAnyOf sp || JS.startsWith declared "image/" in
   (passes = false →
    answer = Some (Relay.bad 415 ("unsupported content-type: " +:+ declared) []))
   ∧ (passes = true → Terms.sendable sp resp declared = true →
      ∃ reply, answer = Some reply
               ∧ Relay.code reply = 200
               ∧ Relay.headers reply !! "content-type" = Some fallback)
   ∧ (passes = true → Terms.sendable sp resp declared = false → answer = None))
  ∧ (∀ firstChunk rest failure,
       net url (Sniffing.parseHeadersFromQuery sp) (Relay.timeoutOf sp)
       = Fetch.Resolved resp →
       Sniffing.readFirst nullBody resp = Sniffing.Got firstChunk rest failure →
       let reply := snd (Sniffing.proxyImage decodeURIComponent nullBody net method sp) in
       let passes :=
         Relay.allowAnyOf sp || JS.startsWith declared "image/"
         || Notions.found (Sniffing.sniffImageType firstChunk) in
       let label :=
         if JS.startsWith declared "image/" then declared
         else default declared (Sniffing.sniffImageType firstChunk) in
       Relay.code reply
       = (if passes then if Terms.sendable sp resp label then 200 else 500 else 415)
       ∧ (Relay.code reply = 200 →
          Relay.headers reply !! "content-type"
          = Some (if JS.startsWith declared "image/" then declared
                  else match Sniffing.sniffImageType firstChunk with
                       | Some t => t
                       | None => fallback
                       end))
       ∧ (Relay.code reply = 415 →
          reply = Relay.bad 415 ("unsupported content-type: "
                                 +:+ (if String.eqb declared "" then "unknown" else declared)) [])
       ∧ (Relay.code reply = 500 →
          ∃ name,
            name ∈ ["content-type"; "content-disposition"; "content-length"]
            ∧ reply = Relay.bad 500 "stream setup error"
                        [("detail", Relay.JStr (JS.error_toString (Relay.invalidChar name)))])).
Proof.
  intros Hget Hhttp Hok declared fallback.
  pose proof (GateFacts.accepted_url sp url Hget Hhttp) as Hurl.
  split.
  - intros Hnet answer passes. subst answer passes. unfold Server.proxyImage.
    rewrite Hurl, Hhttp, Hnet, Hok. cbn [negb]. fold declared.
    rewrite <- negb_orb.
    destruct (Relay.allowAnyOf sp || JS.startsWith declared "image/"); cbn [negb].
    + split; [discriminate|]. split.
      * intros _ Hsend. rewrite (HeadFacts.accepted _ _ _ _ Hsend).
        eexists. split; [reflexivity|]. split; [reflexivity|].
        apply TypeFacts.headersOut_content_type.
      * intros _ Hbad.
        by destruct (HeadFacts.refused decodeURIComponent _ _ _ Hbad) as [name ->].
    + split; [reflexivity|]. split; discriminate.
  - intros firstChunk rest failure Hnet Hread reply passes label. subst reply passes label.
    unfold Sniffing.proxyImage.
    rewrite Hurl, Hhttp, Hnet, Hok, Hread. cbn [negb]. fold declared.
    set (type := Sniffing.resolveType declared (Sniffing.sniffImageType firstChunk)).
    assert (Htype : type = if JS.startsWith declared "image/" then declared
                           else default declared (Sniffing.sniffImageType firstChunk)).
    { subst type. destruct (JS.startsWith declared "image/") eqn:Himage;
        [by apply TypeFacts.resolveType_declared|].
      unfold Sniffing.resolveType. rewrite Himage. cbn [negb]. rewrite orb_true_r.
      destruct (Sniffing.sniffImageType firstChunk) as [t|] eqn:Hsniff; [|reflexivity].
      pose proof (TypeFacts.image_nonempty t (ReplyFacts.sniffed_image _ _ Hsniff)).
      by destruct (String.eqb_spec t ""). }
    assert (Hgate : negb (Relay.allowAnyOf sp)
                    && (String.eqb type "" || negb (JS.startsWith type "image/"))
                    = negb (Relay.allowAnyOf sp || JS.startsWith declared "image/"
                            || Notions.found (Sniffing.sniffImageType firstChunk))).
    { rewrite Htype. destruct (JS.startsWith declared "image/") eqn:Himage.
      - rewrite (TypeFacts.passes_gate _ declared Himage). by rewrite orb_true_r.
      - destruct (Sniffing.sniffImageType firstChunk) as [t|] eqn:Hsniff; cbn [default from_option id].
        + rewrite (TypeFacts.passes_gate _ t (ReplyFacts.sniffed_image _ _ Hsniff)).
          by rewrite !orb_true_r.
        + rewrite Himage. cbn [negb Notions.found].
          by destruct (Relay.allowAnyOf sp), (String.eqb declared ""). }
    rewrite Hgate. rewrite <- Htype.
    destruct (Relay.allowAnyOf sp || JS.startsWith declared "image/"
              || Notions.found (Sniffing.sniffImageType firstChunk)) eqn:Hpasses; cbn [negb].
    + destruct (Terms.sendable sp resp type) eqn:Hsend.
      * rewrite (HeadFacts.accepted _ _ _ _ Hsend).
        cbn [snd Relay.code Relay.headers].
        split; [reflexivity|]. split; [|split; discriminate]. intros _.
        rewrite TypeFacts.headersOut_content_type, Htype.
        destruct (JS.startsWith declared "image/") eqn:Himage; cbv iota.
        { pose proof (TypeFacts.image_nonempty declared Himage) as Hne.
          destruct (String.eqb_spec declared "") as [Hempty|_]; [contradiction | reflexivity]. }
        destruct (Sniffing.sniffImageType firstChunk) as [t|] eqn:Hsniff; cbn [default from_option id].
        { pose proof (TypeFacts.image_nonempty t (ReplyFacts.sniffed_image _ _ Hsniff)) as Hne.
          destruct (String.eqb_spec t "") as [Hempty|_]; [contradiction | reflexivity]. }
        reflexivity.
      * destruct (HeadFacts.refused_named decodeURIComponent _ _ _ Hsend)
          as (name & Hname & ->).
        cbn [snd Relay.code Relay.bad Relay.json].
        split; [reflexivity|]. split; [discriminate|]. split; [discriminate|].
        intros _. exists name. by split.
    + cbn [snd Relay.code Relay.bad Relay.json].
      split; [reflexivity|]. split; [discriminate|]. split; [|discriminate].
      intros _. reflexivity.
Qed.

(** A page of HTML is stopped by the gate, and let through with
    [allowAny=1]. *)
Lemma X4_type_gate_witness :
  let resp :=
    {| Fetch.status := 200; Fetch.contentType := Some "text/html; charset=utf-8";
       Fetch.contentLength := None; Fetch.contentDisposition := None;
       Fetch.body := Some {| Fetch.chunks := [[x3c; x68; x74; x6d; x6c; x3e]];
                             Fetch.failure := None |} |} in
  let net : Relay.network := λ _ _ _, Fetch.Resolved resp in
  Relay.code <$> snd (Server.proxyImage Some (JS.Error "TypeError" "") net
                        [("url", "https://cdn.test/a")]) = Some 415
  ∧ Relay.code (snd (Sniffing.proxyImage Some (JS.Error "TypeError" "") net "GET"
                       [("url", "https://cdn.test/a"); ("allowAny", "1")])) = 200.
Proof.
  intros resp net. split.
  - destruct (X4_type_gate Some (JS.Error "TypeError" "") net "GET"
                [("url", "https://cdn.test/a")] "https://cdn.test/a" resp
                eq_refl eq_refl eq_refl) as [Hminimal _].
    destruct (Hminimal eq_refl) as [Hcode _]. by rewrite (Hcode eq_refl).
  - destruct (X4_type_gate Some (JS.Error "TypeError" "") net "GET"
                [("url", "https://cdn.test/a"); ("allowAny", "1")] "https://cdn.test/a" resp
                eq_refl eq_refl eq_refl) as [_ Hsniffing].
    destruct (Hsniffing [x3c; x68; x74; x6d; x6c; x3e] [] None eq_refl eq_refl) as [Hcode _].
    exact Hcode.
Defined.

(** X5: the headers of a relayed response.  Whenever either relay
    answers 200, the reply carries [cache-control: no-store] and a
    [content-disposition] made of the [contentDisposition] parameter
    ([inline] when that is missing or empty) and a file name in quotes.
    The file name is never empty and holds nothing but letters, digits,
    dots, underscores and hyphens, whatever the parameters and the
    upstream headers say; a non-empty [filename] parameter takes
    precedence over the upstream [Content-Disposition].  The upstream
    [content-length] is passed on when it is there and not empty, and
    the reply has no header besides these and [content-type]. *)
Theorem X5_headers_of_a_relayed_response
    (decodeURIComponent : string → option string) (nullBody : JS.error)
    (net : Relay.network) (method : string) (sp : URLSearchParams.t) (url : string)
    (resp : Fetch.response) (reply : Relay.reply) :
  URLSearchParams.get sp "url" = Some url →
  Relay.isHttpUrl url = true →
  (net url (Server.parseHeadersFromQuery sp) (Relay.timeoutOf sp) = Fetch.Resolved resp
   ∧ Some reply = snd (Server.proxyImage decodeURIComponent nullBody net sp))
  ∨ (net url (Sniffing.parseHeadersFromQuery sp) (Relay.timeoutOf sp) = Fetch.Resolved resp
     ∧ reply = snd (Sniffing.proxyImage decodeURIComponent nullBody net method sp)) →
  Relay.code reply = 200 →
  ∃ name,
    Relay.headers reply !! "content-disposition"
    = Some (Relay.dispositionOf sp +:+ "; filename="
            +:+ String Disposition.quote (name +:+ String Disposition.quote ""))
    ∧ name ≠ ""
    ∧ Notions.safe name = true
    ∧ (∀ f, URLSearchParams.get sp "filename" = Some f → f ≠ "" → name = JS.replace_unsafe f)
    ∧ Relay.headers reply !! "cache-control" = Some "no-store"
    ∧ Relay.headers reply !! "content-length"
      = match Fetch.contentLength resp with
        | Some clen => if String.eqb clen "" then None else Some clen
        | None => None
        end
    ∧ (∀ k, is_Some (Relay.headers reply !! k) →
            k ∈ ["content-type"; "cache-control"; "content-disposition"; "content-length"]).
Proof.
  intros Hget Hhttp Hreply Hcode.
  pose proof (GateFacts.accepted_url sp url Hget Hhttp) as Hurl.
  assert (Hheaders : ∃ type, Relay.headers reply
                             = Relay.headersOut decodeURIComponent sp resp type).
  { destruct Hreply as [[Hnet Hsent]|[Hnet ->]].
    - destruct (ReplyFacts.server_200 _ _ _ _ _ (eq_sym Hsent) Hcode)
        as (url' & resp' & Hurl' & _ & Hnet' & _ & _ & _ & ->).
      rewrite Hurl in Hurl'. simplify_eq. rewrite Hnet in Hnet'. simplify_eq. eauto.
    - destruct (ReplyFacts.sniffing_200 _ _ _ _ _ Hcode)
        as (url' & resp' & c & rest & f & Hurl' & _ & Hnet' & _ & _ & _ & ->).
      rewrite Hurl in Hurl'. simplify_eq. rewrite Hnet in Hnet'. simplify_eq. eauto. }
  destruct Hheaders as [type ->].
  set (name := Relay.sanitizeFilename
                 (Relay.orElse (URLSearchParams.get sp "filename")
                    (Relay.filenameFromDisposition decodeURIComponent
                       (Fetch.contentDisposition resp)))).
  assert (Hname : name ≠ "") by apply ReplyFacts.sanitizeFilename_nonempty.
  exists name. unfold Relay.headersOut. fold name.
  destruct (String.eqb_spec name "") as [|_]; [done|].
  repeat split.
  - destruct (Fetch.contentLength resp) as [clen|]; [destruct (String.eqb clen "")|];
      by simplify_map_eq.
  - exact Hname.
  - apply ReplyFacts.safe_replace.
  - intros f Hf Hne. subst name. rewrite Hf.
    apply String.eqb_neq in Hne. unfold Relay.sanitizeFilename.
    cbn [Relay.orElse]. rewrite Hne. cbn [Relay.orElse]. by rewrite Hne.
  - destruct (Fetch.contentLength resp) as [clen|]; [destruct (String.eqb clen "")|];
      by simplify_map_eq.
  - destruct (Fetch.contentLength resp) as [clen|]; [destruct (String.eqb clen "")|];
      by simplify_map_eq.
  - intros k [v Hk]. rewrite !elem_of_cons.
    destruct (Fetch.contentLength resp) as [clen|]; [destruct (String.eqb clen "")|];
      repeat (apply lookup_insert_Some in Hk as [[<- _]|[_ Hk]]; [by auto|]);
      apply lookup_singleton_Some in Hk as [<- _]; by auto.
Qed.

(** A file name with a path and a space in it. *)
Lemma X5_headers_of_a_relayed_response_witness :
  let resp :=
    {| Fetch.status := 200; Fetch.contentType := Some "image/png";
       Fetch.contentLength := Some "4"; Fetch.contentDisposition := None;
       Fetch.body := Some {| Fetch.chunks := [[x89; x50; x4e; x47]];
                             Fetch.failure := None |} |} in
  let net : Relay.network := λ _ _ _, Fetch.Resolved resp in
  let sp := [("url", "https://cdn.test/a"); ("filename", "../my photo.png")] in
  ∃ reply name,
    snd (Server.proxyImage Some (JS.Error "TypeError" "") net sp) = Some reply
    ∧ Relay.headers reply !! "content-disposition"
      = Some ("inline; filename="
              +:+ String Disposition.quote (name +:+ String Disposition.quote ""))
    ∧ name = ".._my_photo.png".
Proof.
  intros resp net sp.
  destruct (snd (Server.proxyImage Some (JS.Error "TypeError" "") net sp))
    as [reply|] eqn:Hsent; [|discriminate Hsent].
  destruct (X5_headers_of_a_relayed_response Some (JS.Error "TypeError" "") net "GET" sp
              "https://cdn.test/a" resp reply
              eq_refl eq_refl (or_introl (conj eq_refl (eq_sym Hsent))))
    as (name & Hdisposition & _ & _ & Hgiven & _).
  - by injection Hsent as <-.
  - exists reply, name. split; [reflexivity|]. split; [exact Hdisposition|].
    apply (Hgiven "../my photo.png"); [reflexivity | discriminate].
Defined.

(** X6: the body of a relayed response.  Whenever either relay answers
    200 for a response with a body, the reply ends the way the upstream
    body does: normally, or destroyed with the upstream error.  When the
    body ends normally the bytes sent are the bytes of the upstream body,
    in order and complete.  When it fails, they are a part from its
    start: the chunks that had reached the relay when the error came,
    while chunks still on their way are dropped.  The minimal relay
    passes the chunks on as they are; the relay with sniffing only drops
    a first chunk that is empty.  In the relay with sniffing the [done]
    line of a stream that ends normally reports the number of bytes of
    the body. *)
Theorem X6_body_is_relayed_unchanged
    (decodeURIComponent : string → option string) (nullBody : JS.error)
    (net : Relay.network) (method : string) (sp : URLSearchParams.t) (url : string)
    (resp : Fetch.response) (st : Fetch.stream) :
  URLSearchParams.get sp "url" = Some url →
  Relay.isHttpUrl url = true →
  Fetch.body resp = Some st →
  let ending :=
    match Fetch.failure st with
    | Some b => Relay.Destroyed (Fetch.reason b)
    | None => Relay.Ended
    end in
  (∃ dropped, Fetch.chunks st = Fetch.arriving st ++ dropped
              ∧ (Fetch.failure st = None → dropped = [])
              ∧ (∀ b, Fetch.failure st = Some b →
                      length dropped = Nat.min (Fetch.lost b) (length (Fetch.chunks st))))
  ∧ (net url (Server.parseHeadersFromQuery sp) (Relay.timeoutOf sp) = Fetch.Resolved resp →
     ∀ reply,
       snd (Server.proxyImage decodeURIComponent nullBody net sp) = Some reply →
       Relay.code reply = 200 →
       Relay.content reply = Relay.Streamed (Fetch.arriving st) ending)
  ∧ (net url (Sniffing.parseHeadersFromQuery sp) (Relay.timeoutOf sp) = Fetch.Resolved resp →
     Relay.code (snd (Sniffing.proxyImage decodeURIComponent nullBody net method sp)) = 200 →
     ∃ data,
       Relay.content (snd (Sniffing.proxyImage decodeURIComponent nullBody net method sp))
       = Relay.Streamed data ending
       ∧ (data = Fetch.arriving st ∨ [] :: data = Fetch.arriving st)
       ∧ concat data = concat (Fetch.arriving st)
       ∧ (Fetch.failure st = None →
          ∃ type,
            last (fst (Sniffing.proxyImage decodeURIComponent nullBody net method sp))
            = Some (Relay.Log "info" "done"
                      [("status", Relay.JNum (JS.of_Z 200)); ("type", Relay.JStr type);
                       ("bytes", Relay.JNum (JS.of_Z (Z.of_nat (length (concat (Fetch.chunks st))))))]))).
Proof.
  intros Hget Hhttp Hbody ending.
  pose proof (GateFacts.accepted_url sp url Hget Hhttp) as Hurl.
  assert (Hending : ending = match Fetch.broken st with
                             | Some e => Relay.Destroyed e
                             | None => Relay.Ended
                             end).
  { subst ending. unfold Fetch.broken. by destruct (Fetch.failure st). }
  split; [|split].
  - unfold Fetch.arriving. destruct (Fetch.failure st) as [b|].
    + exists (drop (length (Fetch.chunks st) - Fetch.lost b) (Fetch.chunks st)).
      split; [by rewrite take_drop|]. split; [discriminate|].
      intros b' [= <-]. rewrite length_drop. lia.
    + exists []. split; [by rewrite app_nil_r|]. split; [done|discriminate].
  - intros Hnet reply Hsent Hcode.
    destruct (ReplyFacts.server_200 _ _ _ _ _ Hsent Hcode)
      as (url' & resp' & Hurl' & _ & Hnet' & _ & _ & _ & ->).
    rewrite Hurl in Hurl'. simplify_eq. rewrite Hnet in Hnet'. simplify_eq.
    cbn [Relay.content]. rewrite Hbody. unfold Relay.piped. by rewrite <- Hending.
  - intros Hnet Hcode.
    destruct (ReplyFacts.sniffing_200 _ _ _ _ _ Hcode)
      as (url' & resp' & c & rest & f & Hurl' & _ & Hnet' & Hok & Hread & Hhead & Hreply).
    rewrite Hurl in Hurl'. simplify_eq. rewrite Hnet in Hnet'. simplify_eq.
    destruct (ReplyFacts.readFirst_got _ _ _ _ _ Hread)
      as (st' & Hbody' & Hf & Hall & Hsame & Hshape).
    rewrite Hbody in Hbody'. simplify_eq.
    exists (Sniffing.yielded c rest). rewrite Hreply. cbn [Relay.content].
    split; [unfold Relay.piped; by rewrite <- Hending|].
    split; [by apply ReplyFacts.yielded_arriving|]. split; [exact Hsame|].
    intros Hnone. clear Hreply. revert Hcode. unfold Sniffing.proxyImage.
    rewrite Hurl, Hhttp, Hnet, Hok, Hread. cbn [negb].
    case_if; [discriminate|]. rewrite Hhead. intros _. cbn [fst].
    unfold Fetch.broken. rewrite Hnone. cbn [fmap option_fmap option_map].
    eexists. rewrite last_app. cbn [last].
    rewrite <- (ReplyFacts.arriving_all _ Hnone), Hall, length_app. reflexivity.
Qed.

(** A body in two chunks that breaks off while the second is on its way. *)
Lemma X6_body_is_relayed_unchanged_witness :
  let st := {| Fetch.chunks := [[xff; xd8; xff]; [xe0; x00]];
               Fetch.failure := Some {| Fetch.reason := JS.Error "TypeError" "terminated";
                                        Fetch.lost := 1 |} |} in
  let resp :=
    {| Fetch.status := 200; Fetch.contentType := Some "image/jpeg";
       Fetch.contentLength := None; Fetch.contentDisposition := None;
       Fetch.body := Some st |} in
  let net : Relay.network := λ _ _ _, Fetch.Resolved resp in
  ∃ reply,
    snd (Server.proxyImage Some (JS.Error "TypeError" "") net
           [("url", "https://cdn.test/a.jpg")]) = Some reply
    ∧ Relay.content reply
      = Relay.Streamed [[xff; xd8; xff]] (Relay.Destroyed (JS.Error "TypeError" "terminated")).
Proof.
  intros st resp net.
  destruct (X6_body_is_relayed_unchanged Some (JS.Error "TypeError" "") net "GET"
              [("url", "https://cdn.test/a.jpg")] "https://cdn.test/a.jpg" resp st
              eq_refl eq_refl eq_refl) as (_ & Hminimal & _).
  eexists. split; [reflexivity|].
  exact (Hminimal eq_refl _ eq_refl eq_refl).
Defined.

(** X7: the replies of [proxyImage].  Its status is one of 200, 400,
    415, 500 and 502, and the minimal relay never answers 500.  A 200 is
    a stream; every other reply is a JSON object that starts with
    [ok: false] and an [error] text, sent as
    [application/json; charset=utf-8].  The reply is a 400 exactly when
    the request has caused no event at all: a refusal comes before any
    network activity, and every other reply comes after the fetch. *)
Theorem X7_replies_of_the_relay
    (decodeURIComponent : string → option string) (nullBody : JS.error)
    (net : Relay.network) (method : string) (sp : URLSearchParams.t)
    (run : list Relay.event * Relay.reply) :
  (fst run, Some (snd run)) = Server.proxyImage decodeURIComponent nullBody net sp
  ∨ run = Sniffing.proxyImage decodeURIComponent nullBody net method sp →
  let reply := snd run in
  Relay.code reply ∈ [200; 400; 415; 500; 502]
  ∧ (Relay.code reply = 200 → ∃ data ending, Relay.content reply = Relay.Streamed data ending)
  ∧ (Relay.code reply ≠ 200 →
     ∃ message extra,
       reply = Relay.bad (Relay.code reply) message extra
       ∧ Relay.headers reply !! "content-type" = Some "application/json; charset=utf-8"
       ∧ Relay.content reply
         = Relay.Json (("ok", Relay.JBool false) :: ("error", Relay.JStr message) :: extra))
  ∧ (Relay.code reply = 400 ↔ fst run = [])
  ∧ Relay.code <$> snd (Server.proxyImage decodeURIComponent nullBody net sp) ≠ Some 500.
Proof.
  intros Hrun reply.
  assert (Hminimal : Relay.code <$> snd (Server.proxyImage decodeURIComponent nullBody net sp)
                     ≠ Some 500).
  { unfold Server.proxyImage. repeat case_match; discriminate. }
  cut (Relay.code reply ∈ [200; 400; 415; 500; 502]
       ∧ (Relay.code reply = 200 →
          ∃ data ending, Relay.content reply = Relay.Streamed data ending)
       ∧ (Relay.code reply ≠ 200 →
          ∃ message extra,
            reply = Relay.bad (Relay.code reply) message extra
            ∧ Relay.headers reply !! "content-type" = Some "application/json; charset=utf-8"
            ∧ Relay.content reply
              = Relay.Json (("ok", Relay.JBool false) :: ("error", Relay.JStr message) :: extra))
       ∧ (Relay.code reply = 400 ↔ fst run = [])).
  { intros (? & ? & ? & ?). by split_and!. }
  pose (core := λ run : list Relay.event * Relay.reply,
          Relay.code (snd run) ∈ [200; 400; 415; 500; 502]
          ∧ (Relay.code (snd run) = 200 →
             ∃ data ending, Relay.content (snd run) = Relay.Streamed data ending)
          ∧ (Relay.code (snd run) ≠ 200 →
             ∃ message extra,
               snd run = Relay.bad (Relay.code (snd run)) message extra
               ∧ Relay.headers (snd run) !! "content-type"
                 = Some "application/json; charset=utf-8"
               ∧ Relay.content (snd run)
                 = Relay.Json (("ok", Relay.JBool false)
                                 :: ("error", Relay.JStr message) :: extra))
          ∧ (Relay.code (snd run) = 400 ↔ fst run = [])).
  change (core run).
  assert (Hrefused : ∀ message, core ([], Relay.bad 400 message [])).
  { intros message. unfold core. cbn [snd fst Relay.code Relay.bad Relay.json].
    split; [rewrite !elem_of_cons; auto|]. split; [discriminate|].
    split; [|done]. intros _. exists message, []. by repeat split. }
  assert (Hbad : ∀ e did c message extra,
            c = 415 ∨ c = 500 ∨ c = 502 → core (e :: did, Relay.bad c message extra)).
  { intros e did c message extra Hc. unfold core.
    cbn [snd fst Relay.code Relay.bad Relay.json].
    destruct Hc as [->|[->| ->]];
      (split; [rewrite !elem_of_cons; auto 10|]); (split; [discriminate|]);
      (split; [|split; discriminate]);
      intros _; exists message, extra; by repeat split. }
  assert (Hstream : ∀ e did h data ending,
            core (e :: did, {| Relay.code := 200; Relay.headers := h;
                               Relay.content := Relay.Streamed data ending |})).
  { intros e did h data ending. unfold core. cbn [snd fst Relay.code Relay.content].
    split; [rewrite !elem_of_cons; auto|]. split; [eauto|]. split; [done|].
    split; discriminate. }
  clear reply. destruct Hrun as [Hrun| ->].
  - destruct run as [did reply]. cbn [fst snd] in Hrun. revert Hrun.
    unfold Server.proxyImage.
    destruct (Relay.orElse _ _) as [url|]; [|intros [= -> ->]; apply Hrefused].
    destruct (Relay.isHttpUrl url); cbn [negb]; [|intros [= -> ->]; apply Hrefused].
    destruct (net _ _ _) as [err|resp]; [intros [= -> ->]; apply Hbad; auto|].
    case_if; [intros [= -> ->]; apply Hbad; auto|].
    case_if; [intros [= -> ->]; apply Hbad; auto|].
    destruct (Relay.refusedHead _); [discriminate|].
    destruct (Fetch.body resp) as [st|]; intros [= -> ->]; apply Hstream.
  - unfold Sniffing.proxyImage.
    destruct (Relay.orElse _ _) as [url|]; [|apply Hrefused].
    destruct (Relay.isHttpUrl url); cbn [negb]; [|apply Hrefused].
    destruct (net _ _ _) as [err|resp]; [apply Hbad; auto|].
    case_if; [apply Hbad; auto|].
    destruct (Sniffing.readFirst nullBody resp) as [e|firstChunk rest failure];
      [apply Hbad; auto|].
    case_if; [apply Hbad; auto|].
    destruct (Relay.refusedHead _); [apply Hbad; auto|].
    apply Hstream.
Qed.

(** An upstream that cannot be reached. *)
Lemma X7_replies_of_the_relay_witness :
  let net : Relay.network := λ _ _ _, Fetch.Rejected (JS.Error "TypeError" "fetch failed") in
  let run := Sniffing.proxyImage Some (JS.Error "TypeError" "") net "GET"
               [("url", "https://cdn.test/a.jpg")] in
  Relay.code (snd run) = 502
  ∧ ∃ message extra, snd run = Relay.bad 502 message extra.
Proof.
  intros net run.
  destruct (X7_replies_of_the_relay Some (JS.Error "TypeError" "") net "GET"
              [("url", "https://cdn.test/a.jpg")] run (or_intror eq_refl))
    as (_ & _ & Hjson & _).
  split; [reflexivity|].
  destruct (Hjson ltac:(discriminate)) as (message & extra & Hreply & _).
  exists message, extra. exact Hreply.
Defined.

(** X8: requests that are not relayed.  A request for a path other than
    [/image], or for [/image] with a method other than GET and POST, is
    answered at once, with no fetch and no log line, and alike by both
    relay files.  The answer is the health document for GET on [/] and
    [/health] and for nothing else (any other method there gets 404), 405
    with [Allow: GET, POST] for [/image], and 404 [not found] otherwise.
    A request whose target [new URL] cannot parse is answered 500
    [internal error] with the text of the error as [detail], whatever its
    method.  A POST to [/image] is not answered at all, and nothing is
    fetched, when its body breaks off or holds more than 1000000 bytes. *)
Theorem X8_requests_that_are_not_relayed
    (decodeURIComponent : string → option string)
    (numberToString : JS.number → string) (nullBody : JS.error)
    (net : Relay.network) (locate : string → JS.error + (string * URLSearchParams.t))
    (parseJson : list byte → option Relay.jvalue) (now : Z) (req : Relay.request) :
  let minimal :=
    Server.serve decodeURIComponent numberToString nullBody net locate parseJson now req in
  let sniffing :=
    Sniffing.serve decodeURIComponent numberToString nullBody net locate parseJson now req in
  (∀ pathname query,
     locate (Relay.target req) = inr (pathname, query) →
     pathname ≠ "/image" ∨ (Relay.method req ≠ "GET" ∧ Relay.method req ≠ "POST") →
     ∃ reply,
       minimal = ([], Some reply)
       ∧ sniffing = ([], Some reply)
       ∧ (Relay.method req = "GET" ∧ (pathname = "/" ∨ pathname = "/health") →
          reply = Relay.health now)
       ∧ (Relay.code reply = 200
          ↔ Relay.method req = "GET" ∧ (pathname = "/" ∨ pathname = "/health"))
       ∧ (Relay.code reply = 405 ↔ pathname = "/image")
       ∧ (Relay.code reply = 405 → Relay.headers reply !! "Allow" = Some "GET, POST")
       ∧ (Relay.code reply ≠ 200 → Relay.code reply ≠ 405 →
          reply = Relay.bad 404 "not found" []))
  ∧ (∀ e, locate (Relay.target req) = inl e →
          let reply :=
            Relay.bad 500 "internal error" [("detail", Relay.JStr (JS.error_toString e))] in
          minimal = ([], Some reply) ∧ sniffing = ([], Some reply))
  ∧ (∀ query,
       locate (Relay.target req) = inr ("/image", query) →
       Relay.method req = "POST" →
       is_Some (Relay.aborted req)
       ∨ 1000000 < Z.of_nat (length (concat (Relay.sent req))) →
       minimal = ([], None) ∧ sniffing = ([], None)).
Proof.
  intros minimal sniffing. subst minimal sniffing. split; [|split].
  - intros pathname query Hlocate Hoff. unfold Server.serve, Sniffing.serve.
    rewrite Hlocate.
    destruct (String.eqb_spec (Relay.method req) "GET") as [Hget|Hget];
      destruct (String.eqb_spec pathname "/") as [Hroot|Hroot];
      destruct (String.eqb_spec pathname "/health") as [Hhealth|Hhealth];
      destruct (String.eqb_spec pathname "/image") as [Himage|Himage];
      destruct (String.eqb_spec (Relay.method req) "POST") as [Hpost|Hpost];
      cbn [andb orb]; try congruence; try (exfalso; intuition congruence);
      (eexists; split; [reflexivity|]; split; [reflexivity|];
       cbn [Relay.code Relay.health Relay.bad Relay.json Relay.methodNotAllowed Relay.headers];
       split_and!; (try by simplify_map_eq); try (intuition (congruence || discriminate))).
  - intros e Hlocate. unfold Server.serve, Sniffing.serve. by rewrite Hlocate.
  - intros query Hlocate Hpost Hbody.
    assert (Hcollect : ∃ e, Relay.collect 0 (Relay.sent req) (Relay.aborted req) = inl e).
    { destruct Hbody as [[e He]|Hlarge].
      - rewrite He. apply RouteFacts.collect_aborted.
      - destruct (RouteFacts.collect_too_large (Relay.sent req) (Relay.aborted req) 0)
          as [-> | (e & _ & ->)]; [lia | lia | by eexists..]. }
    destruct Hcollect as [e Hcollect].
    unfold Server.serve, Sniffing.serve, Server.handlePostImage, Sniffing.handlePostImage.
    by rewrite Hlocate, Hpost, Hcollect.
Qed.

(** A HEAD request for the health document. *)
Lemma X8_requests_that_are_not_relayed_witness :
  ∃ reply,
    Server.serve Some (λ _, "") (JS.Error "TypeError" "")
      (λ _ _ _, Fetch.Rejected (JS.Error "" "")) (λ _, inr ("/health", [])) (λ _, None) 0
      {| Relay.method := "HEAD"; Relay.target := "/health";
         Relay.sent := []; Relay.aborted := None |}
    = ([], Some reply)
    ∧ reply = Relay.bad 404 "not found" [].
Proof.
  destruct (X8_requests_that_are_not_relayed Some (λ _, "") (JS.Error "TypeError" "")
              (λ _ _ _, Fetch.Rejected (JS.Error "" "")) (λ _, inr ("/health", []))
              (λ _, None) 0
              {| Relay.method := "HEAD"; Relay.target := "/health";
                 Relay.sent := []; Relay.aborted := None |})
    as [Hother _].
  destruct (Hother "/health" [] eq_refl) as (reply & Hserve & _).
  - left. discriminate.
  - exists reply. split; [exact Hserve|].
    injection Hserve as <-. reflexivity.
Defined.



(** ** The signatures the relay looks for *)

Module SniffFacts.
Import Sniffing.

Ltac bytes_eq :=
  repeat match goal with
         | H : _ && _ = true |- _ => apply andb_true_iff in H as [? ?]
         | H : Byte.eqb _ _ = true |- _ => apply Byte.byte_dec_bl in H; subst
         end.

Tactic Notation "chain" integer(n) :=
  let H := fresh in
  do n (match goal with
        | b : list byte |- _ =>
            destruct b as [|? b];
            [split; intros H;
             first [discriminate H
                   | destruct H as [H ?]; cbn in *; first [discriminate | lia]]|]
        end);
  unfold atLeast, byteIs; cbn [lookup list_lookup length Nat.leb andb];
  rewrite ?take_0.

Lemma jpeg_spec (b : list byte) :
  atLeast b 3 && byteIs b 0 xff && byteIs b 1 xd8 && byteIs b 2 xff = true
  ↔ take 3 b = [xff; xd8; xff].
Proof.
  chain 3. cbn [take]. rewrite ?take_0.
  split; intros H; [by bytes_eq | by simplify_eq].
Qed.

Lemma png_spec (b : list byte) :
  atLeast b 8 && byteIs b 0 x89 && byteIs b 1 x50 && byteIs b 2 x4e && byteIs b 3 x47
  && byteIs b 4 x0d && byteIs b 5 x0a && byteIs b 6 x1a && byteIs b 7 x0a = true
  ↔ take 8 b = [x89; x50; x4e; x47; x0d; x0a; x1a; x0a].
Proof.
  chain 8. cbn [take]. rewrite ?take_0.
  split; intros H; [by bytes_eq | by simplify_eq].
Qed.

Lemma gif_spec (b : list byte) :
  atLeast b 12 && byteIs b 0 x47 && byteIs b 1 x49 && byteIs b 2 x46 && byteIs b 3 x38 = true
  ↔ (12 ≤ length b)%nat ∧ take 4 b = [x47; x49; x46; x38].
Proof.
  chain 12. cbn [take]. rewrite ?take_0.
  split; [intros H; bytes_eq; split; [cbn [length]; lia | done]|].
  intros [_ H]. by simplify_eq.
Qed.

Lemma webp_spec (b : list byte) :
  atLeast b 12 && byteIs b 0 x52 && byteIs b 1 x49 && byteIs b 2 x46 && byteIs b 3 x46
  && byteIs b 8 x57 && byteIs b 9 x45 && byteIs b 10 x42 && byteIs b 11 x50 = true
  ↔ take 4 b = [x52; x49; x46; x46] ∧ take 4 (drop 8 b) = [x57; x45; x42; x50].
Proof.
  chain 12. cbn [take drop]. rewrite ?take_0.
  split; [intros H; by bytes_eq|].
  intros [H1 H2]. by simplify_eq.
Qed.

(** The first byte of a chunk with a signature. *)
Lemma first_byte (n : nat) (b : list byte) (x : byte) (sig : list byte) :
  take (S n) b = x :: sig → head b = Some x.
Proof. destruct b; simpl; [discriminate | congruence]. Qed.

Lemma byteIs_app (b extra : list byte) (i : nat) (x : byte) :
  (i < length b)%nat → byteIs (b ++ extra) i x = byteIs b i x.
Proof. intros Hi. unfold byteIs. by rewrite lookup_app_l. Qed.

Lemma atLeast_app (b extra : list byte) (n : nat) :
  (n ≤ length b)%nat → atLeast (b ++ extra) n = atLeast b n.
Proof.
  intros Hn. unfold atLeast. rewrite length_app.
  by rewrite !(proj2 (Nat.leb_le _ _)) by lia.
Qed.

(** The four tests in the order the code makes them. *)
Lemma sniff_cases (b : list byte) :
  let J := take 3 b = [xff; xd8; xff] in
  let P := take 8 b = [x89; x50; x4e; x47; x0d; x0a; x1a; x0a] in
  let G := (12 ≤ length b)%nat ∧ take 4 b = [x47; x49; x46; x38] in
  let W := take 4 b = [x52; x49; x46; x46] ∧ take 4 (drop 8 b) = [x57; x45; x42; x50] in
  (J ∧ sniffImageType b = Some "image/jpeg")
  ∨ (¬ J ∧ P ∧ sniffImageType b = Some "image/png")
  ∨ (¬ J ∧ ¬ P ∧ G ∧ sniffImageType b = Some "image/gif")
  ∨ (¬ J ∧ ¬ P ∧ ¬ G ∧ W ∧ sniffImageType b = Some "image/webp")
  ∨ (¬ J ∧ ¬ P ∧ ¬ G ∧ ¬ W ∧ sniffImageType b = None).
Proof.
  intros J P G W. unfold sniffImageType.
  case_if; [left; split; [by apply jpeg_spec | done]|].
  assert (¬ J) by (intros HJ; apply jpeg_spec in HJ; congruence).
  case_if; [right; left; split_and!; [done | by apply png_spec | done]|].
  assert (¬ P) by (intros HP; apply png_spec in HP; congruence).
  case_if; [right; right; left; split_and!; [done | done | by apply gif_spec | done]|].
  assert (¬ G) by (intros HG; apply gif_spec in HG; congruence).
  case_if; [right; right; right; left; split_and!; [done.. | by apply webp_spec | done]|].
  assert (¬ W) by (intros HW; apply webp_spec in HW; congruence).
  right; right; right; right. by split_and!.
Qed.

(** Two signatures do not start with the same byte. *)
Ltac clash :=
  match goal with
  | H1 : take (S _) ?b = ?x :: _, H2 : take (S _) ?b = ?y :: _ |- _ =>
      apply first_byte in H1; apply first_byte in H2; rewrite H1 in H2; discriminate H2
  end.

End SniffFacts.

(** X9: the signatures [sniffImageType] knows.  It answers [image/jpeg]
    exactly for the chunks that start with FF D8 FF, [image/png] exactly
    for those that start with the eight bytes 89 50 4E 47 0D 0A 1A 0A,
    [image/gif] exactly for those of at least twelve bytes that start
    with 47 49 46 38, and [image/webp] exactly for those that start with
    52 49 46 46 and have 57 45 42 50 at offset 8.  It gives no other
    answer, none at all for a chunk of less than three bytes, and what
    follows the twelfth byte of a chunk has no influence. *)
Theorem X9_image_signatures (b : list byte) :
  (Sniffing.sniffImageType b = Some "image/jpeg" ↔ take 3 b = [xff; xd8; xff])
  ∧ (Sniffing.sniffImageType b = Some "image/png"
     ↔ take 8 b = [x89; x50; x4e; x47; x0d; x0a; x1a; x0a])
  ∧ (Sniffing.sniffImageType b = Some "image/gif"
     ↔ (12 ≤ length b)%nat ∧ take 4 b = [x47; x49; x46; x38])
  ∧ (Sniffing.sniffImageType b = Some "image/webp"
     ↔ take 4 b = [x52; x49; x46; x46] ∧ take 4 (drop 8 b) = [x57; x45; x42; x50])
  ∧ (∀ t, Sniffing.sniffImageType b = Some t →
          t ∈ ["image/jpeg"; "image/png"; "image/gif"; "image/webp"])
  ∧ ((length b < 3)%nat → Sniffing.sniffImageType b = None)
  ∧ (∀ extra, (12 ≤ length b)%nat →
              Sniffing.sniffImageType (b ++ extra) = Sniffing.sniffImageType b).
Proof.
  assert (Hshort : (length b < 3)%nat → Sniffing.sniffImageType b = None).
  { destruct b as [|? [|? [|? ?]]]; cbn [length]; intros; try lia; reflexivity. }
  assert (Hlong : ∀ extra, (12 ≤ length b)%nat →
                           Sniffing.sniffImageType (b ++ extra) = Sniffing.sniffImageType b).
  { intros extra Hb. unfold Sniffing.sniffImageType.
    by rewrite !SniffFacts.atLeast_app, !SniffFacts.byteIs_app by lia. }
  cut ((Sniffing.sniffImageType b = Some "image/jpeg" ↔ take 3 b = [xff; xd8; xff])
       ∧ (Sniffing.sniffImageType b = Some "image/png"
          ↔ take 8 b = [x89; x50; x4e; x47; x0d; x0a; x1a; x0a])
       ∧ (Sniffing.sniffImageType b = Some "image/gif"
          ↔ (12 ≤ length b)%nat ∧ take 4 b = [x47; x49; x46; x38])
       ∧ (Sniffing.sniffImageType b = Some "image/webp"
          ↔ take 4 b = [x52; x49; x46; x46] ∧ take 4 (drop 8 b) = [x57; x45; x42; x50])
       ∧ (∀ t, Sniffing.sniffImageType b = Some t →
               t ∈ ["image/jpeg"; "image/png"; "image/gif"; "image/webp"])).
  { intros (? & ? & ? & ? & ?). by split_and!. }
  clear Hshort Hlong.
  destruct (SniffFacts.sniff_cases b)
    as [(HJ & ->)|[(HnJ & HP & ->)|[(HnJ & HnP & HG & ->)|[(HnJ & HnP & HnG & HW & ->)
       |(HnJ & HnP & HnG & HnW & ->)]]]];
    try (pose proof HG as [HG1 HG2]); try (pose proof HW as [HW1 HW2]);
    split_and!;
    try (split; intros Hx;
         first [ discriminate Hx | reflexivity | assumption | contradiction
               | SniffFacts.clash | apply proj2 in Hx; SniffFacts.clash
               | apply proj1 in Hx; SniffFacts.clash ]);
    intros t Ht; simplify_eq; rewrite !elem_of_cons; auto 10.
Qed.

(** The start of a JPEG file. *)
Lemma X9_image_signatures_witness :
  Sniffing.sniffImageType [xff; xd8; xff; xe0; x00; x10] = Some "image/jpeg".
Proof.
  destruct (X9_image_signatures [xff; xd8; xff; xe0; x00; x10]) as [Hjpeg _].
  apply Hjpeg. reflexivity.
Defined.

(** ** The request headers and the parameters of a POST, continued *)

Module BodyFacts.
Import Relay URLSearchParams.









Lemma push_cookie (h : gmap string string) (acc c : string) :
  h !! "Cookie" = Some acc → acc ≠ "" →
  pushHeader h "Cookie" c !! "Cookie" = Some ((acc +:+ "; ") +:+ c).
Proof.
  intros Hacc Hne. unfold pushHeader.
  change (String.eqb "Cookie" "") with false.
  change (String.eqb (JS.toLowerCase "Cookie") "cookie") with true. cbv iota.
  rewrite Hacc. destruct (String.eqb_spec acc ""); [done|]. apply lookup_insert_eq.
Qed.

Lemma push_first_cookie (h : gmap string string) (c : string) :
  h !! "Cookie" = None ∨ h !! "Cookie" = Some "" →
  pushHeader h "Cookie" c !! "Cookie" = Some c.
Proof.
  intros Hnone. unfold pushHeader.
  change (String.eqb "Cookie" "") with false.
  change (String.eqb (JS.toLowerCase "Cookie") "cookie") with true. cbv iota.
  destruct Hnone as [-> | ->]; cbn [String.eqb]; rewrite PathFacts.app_empty;
    apply lookup_insert_eq.
Qed.

(** The cookies pushed after a first one that is not empty. *)
Lemma cookies_joined (cs : list string) :
  ∀ (h : gmap string string) (acc : string),
    h !! "Cookie" = Some acc → acc ≠ "" →
    foldl (λ h c, pushHeader h "Cookie" c) h cs !! "Cookie"
    = Some (Path.concat_with "; " (acc :: cs)).
Proof.
  induction cs as [|c cs IH]; intros h acc Hacc Hne; [exact Hacc|].
  cbn [foldl]. rewrite (IH _ ((acc +:+ "; ") +:+ c)).
  - f_equal. destruct cs; cbn [Path.concat_with]; by rewrite !PathFacts.app_assoc.
  - by apply push_cookie.
  - destruct acc; [done | discriminate].
Qed.

(** The cookies pushed onto any header map: the header starts afresh as
    long as it is empty. *)
Lemma cookies_pushed (cs : list string) :
  ∀ h : gmap string string,
    cs ≠ [] →
    foldl (λ h c, pushHeader h "Cookie" c) h cs !! "Cookie"
    = Some (Path.concat_with "; "
              (Notions.fromFirstNonEmpty (option_list (h !! "Cookie") ++ cs))).
Proof.
  induction cs as [|c cs IH]; intros h Hcs; [done|].
  assert (Hfresh : h !! "Cookie" = None ∨ h !! "Cookie" = Some "" →
            foldl (λ h c, pushHeader h "Cookie" c) h (c :: cs) !! "Cookie"
            = Some (Path.concat_with "; " (Notions.fromFirstNonEmpty (c :: cs)))).
  { intros Hnone. pose proof (push_first_cookie h c Hnone) as Hfirst.
    cbn [foldl]. destruct cs as [|c' cs].
    - cbn [foldl Notions.fromFirstNonEmpty]. rewrite Hfirst.
      by destruct (String.eqb_spec c "") as [->|].
    - rewrite IH by done. by rewrite Hfirst. }
  destruct (h !! "Cookie") as [acc|] eqn:Hacc;
    [destruct (String.eqb_spec acc "") as [->|Hne]|].
  - change (option_list (Some "") ++ c :: cs) with ("" :: c :: cs).
    cbn [Notions.fromFirstNonEmpty String.eqb]. apply Hfresh. by right.
  - change (option_list (Some acc) ++ c :: cs) with (acc :: c :: cs).
    cbn [Notions.fromFirstNonEmpty].
    destruct (String.eqb_spec acc ""); [done|].
    by apply (cookies_joined (c :: cs)).
  - change (option_list None ++ c :: cs) with (c :: cs). apply Hfresh. by left.
Qed.

End BodyFacts.

Module DefaultFacts.

(** [if (!headers[k]) headers[k] = d] *)
Lemma step (h : gmap string string) (k d : string) :
  d ≠ "" →
  let h' := if JS.truthy (JS.optional (h !! k)) then h else <[k := d]> h in
  (∃ v, h' !! k = Some v ∧ v ≠ "")
  ∧ (∀ j, j ≠ k → h' !! j = h !! j)
  ∧ (∀ v, h !! k = Some v → v ≠ "" → h' !! k = Some v)
  ∧ (h !! k = None ∨ h !! k = Some "" → h' !! k = Some d).
Proof.
  intros Hd h'. subst h'.
  destruct (h !! k) as [v|] eqn:Hk; cbn [JS.optional JS.truthy];
    [destruct (String.eqb_spec v "") as [->|Hv]; cbn [negb]|].
  - split_and!; [exists d; by rewrite lookup_insert_eq | intros j Hj; by rewrite lookup_insert_ne
                | intros v ? ?; by simplify_eq | intros _; by rewrite lookup_insert_eq].
  - split_and!; [by exists v | done | intros v' ? ?; by simplify_eq
                | intros [?|?]; by simplify_eq].
  - split_and!; [exists d; by rewrite lookup_insert_eq | intros j Hj; by rewrite lookup_insert_ne
                | intros v ? ?; by simplify_eq | intros _; by rewrite lookup_insert_eq].
Qed.

End DefaultFacts.

(** X10: the browser defaults of the relay with sniffing.  The headers
    it sends upstream always have a non-empty [Accept] and a non-empty
    [User-Agent]: the caller's value where there is a non-empty one, the
    built-in default where the header is missing or empty.  Every other
    header is what the caller's parameters make it, as in the minimal
    relay, which adds nothing of its own. *)
Theorem X10_browser_defaults (sp : URLSearchParams.t) :
  let explicit := Server.parseHeadersFromQuery sp in
  let headers := Sniffing.parseHeadersFromQuery sp in
  (∃ accept, headers !! "Accept" = Some accept ∧ accept ≠ "")
  ∧ (∃ agent, headers !! "User-Agent" = Some agent ∧ agent ≠ "")
  ∧ (∀ k v, explicit !! k = Some v → v ≠ "" → headers !! k = Some v)
  ∧ (∀ k, k ≠ "Accept" → k ≠ "User-Agent" → headers !! k = explicit !! k)
  ∧ (explicit !! "Accept" = None ∨ explicit !! "Accept" = Some "" →
     headers !! "Accept" = Some "image/avif,image/webp,image/*;q=0.9,*/*;q=0.8")
  ∧ (explicit !! "User-Agent" = None ∨ explicit !! "User-Agent" = Some "" →
     headers !! "User-Agent"
     = Some "Mozilla/5.0 (Windows NT 10.0; Win64; x64) AppleWebKit/537.36 (KHTML, like Gecko) Chrome/124 Safari/537.36").
Proof.
  intros explicit headers. subst explicit headers.
  unfold Server.parseHeadersFromQuery, Sniffing.parseHeadersFromQuery.
  set (explicit := Relay.explicitHeaders sp).
  destruct (DefaultFacts.step explicit "Accept"
              "image/avif,image/webp,image/*;q=0.9,*/*;q=0.8" ltac:(discriminate))
    as (Ha1 & Ha2 & Ha3 & Ha4).
  set (accepted := if JS.truthy (JS.optional (explicit !! "Accept")) then explicit
                   else <["Accept" := "image/avif,image/webp,image/*;q=0.9,*/*;q=0.8"]>
                          explicit) in *.
  destruct (DefaultFacts.step accepted "User-Agent"
              "Mozilla/5.0 (Windows NT 10.0; Win64; x64) AppleWebKit/537.36 (KHTML, like Gecko) Chrome/124 Safari/537.36"
              ltac:(discriminate))
    as (Hu1 & Hu2 & Hu3 & Hu4).
  split_and!.
  - destruct Ha1 as (accept & Haccept & Hne). exists accept.
    by rewrite Hu2 by discriminate.
  - exact Hu1.
  - intros k v Hk Hv. destruct (decide (k = "User-Agent")) as [->|Hagent].
    + apply Hu3; [|exact Hv]. by rewrite Ha2 by discriminate.
    + rewrite Hu2 by exact Hagent. destruct (decide (k = "Accept")) as [->|Haccept].
      * by apply Ha3.
      * by rewrite Ha2.
  - intros k Haccept Hagent. by rewrite Hu2, Ha2.
  - intros Hnone. rewrite Hu2 by discriminate. by apply Ha4.
  - intros Hnone. apply Hu4. by rewrite Ha2 by discriminate.
Qed.

(** A caller that sets its own [User-Agent]. *)
Lemma X10_browser_defaults_witness :
  Sniffing.parseHeadersFromQuery
    [("url", "https://cdn.test/a.jpg"); ("header", "User-Agent: MyAgent/1.0")]
  !! "User-Agent" = Some "MyAgent/1.0".
Proof.
  destruct (X10_browser_defaults
              [("url", "https://cdn.test/a.jpg"); ("header", "User-Agent: MyAgent/1.0")])
    as (_ & _ & Hkept & _).
  apply Hkept; [vm_compute; reflexivity | discriminate].
Defined.

(** X11: cookies are merged into one header.  The [cookie] parameters
    of a request end up in a single [Cookie] header, joined with [; ] in
    the order they were given, after the cookie a [header] parameter may
    have set.  The header starts afresh as long as it is empty: of the
    cookie of the [header] parameters and the [cookie] parameters, those
    that are empty and have nothing but empty ones before them leave no
    trace, and an empty one after that is joined like any other.
    Without [cookie] parameters the header is what the [header]
    parameters made it.  Both relay files send the same [Cookie]
    header. *)
Theorem X11_cookies_are_joined (sp : URLSearchParams.t) :
  let lines := foldl Relay.pushLine ∅ (URLSearchParams.getAll sp "header") in
  let cookies := URLSearchParams.getAll sp "cookie" in
  let sent := Server.parseHeadersFromQuery sp !! "Cookie" in
  (cookies ≠ [] →
   sent = Some (Path.concat_with "; "
                  (Notions.fromFirstNonEmpty (option_list (lines !! "Cookie") ++ cookies))))
  ∧ (∀ c cs, lines !! "Cookie" = None ∨ lines !! "Cookie" = Some "" →
             cookies = c :: cs → c ≠ "" →
             sent = Some (Path.concat_with "; " (c :: cs)))
  ∧ (∀ p, lines !! "Cookie" = Some p → p ≠ "" →
          sent = Some (Path.concat_with "; " (p :: cookies)))
  ∧ (cookies = [] → sent = lines !! "Cookie")
  ∧ Sniffing.parseHeadersFromQuery sp !! "Cookie" = sent.
Proof.
  intros lines cookies sent. subst sent.
  unfold Server.parseHeadersFromQuery, Relay.explicitHeaders. fold lines. fold cookies.
  assert (Hplain : ∀ (h : gmap string string) k v,
            k ∈ ["Authorization"; "Referer"; "Origin"] →
            Relay.pushHeader h k v !! "Cookie" = h !! "Cookie").
  { intros h k v Hk. rewrite !elem_of_cons in Hk.
    destruct Hk as [->|[->|[->|Hk]]]; [..|by apply elem_of_nil in Hk];
      unfold Relay.pushHeader; vm_compute (String.eqb _ _); cbv iota;
      by apply ObjectFacts.assign_ne. }
  set (mid := match URLSearchParams.get sp "origin" with
              | Some origin => _
              | None => _
              end).
  assert (Hmid : mid !! "Cookie" = lines !! "Cookie").
  { subst mid.
    repeat match goal with
           | |- context [match URLSearchParams.get sp ?k with _ => _ end] =>
               destruct (URLSearchParams.get sp k) as [?|]
           | |- context [if JS.truthy ?v then _ else _] => destruct (JS.truthy v)
           | |- context [Relay.pushHeader _ ?k _ !! "Cookie"] =>
               rewrite (Hplain _ k) by (rewrite !elem_of_cons; auto)
           end; reflexivity. }
  split_and!.
  - intros Hcookies. rewrite BodyFacts.cookies_pushed by exact Hcookies. by rewrite Hmid.
  - intros c cs Hnone -> Hc. cbn [foldl].
    rewrite (BodyFacts.cookies_joined cs _ c); [reflexivity| |exact Hc].
    apply BodyFacts.push_first_cookie. by rewrite Hmid.
  - intros p Hp Hne. apply BodyFacts.cookies_joined; [|exact Hne]. by rewrite Hmid.
  - intros ->. exact Hmid.
  - by rewrite HeaderFacts.sniffing_defaults_other.
Qed.

(** Two cookies. *)
Lemma X11_cookies_are_joined_witness :
  Server.parseHeadersFromQuery
    [("url", "https://cdn.test/a.jpg"); ("cookie", "a=1"); ("auth", "t"); ("cookie", "b=2")]
  !! "Cookie" = Some "a=1; b=2".
Proof.
  destruct (X11_cookies_are_joined
              [("url", "https://cdn.test/a.jpg"); ("cookie", "a=1"); ("auth", "t");
               ("cookie", "b=2")]) as [Hjoined _].
  by apply Hjoined.
Defined.



(** * Further properties of the downloader *)

(** ** The words of the command line *)

Module WordFacts.
Import Downloader Notions.

(** A word that is taken for a URL is none of the options. *)
Lemma positional_word (a : string) (rest : list string) (o : options) :
  positional a = true → parseFrom (a :: rest) o = parseFrom rest (pushUrl (Some a) o).
Proof.
  intros Ha. cbn [parseFrom].
  repeat match goal with
         | |- context [String.eqb a ?lit] =>
             lazymatch lit with
             | EmptyString => fail
             | _ => destruct (String.eqb_spec a lit) as [->|_]; [by vm_compute in Ha|]
             end
         end.
  cbn [orb]. fold (positional a). by rewrite Ha.
Qed.

Lemma plain_words (us : list string) :
  ∀ o, Forall (λ u, positional u = true) us →
       parseFrom us o
       = Parsed {| urls := urls o ++ (Some <$> us); headers := headers o; outDir := outDir o;
                   concurrency := concurrency o; retries := retries o; input := input o |}.
Proof.
  induction us as [|u us IH]; intros o Hus.
  - cbn [parseFrom fmap list_fmap]. rewrite app_nil_r. by destruct o.
  - apply Forall_cons in Hus as [Hu Hus]. rewrite positional_word by exact Hu.
    rewrite IH by exact Hus. cbn [pushUrl urls headers outDir concurrency retries input].
    by rewrite <- app_assoc.
Qed.

Lemma cookie_word (c : string) (rest : list string) (o : options) :
  parseFrom ("--cookie" :: c :: rest) o = parseFrom rest (cookieFlag (Some c) o).
Proof. reflexivity. Qed.

Lemma setHeader_twice (k : string) (v w : option string) (o : options) :
  setHeader k w (setHeader k v o) = setHeader k w o.
Proof.
  unfold setHeader. cbn [urls headers outDir concurrency retries input].
  by rewrite ObjectFacts.assign_twice.
Qed.

(** The [--cookie] options after a first one. *)
Lemma more_cookies (cs : list string) :
  ∀ (rest : list string) (o : options) (acc : string),
    Forall (λ c, c ≠ "") cs → acc ≠ "" →
    parseFrom (concat ((λ c, ["--cookie"; c]) <$> cs) ++ rest)
      (setHeader "Cookie" (Some acc) o)
    = parseFrom rest (setHeader "Cookie" (Some (Path.concat_with "; " (acc :: cs))) o).
Proof.
  induction cs as [|c cs IH]; intros rest o acc Hcs Hacc; [reflexivity|].
  apply Forall_cons in Hcs as [Hc Hcs].
  cbn [fmap list_fmap concat app]. rewrite cookie_word.
  unfold cookieFlag. rewrite (proj2 (String.eqb_neq c "")) by exact Hc.
  cbn [setHeader headers]. rewrite !ObjectFacts.assign_insert by discriminate.
  rewrite lookup_insert_eq.
  rewrite (proj2 (String.eqb_neq acc "")) by exact Hacc.
  fold (setHeader "Cookie" (Some acc) o).
  change {| urls := urls (setHeader "Cookie" (Some acc) o);
            headers := <["Cookie" := Some ((acc +:+ "; ") +:+ c)]>
                         (headers (setHeader "Cookie" (Some acc) o));
            outDir := outDir (setHeader "Cookie" (Some acc) o);
            concurrency := concurrency (setHeader "Cookie" (Some acc) o);
            retries := retries (setHeader "Cookie" (Some acc) o);
            input := input (setHeader "Cookie" (Some acc) o) |}
    with (setHeader "Cookie" (Some ((acc +:+ "; ") +:+ c)) (setHeader "Cookie" (Some acc) o)).
  rewrite setHeader_twice, IH; [|exact Hcs|by destruct acc].
  do 3 f_equal. destruct cs; cbn [Path.concat_with]; by rewrite !PathFacts.app_assoc.
Qed.

End WordFacts.

(** X13: what [parseArgs] takes for a URL.  A word that is not empty and
    does not start with a hyphen, met where an option is expected, is
    added to the URLs; a command line of such words gives these URLs in
    the order they were written and leaves every option at its default.
    A word that starts with a hyphen and is none of the options is
    skipped, alone: the word after it is read as if it stood by itself.
    The word after [--url] is taken as a URL whatever it looks like. *)
Theorem X13_words_taken_for_urls :
  (∀ a rest o, Notions.positional a = true →
     Downloader.parseFrom (a :: rest) o
     = Downloader.parseFrom rest (Downloader.pushUrl (Some a) o))
  ∧ (∀ us, Forall (λ u, Notions.positional u = true) us →
       Downloader.parseArgs us
       = Downloader.Parsed
           {| Downloader.urls := Some <$> us; Downloader.headers := ∅;
              Downloader.outDir := Some "downloads";
              Downloader.concurrency := JS.of_Z 4; Downloader.retries := JS.of_Z 2;
              Downloader.input := None |})
  ∧ (∀ a rest o,
       Notions.positional a = false →
       a ∉ ["--url"; "--input"; "--output"; "--concurrency"; "--retry"; "--header";
            "--cookie"; "--auth"; "--referer"; "--origin"; "-h"; "--help"] →
       Downloader.parseFrom (a :: rest) o = Downloader.parseFrom rest o)
  ∧ (∀ u rest o,
       Downloader.parseFrom ("--url" :: u :: rest) o
       = Downloader.parseFrom rest (Downloader.pushUrl (Some u) o)).
Proof.
  split_and!.
  - apply WordFacts.positional_word.
  - intros us Hus. unfold Downloader.parseArgs. by rewrite WordFacts.plain_words.
  - intros a rest o Ha Hnone. rewrite !not_elem_of_cons in Hnone.
    destruct Hnone as (? & ? & ? & ? & ? & ? & ? & ? & ? & ? & ? & ? & _).
    cbn [Downloader.parseFrom].
    repeat match goal with
           | |- context [String.eqb a ?lit] =>
               lazymatch lit with
               | EmptyString => fail
               | _ => destruct (String.eqb_spec a lit) as [?|_]; [done|]
               end
           end.
    cbn [orb]. fold (Notions.positional a). by rewrite Ha.
  - reflexivity.
Qed.

(** Two addresses, and an option the program does not know. *)
Lemma X13_words_taken_for_urls_witness :
  Downloader.parseArgs ["https://cdn.test/1.jpg"; "https://cdn.test/2.jpg"]
  = Downloader.Parsed
      {| Downloader.urls := [Some "https://cdn.test/1.jpg"; Some "https://cdn.test/2.jpg"];
         Downloader.headers := ∅; Downloader.outDir := Some "downloads";
         Downloader.concurrency := JS.of_Z 4; Downloader.retries := JS.of_Z 2;
         Downloader.input := None |}
  ∧ Downloader.parseArgs ["--verbose"; "https://cdn.test/1.jpg"]
    = Downloader.parseArgs ["https://cdn.test/1.jpg"].
Proof.
  destruct X13_words_taken_for_urls as (_ & Hplain & Hskipped & _). split.
  - apply (Hplain ["https://cdn.test/1.jpg"; "https://cdn.test/2.jpg"]).
    by repeat constructor.
  - apply (Hskipped "--verbose"); [reflexivity|].
    rewrite !not_elem_of_cons. split_and!; try discriminate. apply not_elem_of_nil.
Defined.

(** X14: the [--cookie] options of the downloader are merged into one
    header.  Non-empty cookies given one after the other, when no
    [Cookie] header is set yet, leave a single [Cookie] header with the
    cookies joined with [; ] in the order they were written.  An empty
    cookie is skipped, and so is a [--cookie] that is the last word. *)
Theorem X14_cookie_options_are_joined :
  (∀ c cs rest o,
     Downloader.headers o !! "Cookie" = None →
     Forall (λ c, c ≠ "") (c :: cs) →
     Downloader.parseFrom (concat ((λ c, ["--cookie"; c]) <$> (c :: cs)) ++ rest) o
     = Downloader.parseFrom rest
         (Downloader.setHeader "Cookie" (Some (Path.concat_with "; " (c :: cs))) o))
  ∧ (∀ rest o, Downloader.parseFrom ("--cookie" :: "" :: rest) o = Downloader.parseFrom rest o)
  ∧ (∀ o, Downloader.parseFrom ["--cookie"] o = Downloader.Parsed o).
Proof.
  split_and!; [|reflexivity|reflexivity].
  intros c cs rest o Hnone Hcs. apply Forall_cons in Hcs as [Hc Hcs].
  cbn [fmap list_fmap concat app]. rewrite WordFacts.cookie_word.
  unfold Downloader.cookieFlag. rewrite (proj2 (String.eqb_neq c "")) by exact Hc.
  rewrite Hnone, PathFacts.app_empty.
  by apply WordFacts.more_cookies.
Qed.

(** Two cookies on the command line. *)
Lemma X14_cookie_options_are_joined_witness :
  Downloader.parseArgs ["--cookie"; "a=1"; "--cookie"; "b=2"; "https://cdn.test/1.jpg"]
  = Downloader.parseFrom ["https://cdn.test/1.jpg"]
      (Downloader.setHeader "Cookie" (Some "a=1; b=2") Downloader.initial).
Proof.
  destruct X14_cookie_options_are_joined as (Hjoined & _).
  apply (Hjoined "a=1" ["b=2"] ["https://cdn.test/1.jpg"] Downloader.initial).
  - reflexivity.
  - repeat constructor; discriminate.
Defined.

(** ** The runs of [downloadOne] *)

Module RunFacts.
Import Fetch Downloader Terms Notions.

Lemma fetches_nil : fetches [] = 0.
Proof. reflexivity. Qed.

Lemma fetches_fetch (url : string) (headers : gmap string (option string))
      (did : list event) :
  fetches (Fetch url headers :: did) = 1 + fetches did.
Proof. unfold fetches. rewrite filter_cons_True by done. cbn [length]. lia. Qed.

Lemma fetches_sleep (ms : Z) (did : list event) : fetches (Sleep ms :: did) = fetches did.
Proof. unfold fetches. by rewrite filter_cons_False by done. Qed.

Lemma fetches_nonneg (did : list event) : 0 ≤ fetches did.
Proof. unfold fetches. lia. Qed.

Lemma uniqueFrom_shape (fuel : nat) (fs : gmap string node) (dir base : string) :
  ∀ p i q, uniqueFrom fuel fs dir base p i = Some q →
           q = p ∨ ∃ k, i ≤ k ∧ q = candidate dir base k.
Proof.
  induction fuel as [|fuel IH]; intros p i q; cbn [uniqueFrom];
    destruct (existsSync fs p); try discriminate; try (intros ?; simplify_eq; by left).
  intros Hq. destruct (IH _ _ _ Hq) as [->|(k & Hk & ->)]; right.
  - exists i. split; [lia | reflexivity].
  - exists k. split; [lia | reflexivity].
Qed.

Section Runs.

Variable decodeURIComponent : string → option string.
Variable uriError : JS.error.
Variable pathnameOf : string → option string.
Variable nullBody : JS.error.
Variable net : network.

Abbreviation attempt := (Downloader.attempt decodeURIComponent uriError pathnameOf nullBody net).
Abbreviation downloadFrom :=
  (Downloader.downloadFrom decodeURIComponent uriError pathnameOf nullBody net).

Lemma pick_safe (u : string) :
  safe (pickFilenameFromUrl pathnameOf u) = true ∧ pickFilenameFromUrl pathnameOf u ≠ "".
Proof.
  unfold pickFilenameFromUrl. destruct (pathnameOf u) as [pathname|]; [|done].
  unfold sanitizeName. split; [apply ReplyFacts.safe_replace|].
  apply ReplyFacts.replace_nonempty. by destruct (String.eqb_spec (Path.basename pathname) "").
Qed.

Lemma disposition_safe (disposition : option string) (f : string) :
  filenameFromDisposition decodeURIComponent uriError disposition = inr (Some f) →
  safe f = true.
Proof.
  unfold filenameFromDisposition. intros Hf.
  repeat case_match; simplify_eq. apply ReplyFacts.safe_replace.
Qed.

(** What is behind an attempt that has opened its output file. *)
Lemma attempt_wrote (fuel : nat) (fs fs' : gmap string node) (url : string)
      (headers : gmap string (option string)) (outDir : string) (n : Z) (a : attempted) :
  attempt fuel fs url headers outDir n = (fs', a) →
  (fs' = fs ∧ match a with Saved _ => False | _ => True end)
  ∨ ∃ res name p content,
      net url headers n = Resolved res
      ∧ ok res = true
      ∧ JS.startsWith (JS.toLowerCase (default "" (contentType res))) "image/" = true
      ∧ safe name = true ∧ name ≠ ""
      ∧ uniquePath fuel fs outDir name = Some p
      ∧ fs !! p = None
      ∧ fs' = <[p := File content]> fs
      ∧ match a with
        | Saved q =>
            q = p ∧ ∃ st, body res = Some st ∧ failure st = None
                          ∧ content = concat (chunks st)
        | Threw _ => True
        | Stuck => False
        end.
Proof.
  unfold Downloader.attempt.
  destruct (net url headers n) as [err|res] eqn:Hnet; [intros ?; simplify_eq; by left|].
  destruct (ok res) eqn:Hok; cbn [negb]; [|intros ?; simplify_eq; by left].
  destruct (JS.startsWith _ _) eqn:Himage; cbn [negb]; [|intros ?; simplify_eq; by left].
  destruct (filenameFromDisposition _ _ _) as [err|named] eqn:Hnamed;
    [intros ?; simplify_eq; by left|].
  set (name := match named with
               | Some f => if String.eqb f "" then pickFilenameFromUrl pathnameOf url else f
               | None => pickFilenameFromUrl pathnameOf url
               end).
  assert (Hname : safe name = true ∧ name ≠ "").
  { subst name. destruct named as [f|]; [|apply pick_safe].
    destruct (String.eqb_spec f ""); [apply pick_safe|].
    split; [by eapply disposition_safe | done]. }
  destruct (uniquePath fuel fs outDir name) as [p|] eqn:Hp; [|intros ?; simplify_eq; by left].
  assert (Hfree : fs !! p = None).
  { apply UniqueFacts.existsSync_false. by eapply UniqueFacts.uniqueFrom_result_free. }
  destruct Hname as [Hsafe Hne].
  destruct (body res) as [st|] eqn:Hbody; intros ?; simplify_eq; right.
  - exists res, name, p, (concat (arriving st)). split_and!; try done.
    unfold broken, arriving. destruct (failure st) eqn:Hfailure; [done|].
    split; [done|]. by exists st.
  - exists res, name, p, []. by split_and!.
Qed.

Lemma attempt_grows (fuel : nat) (fs fs' : gmap string node) (url : string)
      (headers : gmap string (option string)) (outDir : string) (n : Z) (a : attempted) :
  attempt fuel fs url headers outDir n = (fs', a) → fs ⊆ fs'.
Proof.
  intros Hattempt.
  destruct (attempt_wrote _ _ _ _ _ _ _ _ Hattempt)
    as [[-> _]|(res & name & p & content & _ & _ & _ & _ & _ & _ & Hfree & -> & _)]; [done|].
  by apply insert_subseteq.
Qed.

Lemma downloadFrom_grows (fuel : nat) (url : string) (headers : gmap string (option string))
      (outDir : string) (retries : JS.number) (rounds : nat) :
  ∀ fs n lastErr did fs' r,
    downloadFrom fuel rounds fs url headers outDir retries n lastErr = Some (did, fs', r) →
    fs ⊆ fs'.
Proof.
  induction rounds as [|rounds IH]; intros fs n lastErr did fs' r;
    cbn [Downloader.downloadFrom];
    destruct (JS.leb (JS.of_Z n) retries); try discriminate;
    try (intros ?; by simplify_eq).
  destruct (attempt fuel fs url headers outDir (n + 1)) as [fs1 [outPath|err|]] eqn:Hattempt;
    try discriminate.
  - intros ?. simplify_eq. by eapply attempt_grows.
  - destruct (downloadFrom fuel rounds fs1 url headers outDir retries (n + 1) (Some err))
      as [[[did' fs2] r']|] eqn:Hrest; [|discriminate].
    intros ?. simplify_eq. etrans; [by eapply attempt_grows | by eapply IH].
Qed.

(** Each entry a run adds is a file. *)
Lemma downloadFrom_files (fuel : nat) (url : string) (headers : gmap string (option string))
      (outDir : string) (retries : JS.number) (rounds : nat) :
  ∀ fs n lastErr did fs' r p x,
    downloadFrom fuel rounds fs url headers outDir retries n lastErr = Some (did, fs', r) →
    fs !! p = None → fs' !! p = Some x → ∃ content, x = File content.
Proof.
  assert (Hone : ∀ fuel fs fs' n a p x,
            attempt fuel fs url headers outDir n = (fs', a) →
            fs !! p = None → fs' !! p = Some x → ∃ content, x = File content).
  { intros fuel0 fs fs' n a p x Hattempt Hnone Hsome.
    destruct (attempt_wrote _ _ _ _ _ _ _ _ Hattempt)
      as [[-> _]|(res & name & q & content & _ & _ & _ & _ & _ & _ & Hfree & -> & _)];
      [congruence|].
    apply lookup_insert_Some in Hsome as [[_ <-]|[_ Hsome]]; [eauto | congruence]. }
  induction rounds as [|rounds IH]; intros fs n lastErr did fs' r p x;
    cbn [Downloader.downloadFrom];
    destruct (JS.leb (JS.of_Z n) retries); try discriminate;
    try (intros ? ? ?; simplify_eq; congruence).
  destruct (attempt fuel fs url headers outDir (n + 1)) as [fs1 [outPath|err|]] eqn:Hattempt;
    try discriminate.
  - intros ? Hnone Hsome. simplify_eq. by eapply Hone.
  - destruct (downloadFrom fuel rounds fs1 url headers outDir retries (n + 1) (Some err))
      as [[[did' fs2] r']|] eqn:Hrest; [|discriminate].
    intros ? Hnone Hsome. simplify_eq.
    destruct (fs1 !! p) as [y|] eqn:Hp.
    + pose proof (downloadFrom_grows _ _ _ _ _ _ _ _ _ _ _ _ Hrest) as Hsub.
      rewrite (lookup_weaken _ _ _ _ Hp Hsub) in Hsome. simplify_eq. by eapply Hone.
    + by eapply IH.
Qed.

(** The successful attempt of a run that ends well is its last one. *)
Lemma downloadFrom_success (fuel : nat) (url : string) (headers : gmap string (option string))
      (outDir : string) (retries : JS.number) (rounds : nat) :
  ∀ fs n lastErr did fs' r,
    downloadFrom fuel rounds fs url headers outDir retries n lastErr = Some (did, fs', r) →
    ok_ r = true →
    ∃ fs0 p,
      fs ⊆ fs0
      ∧ attempt fuel fs0 url headers outDir (n + fetches did) = (fs', Saved p)
      ∧ r = {| Downloader.url := url; path := Some p; error := None; ok_ := true |}.
Proof.
  induction rounds as [|rounds IH]; intros fs n lastErr did fs' r;
    cbn [Downloader.downloadFrom];
    destruct (JS.leb (JS.of_Z n) retries); try discriminate;
    try (intros ? ?; simplify_eq; discriminate).
  destruct (attempt fuel fs url headers outDir (n + 1)) as [fs1 [outPath|err|]] eqn:Hattempt;
    try discriminate.
  - intros ? _. simplify_eq. exists fs, outPath.
    rewrite fetches_fetch, fetches_nil, Z.add_0_r. by split_and!.
  - destruct (downloadFrom fuel rounds fs1 url headers outDir retries (n + 1) (Some err))
      as [[[did' fs2] r']|] eqn:Hrest; [|discriminate].
    intros ? Hok. simplify_eq.
    destruct (IH _ _ _ _ _ _ Hrest Hok) as (fs0 & p & Hsub & Hlast & ->).
    exists fs0, p. split_and!; [|
      |reflexivity].
    + etrans; [by eapply attempt_grows | exact Hsub].
    + rewrite fetches_fetch.
      replace (n + (1 + fetches ((if JS.leb (JS.of_Z (n + 1)) retries
                                  then [Sleep (250 * (n + 1))] else []) ++ did')))
        with (n + 1 + fetches did'); [exact Hlast|].
      destruct (JS.leb (JS.of_Z (n + 1)) retries); cbn [app]; rewrite ?fetches_sleep; lia.
Qed.

(** The error a failed run reports is that of its last attempt. *)
Lemma downloadFrom_failure (fuel : nat) (url : string) (headers : gmap string (option string))
      (outDir : string) (retries : JS.number) (rounds : nat) :
  ∀ fs n lastErr did fs' r,
    downloadFrom fuel rounds fs url headers outDir retries n lastErr = Some (did, fs', r) →
    ok_ r = false →
    path r = None
    ∧ ((did = [] ∧ error r = Some (describe lastErr))
       ∨ (∃ fs0 fs1 e,
            attempt fuel fs0 url headers outDir (n + fetches did) = (fs1, Threw e)
            ∧ error r = Some (JS.error_toString e))).
Proof.
  induction rounds as [|rounds IH]; intros fs n lastErr did fs' r;
    cbn [Downloader.downloadFrom];
    destruct (JS.leb (JS.of_Z n) retries); try discriminate;
    try (intros ? ?; simplify_eq; split; [done | by left]).
  destruct (attempt fuel fs url headers outDir (n + 1)) as [fs1 [outPath|err|]] eqn:Hattempt;
    try discriminate.
  - intros ? ?. by simplify_eq.
  - destruct (downloadFrom fuel rounds fs1 url headers outDir retries (n + 1) (Some err))
      as [[[did' fs2] r']|] eqn:Hrest; [|discriminate].
    intros ? Hok. simplify_eq.
    destruct (IH _ _ _ _ _ _ Hrest Hok) as (Hpath & Hlast). split; [exact Hpath|]. right.
    assert (Hcount : n + fetches (Fetch url headers
                       :: (if JS.leb (JS.of_Z (n + 1)) retries
                           then [Sleep (250 * (n + 1))] else []) ++ did')
                     = n + 1 + fetches did').
    { rewrite fetches_fetch.
      destruct (JS.leb (JS.of_Z (n + 1)) retries); cbn [app]; rewrite ?fetches_sleep; lia. }
    rewrite Hcount.
    destruct Hlast as [[-> Herror]|(fs0 & fs3 & e & Hthrew & Herror)].
    + exists fs, fs1, err. rewrite fetches_nil, Z.add_0_r. by split.
    + by exists fs0, fs3, e.
Qed.

(** A run is a schedule: waits of 250 ms times the number of the failed
    attempt between the attempts and none after the last one. *)
Lemma downloadFrom_schedule (fuel : nat) (url : string) (headers : gmap string (option string))
      (outDir : string) (retries : JS.number) (rounds : nat) :
  ∀ fs n lastErr did fs' r,
    downloadFrom fuel rounds fs url headers outDir retries n lastErr = Some (did, fs', r) →
    (did = [] ∧ ok_ r = false ∧ JS.leb (JS.of_Z n) retries = false)
    ∨ ∃ m : nat,
        did = schedule url headers m (n + 1)
        ∧ JS.leb (JS.of_Z (n + Z.of_nat m)) retries = true
        ∧ (ok_ r = false → JS.leb (JS.of_Z (n + Z.of_nat m + 1)) retries = false).
Proof.
  induction rounds as [|rounds IH]; intros fs n lastErr did fs' r;
    cbn [Downloader.downloadFrom];
    destruct (JS.leb (JS.of_Z n) retries) eqn:Hleb; try discriminate;
    try (intros ?; simplify_eq; by left).
  destruct (attempt fuel fs url headers outDir (n + 1)) as [fs1 [outPath|err|]] eqn:Hattempt;
    try discriminate.
  - intros ?. simplify_eq. right. exists 0%nat. cbn [schedule].
    rewrite Z.add_0_r. by split_and!.
  - destruct (downloadFrom fuel rounds fs1 url headers outDir retries (n + 1) (Some err))
      as [[[did' fs2] r']|] eqn:Hrest; [|discriminate].
    intros ?. simplify_eq. right.
    destruct (IH _ _ _ _ _ _ Hrest) as [(-> & Hok & Hout)|(m & -> & Hin & Hout)].
    + exists 0%nat. rewrite Hout. cbn [schedule app]. rewrite Z.add_0_r. by split_and!.
    + exists (S m). assert (Hnext : JS.leb (JS.of_Z (n + 1)) retries = true).
      { clear Hout. destruct m; [by rewrite Z.add_0_r in Hin|].
        revert Hrest. destruct rounds; cbn [Downloader.downloadFrom];
          destruct (JS.leb (JS.of_Z (n + 1)) retries); try done. }
      rewrite Hnext. cbn [schedule app].
      replace (n + Z.of_nat (S m)) with (n + 1 + Z.of_nat m) by lia. by split_and!.
Qed.

End Runs.

End RunFacts.

(** X15: a download never touches what is already there.  Whatever the
    network answers and however the download ends, every path that
    existed before it exists afterwards with the same content, and every
    path it has added is a file. *)
Theorem X15_existing_files_are_kept
    (decodeURIComponent : string → option string) (uriError : JS.error)
    (pathnameOf : string → option string) (nullBody : JS.error)
    (net : Downloader.network) (fuel : nat) (fs fs' : gmap string Downloader.node)
    (url : string) (headers : gmap string (option string)) (outDir : string)
    (retries : JS.number) (did : list Downloader.event) (r : Downloader.outcome) :
  Downloader.downloadOne decodeURIComponent uriError pathnameOf nullBody net
    fuel fs url headers outDir retries = Some (did, fs', r) →
  (∀ p x, fs !! p = Some x → fs' !! p = Some x)
  ∧ (∀ p x, fs !! p = None → fs' !! p = Some x → ∃ content, x = Downloader.File content).
Proof.
  unfold Downloader.downloadOne. intros Hrun. split.
  - intros p x Hp. eapply lookup_weaken; [exact Hp|].
    by eapply RunFacts.downloadFrom_grows.
  - intros p x. by eapply RunFacts.downloadFrom_files.
Qed.

(** A second download of an address whose file is there already. *)
Lemma X15_existing_files_are_kept_witness :
  let res :=
    {| Fetch.status := 200; Fetch.contentType := Some "image/jpeg";
       Fetch.contentLength := None; Fetch.contentDisposition := None;
       Fetch.body := Some {| Fetch.chunks := [[xff; xd8; xff]]; Fetch.failure := None |} |} in
  let net : Downloader.network := λ _ _ _, Fetch.Resolved res in
  let fs : gmap string Downloader.node :=
    {[ "downloads" := Downloader.Dir; "downloads/1.jpg" := Downloader.File [x00] ]} in
  ∃ did fs' r,
    Downloader.downloadOne Some (JS.Error "URIError" "URI malformed") (λ _, Some "/img/1.jpg")
      (JS.Error "TypeError" "") net 3 fs "https://cdn.test/img/1.jpg" ∅ "downloads" (JS.of_Z 2)
    = Some (did, fs', r)
    ∧ fs' !! "downloads/1.jpg" = Some (Downloader.File [x00]).
Proof.
  intros res net fs.
  assert (Hrun : ∃ did fs' r,
            Downloader.downloadOne Some (JS.Error "URIError" "URI malformed")
              (λ _, Some "/img/1.jpg") (JS.Error "TypeError" "") net 3 fs
              "https://cdn.test/img/1.jpg" ∅ "downloads" (JS.of_Z 2)
            = Some (did, fs', r))
    by (eexists _, _, _; vm_compute; reflexivity).
  destruct Hrun as (did & fs' & r & Hrun). exists did, fs', r. split; [exact Hrun|].
  destruct (X15_existing_files_are_kept _ _ _ _ _ _ _ _ _ _ _ _ _ _ Hrun) as [Hkept _].
  apply Hkept. vm_compute. reflexivity.
Defined.

(** X16: what a successful download has saved.  When [downloadOne]
    reports [ok], its result carries a path and no error; the attempt
    that succeeded is the last fetch of the run; the response to it was a
    2xx with a declared image type and a body that ended without error;
    and the file at the reported path holds exactly the bytes of that
    body.  The path did not exist before the download.  It is the output
    directory joined with a file name made of letters, digits, dots,
    underscores and hyphens only, or with that name numbered. *)
Theorem X16_what_a_successful_download_saves
    (decodeURIComponent : string → option string) (uriError : JS.error)
    (pathnameOf : string → option string) (nullBody : JS.error)
    (net : Downloader.network) (fuel : nat) (fs fs' : gmap string Downloader.node)
    (url : string) (headers : gmap string (option string)) (outDir : string)
    (retries : JS.number) (did : list Downloader.event) (r : Downloader.outcome) :
  Downloader.downloadOne decodeURIComponent uriError pathnameOf nullBody net
    fuel fs url headers outDir retries = Some (did, fs', r) →
  Downloader.ok_ r = true →
  ∃ p res st name,
    r = {| Downloader.url := url; Downloader.path := Some p; Downloader.error := None;
           Downloader.ok_ := true |}
    ∧ last did = Some (Downloader.Fetch url headers)
    ∧ net url headers (Notions.fetches did) = Fetch.Resolved res
    ∧ Fetch.ok res = true
    ∧ JS.startsWith (JS.toLowerCase (default "" (Fetch.contentType res))) "image/" = true
    ∧ Fetch.body res = Some st
    ∧ Fetch.failure st = None
    ∧ fs' !! p = Some (Downloader.File (concat (Fetch.chunks st)))
    ∧ fs !! p = None
    ∧ Notions.safe name = true ∧ name ≠ ""
    ∧ (p = Path.join outDir name
       ∨ ∃ k, 1 ≤ k ∧ p = Path.join outDir (Downloader.numbered name k)).
Proof.
  unfold Downloader.downloadOne. intros Hrun Hok.
  destruct (RunFacts.downloadFrom_success _ _ _ _ _ _ _ _ _ _ _ _ _ _ _ _ _ Hrun Hok)
    as (fs0 & p & Hsub & Hlast & ->).
  rewrite Z.add_0_l in Hlast.
  destruct (RunFacts.attempt_wrote _ _ _ _ _ _ _ _ _ _ _ _ _ Hlast)
    as [[_ []]|(res & name & q & content & Hnet & Hres & Himage & Hsafe & Hne & Hq & Hfree
                & -> & -> & st & Hbody & Hfailure & ->)].
  exists q, res, st, name. split_and!; try done.
  - destruct (RunFacts.downloadFrom_schedule _ _ _ _ _ _ _ _ _ _ _ _ _ _ _ _ _ Hrun)
      as [(_ & Hfalse & _)|(m & -> & _)]; [discriminate|].
    clear. generalize (0 + 1). induction m as [|m IH]; intros n; [reflexivity|].
    cbn [Terms.schedule]. rewrite !last_cons.
    rewrite IH. reflexivity.
  - apply lookup_insert_eq.
  - destruct (fs !! q) as [x|] eqn:Hx; [|done].
    by rewrite (lookup_weaken _ _ _ _ Hx Hsub) in Hfree.
  - destruct (RunFacts.uniqueFrom_shape _ _ _ _ _ _ _ Hq) as [->|(k & Hk & ->)];
      [by left | right; by exists k].
Qed.

(** An image that arrives at the second attempt. *)
Lemma X16_what_a_successful_download_saves_witness :
  let res :=
    {| Fetch.status := 200; Fetch.contentType := Some "image/jpeg";
       Fetch.contentLength := None; Fetch.contentDisposition := None;
       Fetch.body := Some {| Fetch.chunks := [[xff; xd8]; [xff]]; Fetch.failure := None |} |} in
  let net : Downloader.network :=
    λ _ _ n, if n =? 1 then Fetch.Rejected (JS.Error "TypeError" "fetch failed")
             else Fetch.Resolved res in
  let fs : gmap string Downloader.node := {[ "downloads" := Downloader.Dir ]} in
  ∃ did fs' r p,
    Downloader.downloadOne Some (JS.Error "URIError" "URI malformed") (λ _, Some "/img/1.jpg")
      (JS.Error "TypeError" "") net 3 fs "https://cdn.test/img/1.jpg" ∅ "downloads" (JS.of_Z 2)
    = Some (did, fs', r)
    ∧ Downloader.path r = Some p
    ∧ fs !! p = None.
Proof.
  intros res net fs. eexists _, _, _.
  assert (Hrun : Downloader.downloadOne Some (JS.Error "URIError" "URI malformed")
                   (λ _, Some "/img/1.jpg") (JS.Error "TypeError" "") net 3 fs
                   "https://cdn.test/img/1.jpg" ∅ "downloads" (JS.of_Z 2)
                 = Some ([Downloader.Fetch "https://cdn.test/img/1.jpg" ∅;
                          Downloader.Sleep 250;
                          Downloader.Fetch "https://cdn.test/img/1.jpg" ∅],
                         <["downloads/1.jpg" := Downloader.File [xff; xd8; xff]]> fs,
                         {| Downloader.url := "https://cdn.test/img/1.jpg";
                            Downloader.path := Some "downloads/1.jpg";
                            Downloader.error := None; Downloader.ok_ := true |}))
    by (vm_compute; reflexivity).
  destruct (X16_what_a_successful_download_saves _ _ _ _ _ _ _ _ _ _ _ _ _ _ Hrun eq_refl)
    as (p & res' & st & name & Hr & _ & _ & _ & _ & _ & _ & _ & Hfree & _).
  exists p. split; [exact Hrun|]. split; [|exact Hfree].
  by injection Hr as <-.
Defined.

Module ScheduleFacts.
Import Downloader Terms Notions.

Lemma fetches_schedule (url : string) (headers : gmap string (option string)) (m : nat) :
  ∀ n, fetches (schedule url headers m n) = Z.of_nat m + 1.
Proof.
  induction m as [|m IH]; intros n; cbn [schedule].
  - by rewrite RunFacts.fetches_fetch, RunFacts.fetches_nil.
  - rewrite RunFacts.fetches_fetch, RunFacts.fetches_sleep, IH. lia.
Qed.

(** No attempt is made when [0 <= retries] is false. *)
Lemma no_attempt (retries : JS.number) :
  retries ≠ JS.Infinity false →
  (JS.leb (JS.of_Z 0) retries = false ↔ attemptsOf retries = 0%nat).
Proof.
  intros Hinf. destruct retries as [|[|]|q]; try done.
  cbn [attemptsOf]. split.
  - intros Hleb. destruct (Z_le_gt_dec 0 (Qfloor q)) as [Hle|]; [|lia].
    apply RetryFacts.leb_floor in Hle. congruence.
  - intros Hnone. destruct (JS.leb (JS.of_Z 0) (JS.Finite q)) eqn:Hleb; [|done].
    apply RetryFacts.leb_floor in Hleb. lia.
Qed.

End ScheduleFacts.

(** X17: the attempts and the waits of a download, whatever the network
    does.  The events of a run are fetches of the same URL with the same
    headers, with a wait of 250 ms times the number of the failed attempt
    between two of them and no wait after the last.  Unless [retries] is
    plus infinity, a run makes at most as many fetches as the floor of
    [retries] plus one (none when [retries] is negative or not a
    number), and a run that ends as a failure has made all of them: it
    does not give up early. *)
Theorem X17_attempts_and_waits
    (decodeURIComponent : string → option string) (uriError : JS.error)
    (pathnameOf : string → option string) (nullBody : JS.error)
    (net : Downloader.network) (fuel : nat) (fs fs' : gmap string Downloader.node)
    (url : string) (headers : gmap string (option string)) (outDir : string)
    (retries : JS.number) (did : list Downloader.event) (r : Downloader.outcome) :
  Downloader.downloadOne decodeURIComponent uriError pathnameOf nullBody net
    fuel fs url headers outDir retries = Some (did, fs', r) →
  (did = [] ∨ ∃ m : nat, did = Terms.schedule url headers m 1)
  ∧ (did = [] → Downloader.ok_ r = false)
  ∧ (retries ≠ JS.Infinity false →
     Notions.fetches did ≤ Z.of_nat (Terms.attemptsOf retries)
     ∧ (Downloader.ok_ r = false →
        Notions.fetches did = Z.of_nat (Terms.attemptsOf retries))).
Proof.
  unfold Downloader.downloadOne. intros Hrun.
  destruct (RunFacts.downloadFrom_schedule _ _ _ _ _ _ _ _ _ _ _ _ _ _ _ _ _ Hrun)
    as [(-> & Hok & Hout)|(m & -> & Hin & Hout)].
  - split; [by left|]. split; [done|]. intros Hinf.
    apply ScheduleFacts.no_attempt in Hout; [|exact Hinf].
    rewrite Hout, RunFacts.fetches_nil. done.
  - rewrite Z.add_0_l in *. change (0 + 1) with 1.
    split; [right; by exists m|]. split; [by destruct m|]. intros Hinf.
    rewrite ScheduleFacts.fetches_schedule.
    destruct retries as [|[|]|q]; try done.
    cbn [Terms.attemptsOf]. apply RetryFacts.leb_floor in Hin. split; [lia|].
    intros Hok. specialize (Hout Hok).
    destruct (Z_le_gt_dec (Z.of_nat m + 1) (Qfloor q)) as [Hle|]; [|lia].
    apply RetryFacts.leb_floor in Hle. congruence.
Qed.

(** A download that succeeds at the second of three possible attempts. *)
Lemma X17_attempts_and_waits_witness :
  let res :=
    {| Fetch.status := 200; Fetch.contentType := Some "image/jpeg";
       Fetch.contentLength := None; Fetch.contentDisposition := None;
       Fetch.body := Some {| Fetch.chunks := [[xff; xd8; xff]]; Fetch.failure := None |} |} in
  let net : Downloader.network :=
    λ _ _ n, if n =? 1 then Fetch.Rejected (JS.Error "TypeError" "fetch failed")
             else Fetch.Resolved res in
  let fs : gmap string Downloader.node := {[ "downloads" := Downloader.Dir ]} in
  ∃ did fs' r,
    Downloader.downloadOne Some (JS.Error "URIError" "URI malformed") (λ _, Some "/img/1.jpg")
      (JS.Error "TypeError" "") net 3 fs "https://cdn.test/img/1.jpg" ∅ "downloads" (JS.of_Z 2)
    = Some (did, fs', r)
    ∧ Notions.fetches did ≤ 3.
Proof.
  intros res net fs.
  assert (Hrun : ∃ did fs' r,
            Downloader.downloadOne Some (JS.Error "URIError" "URI malformed")
              (λ _, Some "/img/1.jpg") (JS.Error "TypeError" "") net 3 fs
              "https://cdn.test/img/1.jpg" ∅ "downloads" (JS.of_Z 2)
            = Some (did, fs', r))
    by (eexists _, _, _; vm_compute; reflexivity).
  destruct Hrun as (did & fs' & r & Hrun). exists did, fs', r. split; [exact Hrun|].
  destruct (X17_attempts_and_waits _ _ _ _ _ _ _ _ _ _ _ _ _ _ Hrun) as (_ & _ & Hbound).
  destruct (Hbound ltac:(discriminate)) as [Hle _]. exact Hle.
Defined.

(** X18: a negative number of retries switches the download off.  When
    [retries] is negative, not a number or minus infinity, [downloadOne]
    makes no fetch and no wait, leaves the file system alone and reports
    a failure whose error text is [null].  The argument parser lets such
    a value through: [--retry -1] sets [retries] to -1. *)
Theorem X18_negative_retries_make_no_attempt
    (decodeURIComponent : string → option string) (uriError : JS.error)
    (pathnameOf : string → option string) (nullBody : JS.error)
    (net : Downloader.network) (fuel : nat) (fs : gmap string Downloader.node)
    (url : string) (headers : gmap string (option string)) (outDir : string)
    (retries : JS.number) :
  (retries = JS.NaN ∨ retries = JS.Infinity true
   ∨ ∃ q, retries = JS.Finite q ∧ (q < 0)%Q) →
  Downloader.downloadOne decodeURIComponent uriError pathnameOf nullBody net
    fuel fs url headers outDir retries
  = Some ([], fs, {| Downloader.url := url; Downloader.path := None;
                     Downloader.error := Some "null"; Downloader.ok_ := false |})
  ∧ (∀ rest o, Downloader.parseFrom ("--retry" :: "-1" :: rest) o
               = Downloader.parseFrom rest (Downloader.setRetries (JS.of_Z (-1)) o)).
Proof.
  intros Hretries. split; [|reflexivity].
  assert (Hleb : JS.leb (JS.of_Z 0) retries = false).
  { destruct Hretries as [->|[->|(q & -> & Hq)]]; [reflexivity..|].
    unfold JS.of_Z. cbn [JS.leb]. destruct (Qle_bool (inject_Z 0) q) eqn:Hle; [|done].
    apply Qle_bool_iff in Hle. exfalso. apply (Qlt_irrefl q).
    eapply Qlt_le_trans; [exact Hq | exact Hle]. }
  unfold Downloader.downloadOne. destruct fuel; cbn [Downloader.downloadFrom];
    by rewrite Hleb.
Qed.

(** [--retry -1] *)
Lemma X18_negative_retries_make_no_attempt_witness :
  Downloader.downloadOne Some (JS.Error "URIError" "URI malformed") (λ _, Some "/img/1.jpg")
    (JS.Error "TypeError" "") (λ _ _ _, Fetch.Rejected (JS.Error "TypeError" "fetch failed"))
    3 ∅ "https://cdn.test/img/1.jpg" ∅ "downloads" (JS.of_Z (-1))
  = Some ([], ∅, {| Downloader.url := "https://cdn.test/img/1.jpg"; Downloader.path := None;
                    Downloader.error := Some "null"; Downloader.ok_ := false |}).
Proof.
  apply (X18_negative_retries_make_no_attempt Some (JS.Error "URIError" "URI malformed")
           (λ _, Some "/img/1.jpg") (JS.Error "TypeError" "")
           (λ _ _ _, Fetch.Rejected (JS.Error "TypeError" "fetch failed"))
           3 ∅ "https://cdn.test/img/1.jpg" ∅ "downloads" (JS.of_Z (-1))).
  right. right. exists (inject_Z (-1)). split; [reflexivity | reflexivity].
Defined.

(** X19: the error a failed download reports.  A download that has made
    at least one attempt and ends as a failure has no path, and its error
    is the text of the error of its last attempt, not of an earlier one:
    the text of the rejection when the last fetch was rejected,
    [Error: HTTP <status>] when the last response was not a 2xx, and
    [Error: Content-Type not image/* (<type>)], with the declared type as
    it was sent, when the last response did not declare an image type. *)
Theorem X19_error_of_a_failed_download
    (decodeURIComponent : string → option string) (uriError : JS.error)
    (pathnameOf : string → option string) (nullBody : JS.error)
    (net : Downloader.network) (fuel : nat) (fs fs' : gmap string Downloader.node)
    (url : string) (headers : gmap string (option string)) (outDir : string)
    (retries : JS.number) (did : list Downloader.event) (r : Downloader.outcome) :
  Downloader.downloadOne decodeURIComponent uriError pathnameOf nullBody net
    fuel fs url headers outDir retries = Some (did, fs', r) →
  Downloader.ok_ r = false →
  did ≠ [] →
  Downloader.path r = None
  ∧ (∀ err, net url headers (Notions.fetches did) = Fetch.Rejected err →
            Downloader.error r = Some (JS.error_toString err))
  ∧ (∀ res, net url headers (Notions.fetches did) = Fetch.Resolved res →
            Fetch.ok res = false →
            Downloader.error r = Some ("Error: HTTP " +:+ pretty (Fetch.status res)))
  ∧ (∀ res, net url headers (Notions.fetches did) = Fetch.Resolved res →
            Fetch.ok res = true →
            JS.startsWith (JS.toLowerCase (default "" (Fetch.contentType res))) "image/"
            = false →
            Downloader.error r
            = Some ("Error: Content-Type not image/* ("
                    +:+ default "" (Fetch.contentType res) +:+ ")")).
Proof.
  unfold Downloader.downloadOne. intros Hrun Hok Hdid.
  destruct (RunFacts.downloadFrom_failure _ _ _ _ _ _ _ _ _ _ _ _ _ _ _ _ _ Hrun Hok)
    as (Hpath & [[-> _]|(fs0 & fs1 & e & Hlast & Herror)]); [done|].
  rewrite Z.add_0_l in Hlast. split; [exact Hpath|].
  revert Hlast. unfold Downloader.attempt.
  destruct (net url headers (Notions.fetches did)) as [err|res].
  - intros ?. simplify_eq. split_and!; intros; by simplify_eq.
  - destruct (Fetch.ok res) eqn:Hres; cbn [negb].
    + destruct (JS.startsWith _ _) eqn:Himage; cbn [negb].
      * intros _. split_and!; intros; simplify_eq; congruence.
      * intros ?. simplify_eq. split_and!; intros; simplify_eq; try congruence;
          by rewrite Herror.
    + intros ?. simplify_eq. split_and!; intros; simplify_eq; try congruence;
        by rewrite Herror.
Qed.

(** An address that answers 503 after a rejected first attempt. *)
Lemma X19_error_of_a_failed_download_witness :
  let res :=
    {| Fetch.status := 503; Fetch.contentType := Some "text/html";
       Fetch.contentLength := None; Fetch.contentDisposition := None;
       Fetch.body := None |} in
  let net : Downloader.network :=
    λ _ _ n, if n =? 1 then Fetch.Rejected (JS.Error "TypeError" "fetch failed")
             else Fetch.Resolved res in
  ∃ did fs' r,
    Downloader.downloadOne Some (JS.Error "URIError" "URI malformed") (λ _, Some "/img/1.jpg")
      (JS.Error "TypeError" "") net 3 ∅ "https://cdn.test/img/1.jpg" ∅ "downloads" (JS.of_Z 1)
    = Some (did, fs', r)
    ∧ Downloader.error r = Some "Error: HTTP 503".
Proof.
  intros res net.
  assert (Hrun : Downloader.downloadOne Some (JS.Error "URIError" "URI malformed")
                   (λ _, Some "/img/1.jpg") (JS.Error "TypeError" "") net 3 ∅
                   "https://cdn.test/img/1.jpg" ∅ "downloads" (JS.of_Z 1)
                 = Some ([Downloader.Fetch "https://cdn.test/img/1.jpg" ∅;
                          Downloader.Sleep 250;
                          Downloader.Fetch "https://cdn.test/img/1.jpg" ∅],
                         ∅,
                         {| Downloader.url := "https://cdn.test/img/1.jpg";
                            Downloader.path := None;
                            Downloader.error := Some "Error: HTTP 503";
                            Downloader.ok_ := false |}))
    by (vm_compute; reflexivity).
  eexists _, _, _. split; [exact Hrun|].
  destruct (X19_error_of_a_failed_download _ _ _ _ _ _ _ _ _ _ _ _ _ _ Hrun eq_refl
              ltac:(discriminate)) as (_ & _ & Hstatus & _).
  apply (Hstatus res); reflexivity.
Defined.

(** ** The file name in a [Content-Disposition] header *)

Module DispositionFacts.
Import Disposition Notions.

Lemma span_every (p : ascii → bool) (s : string) : every p (span p s) = true.
Proof.
  induction s as [|c r IH]; [reflexivity|]. cbn [span].
  destruct (p c) eqn:Hc; [|reflexivity]. cbn [every]. by rewrite Hc, IH.
Qed.

Lemma span_prefix (p : ascii → bool) (s : string) : ∃ post, s = span p s +:+ post.
Proof.
  induction s as [|c r [post IH]]; [by exists ""|]. cbn [span].
  destruct (p c).
  - exists post. by rewrite PathFacts.app_cons, <- IH.
  - exists (String c r). by rewrite PathFacts.app_empty.
Qed.

Lemma span_whole (p : ascii → bool) (s post : string) :
  every p s = true →
  match post with EmptyString => True | String c _ => p c = false end →
  span p (s +:+ post) = s.
Proof.
  intros Hs Hpost. induction s as [|c r IH].
  - rewrite PathFacts.app_empty. destruct post as [|c q]; [reflexivity|].
    cbn [span]. by rewrite Hpost.
  - cbn [every] in Hs. apply andb_true_iff in Hs as [Hc Hr].
    rewrite PathFacts.app_cons. cbn [span]. by rewrite Hc, IH.
Qed.

Lemma every_weaken (p q : ascii → bool) (s : string) :
  (∀ c, p c = true → q c = true) → every p s = true → every q s = true.
Proof.
  intros Hpq. induction s as [|c r IH]; [reflexivity|]. cbn [every].
  intros [Hc Hr]%andb_true_iff. by rewrite (Hpq _ Hc), IH.
Qed.

Lemma no_quote_no_semicolon (c : ascii) : notQuoteSemicolon c = true → notSemicolon c = true.
Proof. unfold notQuoteSemicolon. by intros [_ ?]%andb_true_iff. Qed.

Lemma eat_split (lit s r : string) :
  eat lit s = Some r → s = JS.take (String.length lit) s +:+ r.
Proof.
  unfold eat. case_if; [|discriminate]. intros ?. simplify_eq.
  by rewrite StemFacts.take_drop.
Qed.

(** What a match at the front of [s] has captured. *)
Lemma here_captured (s g : string) :
  here s = Some g →
  g ≠ "" ∧ every notSemicolon g = true ∧ ∃ pre post, s = pre +:+ g +:+ post.
Proof.
  unfold here, extended, plain.
  destruct (eat "filename*=utf-8''" s) as [r|] eqn:Hfirst.
  - destruct (String.eqb_spec (span notSemicolon r) "") as [Hempty|Hfull].
    + destruct (eat "filename=" s) as [r2|] eqn:Hsecond; [|discriminate].
      exfalso. unfold eat in Hfirst, Hsecond.
      destruct s as [|? [|? [|? [|? [|? [|? [|? [|? [|? ?]]]]]]]]];
        revert Hfirst Hsecond; cbn [String.length JS.take JS.toLowerCase String.eqb];
        try discriminate;
        repeat match goal with
               | |- context [Ascii.eqb ?x ?y] =>
                   destruct (Ascii.eqb_spec x y); try discriminate; try congruence
               end.
    + intros ?. simplify_eq. split; [exact Hfull|]. split; [apply span_every|].
      destruct (span_prefix notSemicolon r) as [post Hpost].
      exists (JS.take (String.length "filename*=utf-8''") s), post.
      rewrite <- Hpost. by apply eat_split.
  - destruct (eat "filename=" s) as [r|] eqn:Hsecond; [|discriminate].
    set (r' := match r with
               | String c q => if Ascii.eqb c quote then q else r
               | EmptyString => r
               end).
    destruct (String.eqb_spec (span notQuoteSemicolon r') "") as [|Hfull]; [discriminate|].
    intros ?. simplify_eq. split; [exact Hfull|].
    split; [eapply every_weaken; [apply no_quote_no_semicolon | apply span_every]|].
    destruct (span_prefix notQuoteSemicolon r') as [post Hpost].
    apply eat_split in Hsecond.
    destruct r as [|c q]; [by destruct Hfull|].
    subst r'. destruct (Ascii.eqb c quote).
    + exists (JS.take (String.length "filename=") s +:+ String c ""), post.
      rewrite !PathFacts.app_assoc, PathFacts.app_cons, PathFacts.app_empty.
      by rewrite <- Hpost.
    + exists (JS.take (String.length "filename=") s), post. by rewrite <- Hpost.
Qed.

Lemma exec_captured (s g : string) :
  exec s = Some g →
  g ≠ "" ∧ every notSemicolon g = true ∧ ∃ pre post, s = pre +:+ g +:+ post.
Proof.
  induction s as [|c r IH]; cbn [exec].
  - intros Hnone. by vm_compute in Hnone.
  - destruct (here (String c r)) as [g'|] eqn:Hhere.
    + intros ?. simplify_eq. by apply here_captured.
    + intros Hr. destruct (IH Hr) as (Hne & Hevery & pre & post & ->).
      split; [exact Hne|]. split; [exact Hevery|].
      exists (String c pre), post. by rewrite PathFacts.app_cons.
Qed.

Lemma exec_skip (c : ascii) (r : string) : here (String c r) = None → exec (String c r) = exec r.
Proof. intros Hnone. cbn [exec]. by rewrite Hnone. Qed.

Lemma exec_here (s g : string) : here s = Some g → exec s = Some g.
Proof. intros Hg. destruct s; cbn [exec]; by rewrite Hg. Qed.

(** A name after [filename=], in quotes or not. *)
Lemma plain_name (name rest : string) :
  name ≠ "" → every notQuoteSemicolon name = true →
  match rest with EmptyString => True | String c _ => notQuoteSemicolon c = false end →
  here ("filename=" +:+ name +:+ rest) = Some name
  ∧ here ("filename=" +:+ String quote (name +:+ rest)) = Some name.
Proof.
  intros Hne Hname Hrest.
  assert (Hfirst : ∀ tail, extended ("filename=" +:+ tail) = None).
  { intros tail. unfold extended, eat.
    rewrite !PathFacts.app_cons, PathFacts.app_empty. vm_compute. reflexivity. }
  assert (Hsecond : ∀ tail, eat "filename=" ("filename=" +:+ tail) = Some tail).
  { intros tail. unfold eat. rewrite !PathFacts.app_cons, PathFacts.app_empty. reflexivity. }
  destruct name as [|c name]; [done|]. clear Hne.
  assert (Hc : Ascii.eqb c quote = false).
  { cbn [every] in Hname. apply andb_true_iff in Hname as [Hc _].
    unfold notQuoteSemicolon in Hc. apply andb_true_iff in Hc as [Hc _].
    by apply negb_true_iff in Hc. }
  unfold here. rewrite !Hfirst. unfold plain. rewrite !Hsecond.
  rewrite PathFacts.app_cons, Hc.
  change (Ascii.eqb quote quote) with true. cbv iota.
  rewrite <- PathFacts.app_cons.
  rewrite (span_whole _ _ _ Hname Hrest). by split.
Qed.

End DispositionFacts.

(** X20: the file name [filenameFromDisposition] finds.  What the
    regular expression captures is a piece of the header, is never empty
    and holds no semicolon.  For a header of the usual form,
    [attachment; filename=] followed by a name, in double quotes or not,
    that is not empty and has neither a double quote nor a semicolon in
    it, the capture is that name.  When the capture cannot be decoded the
    relay falls back to the capture as it stands, while in the downloader
    the error is thrown (and fails the attempt). *)
Theorem X20_file_name_of_a_disposition :
  (∀ d v, Disposition.exec d = Some v →
          v ≠ "" ∧ Notions.every Disposition.notSemicolon v = true
          ∧ ∃ pre post, d = pre +:+ v +:+ post)
  ∧ (∀ name, name ≠ "" → Notions.every Disposition.notQuoteSemicolon name = true →
       Disposition.exec ("attachment; filename=" +:+ name) = Some name
       ∧ Disposition.exec ("attachment; filename="
                           +:+ String Disposition.quote (name +:+ String Disposition.quote ""))
         = Some name)
  ∧ (∀ decodeURIComponent uriError d v,
       d ≠ "" → Disposition.exec d = Some v → decodeURIComponent v = None →
       Relay.filenameFromDisposition decodeURIComponent (Some d) = Some v
       ∧ Downloader.filenameFromDisposition decodeURIComponent uriError (Some d)
         = inl uriError).
Proof.
  split_and!.
  - apply DispositionFacts.exec_captured.
  - intros name Hne Hname.
    assert (Hskip : ∀ tail, Disposition.exec ("attachment; filename=" +:+ tail)
                            = Disposition.exec ("filename=" +:+ tail)).
    { intros tail. rewrite !PathFacts.app_cons, !PathFacts.app_empty.
      do 12 (rewrite DispositionFacts.exec_skip; [|vm_compute; reflexivity]).
      reflexivity. }
    rewrite !Hskip.
    destruct (DispositionFacts.plain_name name "" Hne Hname I) as [Hbare _].
    destruct (DispositionFacts.plain_name name (String Disposition.quote "") Hne Hname eq_refl)
      as [_ Hquoted].
    rewrite StemFacts.app_empty_r in Hbare.
    split; by apply DispositionFacts.exec_here.
  - intros decodeURIComponent uriError d v Hd Hv Hdecode.
    unfold Relay.filenameFromDisposition, Downloader.filenameFromDisposition.
    rewrite (proj2 (String.eqb_neq d "")) by exact Hd. by rewrite Hv, Hdecode.
Qed.

(** A quoted name with a space in it. *)
Lemma X20_file_name_of_a_disposition_witness :
  Disposition.exec ("attachment; filename="
                    +:+ String Disposition.quote ("my photo.jpg" +:+ String Disposition.quote ""))
  = Some "my photo.jpg".
Proof.
  destruct X20_file_name_of_a_disposition as (_ & Hname & _).
  destruct (Hname "my photo.jpg") as [_ Hquoted]; [discriminate | reflexivity |].
  exact Hquoted.
Defined.

(** ** File names *)

(** X21: the file names the programs make.  Replacing the characters
    outside [a-zA-Z0-9._-] by underscores gives a name that has only such
    characters, hence no slash; it leaves exactly the names alone that
    have only such characters, so it changes nothing when it is applied a
    second time, and it never makes a name empty that was not.  The
    relay's [sanitizeFilename] puts [file] for a missing or empty name;
    the downloader's [pickFilenameFromUrl] gives [file] when the URL
    cannot be parsed or its path has no last segment, and never an empty
    name. *)
Theorem X21_sanitised_names :
  (∀ s, Notions.safe (Downloader.sanitizeName s) = true
        ∧ Terms.slashFree (Downloader.sanitizeName s) = true
        ∧ (Downloader.sanitizeName s = s ↔ Notions.safe s = true)
        ∧ Downloader.sanitizeName (Downloader.sanitizeName s) = Downloader.sanitizeName s
        ∧ (Downloader.sanitizeName s = "" ↔ s = ""))
  ∧ (Relay.sanitizeFilename None = "file" ∧ Relay.sanitizeFilename (Some "") = "file")
  ∧ (∀ s, s ≠ "" → Relay.sanitizeFilename (Some s) = Downloader.sanitizeName s)
  ∧ (∀ pathnameOf u,
       Notions.safe (Downloader.pickFilenameFromUrl pathnameOf u) = true
       ∧ Downloader.pickFilenameFromUrl pathnameOf u ≠ ""
       ∧ (pathnameOf u = None ∨ (∃ p, pathnameOf u = Some p ∧ Path.basename p = "") →
          Downloader.pickFilenameFromUrl pathnameOf u = "file")
       ∧ (∀ p, pathnameOf u = Some p → Path.basename p ≠ "" →
               Downloader.pickFilenameFromUrl pathnameOf u
               = Downloader.sanitizeName (Path.basename p))).
Proof.
  split_and!.
  - intros s. unfold Downloader.sanitizeName. split_and!.
    + apply ReplyFacts.safe_replace.
    + apply StemFacts.sanitizeName_slashFree.
    + split; [intros <-; apply ReplyFacts.safe_replace | apply ReplyFacts.replace_safe].
    + apply ReplyFacts.replace_safe, ReplyFacts.safe_replace.
    + split; [by destruct s | by intros ->].
  - reflexivity.
  - reflexivity.
  - intros s Hs. unfold Relay.sanitizeFilename, Downloader.sanitizeName. cbn [Relay.orElse].
    by rewrite (proj2 (String.eqb_neq s "")) by exact Hs.
  - intros pathnameOf u.
    destruct (RunFacts.pick_safe pathnameOf u) as [Hsafe Hne]. split_and!; try done.
    + unfold Downloader.pickFilenameFromUrl. intros [->|(p & -> & ->)]; reflexivity.
    + intros p Hp Hbase. unfold Downloader.pickFilenameFromUrl. rewrite Hp.
      by rewrite (proj2 (String.eqb_neq _ "")) by exact Hbase.
Qed.

(** A name with a path in it. *)
Lemma X21_sanitised_names_witness :
  Relay.sanitizeFilename (Some "../etc/pass wd") = ".._etc_pass_wd".
Proof.
  destruct X21_sanitised_names as (_ & _ & Hname & _).
  rewrite (Hname "../etc/pass wd"); [reflexivity | discriminate].
Defined.

(** ** Header lines *)

Module LineFacts.
Import Notions.

Lemma indexOf_colon (k rest : string) :
  every notColon k = true → JS.indexOf ":" (k +:+ String ":" rest) = Some (String.length k).
Proof.
  induction k as [|c k IH]; intros Hk.
  - rewrite PathFacts.app_empty. reflexivity.
  - cbn [every] in Hk. apply andb_true_iff in Hk as [Hc Hk].
    rewrite PathFacts.app_cons. cbn [JS.indexOf String.length].
    unfold notColon in Hc. apply negb_true_iff in Hc.
    rewrite Ascii.eqb_sym in Hc. rewrite Hc. by rewrite IH.
Qed.

Lemma take_app (k rest : string) : JS.take (String.length k) (k +:+ rest) = k.
Proof.
  induction k as [|c k IH]; [by destruct rest|].
  rewrite PathFacts.app_cons. cbn [String.length JS.take]. by rewrite IH.
Qed.

Lemma drop_app (k rest : string) : JS.drop (String.length k) (k +:+ rest) = rest.
Proof.
  induction k as [|c k IH]; [by rewrite PathFacts.app_empty; destruct rest|].
  rewrite PathFacts.app_cons. cbn [String.length JS.drop]. exact IH.
Qed.

(** A line is cut at its first colon. *)
Lemma cut (k v : string) :
  k ≠ "" → every notColon k = true →
  ∃ i, JS.indexOf ":" (k +:+ String ":" v) = Some (S i)
       ∧ JS.take (S i) (k +:+ String ":" v) = k
       ∧ JS.drop (S (S i)) (k +:+ String ":" v) = v.
Proof.
  intros Hne Hk. destruct k as [|c k]; [done|].
  exists (String.length k). split; [by rewrite indexOf_colon|].
  change (S (String.length k)) with (String.length (String c k)).
  split; [apply take_app|].
  replace (S (String.length (String c k)))
    with (String.length (String c k +:+ ":"))
    by (rewrite PathFacts.app_length; cbn [String.length]; lia).
  replace (String c k +:+ String ":" v) with ((String c k +:+ ":") +:+ v)
    by (by rewrite PathFacts.app_assoc).
  apply drop_app.
Qed.

End LineFacts.

(** X22: a header line is cut at its first colon.  For a line made of a
    name that is not empty and has no colon, a colon and a value, the
    relay's [header] parameter and the downloader's [--header] option
    take the part before the colon, without the white space around it, as
    the name of a header, and the rest, without the white space around
    it, as its value; the value may have colons of its own.  So the line
    [k: v] that [handlePostImage] makes of an entry of [headers] is read
    as the header [k] with the value [v].  The header of that name is set
    to that value, and no other header is touched, with three exceptions.
    The name [__proto__] sets nothing, in the relay and in the
    downloader.  In the relay a name that is empty once the white space
    is gone sets nothing, and a name that reads [cookie] in any letter
    case is merged into the [Cookie] header like a [cookie] parameter.
    A line without a colon, or with nothing before its first colon, is
    dropped without notice. *)
Theorem X22_header_lines (k v : string) :
  k ≠ "" →
  Notions.every Notions.notColon k = true →
  let name := JS.trim k in
  let value := JS.trim v in
  (∀ h, Relay.pushLine h (k +:+ ":" +:+ v) = Relay.pushHeader h name value)
  ∧ (∀ h, Relay.pushLine h (k +:+ ": " +:+ v) = Relay.pushHeader h name value)
  ∧ (∀ o, Downloader.headerFlag (Some (k +:+ ":" +:+ v)) o
          = Downloader.setHeader name (Some value) o)
  ∧ (∀ h, name ≠ "" → JS.toLowerCase name ≠ "cookie" → name ≠ "__proto__" →
          Relay.pushHeader h name value = <[name := value]> h)
  ∧ (∀ h, name = "" ∨ name = "__proto__" → Relay.pushHeader h name value = h)
  ∧ (∀ h, JS.toLowerCase name = "cookie" →
          Relay.pushHeader h name value = Relay.pushHeader h "Cookie" value)
  ∧ (∀ o, name ≠ "__proto__" →
          Downloader.setHeader name (Some value) o
          = {| Downloader.urls := Downloader.urls o;
               Downloader.headers := <[name := Some value]> (Downloader.headers o);
               Downloader.outDir := Downloader.outDir o;
               Downloader.concurrency := Downloader.concurrency o;
               Downloader.retries := Downloader.retries o;
               Downloader.input := Downloader.input o |})
  ∧ (∀ o, name = "__proto__" → Downloader.setHeader name (Some value) o = o)
  ∧ (∀ h line, JS.indexOf ":" line = None ∨ JS.startsWith line ":" = true →
               Relay.pushLine h line = h)
  ∧ (∀ o line, JS.indexOf ":" line = None ∨ JS.startsWith line ":" = true →
               Downloader.headerFlag (Some line) o = o).
Proof.
  intros Hne Hk name value.
  assert (Hfront : ∀ line, JS.indexOf ":" line = None ∨ JS.startsWith line ":" = true →
                           JS.indexOf ":" line = None ∨ JS.indexOf ":" line = Some O).
  { intros line [Hnone|Hcolon]; [by left | right].
    destruct line as [|c line]; [discriminate|].
    unfold JS.startsWith in Hcolon. cbn [String.prefix] in Hcolon.
    cbn [JS.indexOf]. destruct (Ascii.eqb_spec ":" c) as [<-|Hc]; [reflexivity|].
    exfalso. by destruct (ascii_dec ":" c). }
  assert (Hname : name = JS.trim k) by reflexivity.
  assert (Hvalue : value = JS.trim v) by reflexivity.
  clearbody name value.
  split_and!.
  - intros h. rewrite PathFacts.app_cons, PathFacts.app_empty.
    destruct (LineFacts.cut k v Hne Hk) as (i & Hi & Htake & Hdrop).
    unfold Relay.pushLine. by rewrite Hi, Htake, Hdrop, Hname, Hvalue.
  - intros h. rewrite PathFacts.app_cons.
    destruct (LineFacts.cut k (" " +:+ v) Hne Hk) as (i & Hi & Htake & Hdrop).
    unfold Relay.pushLine. rewrite Hi, Htake, Hdrop, Hname, Hvalue.
    by rewrite PathFacts.app_cons, PathFacts.app_empty.
  - intros o. rewrite PathFacts.app_cons, PathFacts.app_empty.
    destruct (LineFacts.cut k v Hne Hk) as (i & Hi & Htake & Hdrop).
    unfold Downloader.headerFlag. by rewrite Hi, Htake, Hdrop, Hname, Hvalue.
  - intros h Hfull Hcookie Hproto. unfold Relay.pushHeader.
    destruct (String.eqb_spec name ""); [done|].
    destruct (String.eqb_spec (JS.toLowerCase name) "cookie"); [done|].
    by apply ObjectFacts.assign_insert.
  - intros h [Hnone | Hproto]; rewrite ?Hnone, ?Hproto; reflexivity.
  - intros h Hcookie. unfold Relay.pushHeader. rewrite Hcookie.
    destruct (String.eqb_spec name "") as [Hnone|_]; [|reflexivity].
    rewrite Hnone in Hcookie. discriminate Hcookie.
  - intros o Hproto. unfold Downloader.setHeader.
    by rewrite ObjectFacts.assign_insert.
  - intros o Hproto. rewrite Hproto. by destruct o.
  - intros h line Hline. unfold Relay.pushLine.
    by destruct (Hfront line Hline) as [-> | ->].
  - intros o line Hline. unfold Downloader.headerFlag.
    by destruct (Hfront line Hline) as [-> | ->].
Qed.

(** A referer, with the colon of its scheme. *)
Lemma X22_header_lines_witness :
  Relay.pushLine ∅ "Referer: https://site.test/page"
  = <["Referer" := "https://site.test/page"]> ∅.
Proof.
  destruct (X22_header_lines "Referer" "https://site.test/page")
    as (_ & Hline & _ & Hset & _); [discriminate | reflexivity |].
  rewrite <- (Hset ∅); [apply Hline | discriminate..].
Defined.

(** ** The log of the relay with sniffing *)

(** X23: the log lines of a relayed request.  For an accepted URL the
    relay with sniffing does three things in this order: it logs [start]
    with the method, the URL and the [allowAny] flag, it makes the fetch,
    and it logs one closing line.  The closing line is [done] at level
    [info] exactly when the reply is a 200 whose stream has ended
    normally; otherwise it is [upstream] or [reject] at level [warn], or
    [error] at level [error].  The minimal relay makes the fetch and logs
    nothing. *)
Theorem X23_log_lines
    (decodeURIComponent : string → option string) (nullBody : JS.error)
    (net : Relay.network) (method : string) (sp : URLSearchParams.t) (url : string) :
  URLSearchParams.get sp "url" = Some url →
  Relay.isHttpUrl url = true →
  let run := Sniffing.proxyImage decodeURIComponent nullBody net method sp in
  (∃ level name fields,
     fst run
     = [Relay.Log "info" "start"
          [("method", Relay.JStr method); ("url", Relay.JStr url);
           ("allowAny", Relay.JBool (Relay.allowAnyOf sp))];
        Relay.Fetch url (Sniffing.parseHeadersFromQuery sp) (Relay.timeoutOf sp);
        Relay.Log level name fields]
     ∧ (level, name) ∈ [("info", "done"); ("warn", "upstream"); ("warn", "reject");
                        ("error", "error")]
     ∧ ((level, name) = ("info", "done")
        ↔ Relay.code (snd run) = 200
          ∧ ∃ data, Relay.content (snd run) = Relay.Streamed data Relay.Ended))
  ∧ fst (Server.proxyImage decodeURIComponent nullBody net sp)
    = [Relay.Fetch url (Server.parseHeadersFromQuery sp) (Relay.timeoutOf sp)].
Proof.
  intros Hget Hhttp run. subst run.
  pose proof (GateFacts.accepted_url sp url Hget Hhttp) as Hurl.
  split.
  - unfold Sniffing.proxyImage. rewrite Hurl, Hhttp. cbn [negb].
    destruct (net _ _ _) as [err|resp].
    { eexists _, _, _. cbn [fst snd app Relay.code Relay.bad Relay.json Relay.content].
      split; [reflexivity|]. split; [rewrite !elem_of_cons; auto 10|].
      split; [discriminate | by intros [? _]]. }
    case_if.
    { eexists _, _, _. cbn [fst snd app Relay.code Relay.bad Relay.json Relay.content].
      split; [reflexivity|]. split; [rewrite !elem_of_cons; auto 10|].
      split; [discriminate | by intros [? _]]. }
    destruct (Sniffing.readFirst nullBody resp) as [e|firstChunk rest failure].
    { eexists _, _, _. cbn [fst snd app Relay.code Relay.bad Relay.json Relay.content].
      split; [reflexivity|]. split; [rewrite !elem_of_cons; auto 10|].
      split; [discriminate | by intros [? _]]. }
    case_if.
    { eexists _, _, _. cbn [fst snd app Relay.code Relay.bad Relay.json Relay.content].
      split; [reflexivity|]. split; [rewrite !elem_of_cons; auto 10|].
      split; [discriminate | by intros [? _]]. }
    destruct (Relay.refusedHead _) as [refusal|].
    { eexists _, _, _. cbn [fst snd app Relay.code Relay.bad Relay.json Relay.content].
      split; [reflexivity|]. split; [rewrite !elem_of_cons; auto 10|].
      split; [discriminate | by intros [? _]]. }
    destruct failure as [e|];
      eexists _, _, _; cbn [fst snd app Relay.code Relay.content Relay.piped];
      (split; [reflexivity|]); (split; [rewrite !elem_of_cons; auto 10|]).
    + split; [discriminate | intros [_ [data Hdata]]; discriminate].
    + split; [intros _; split; [reflexivity | eauto] | reflexivity].
  - unfold Server.proxyImage. rewrite Hurl, Hhttp. cbn [negb].
    destruct (net _ _ _) as [err|resp]; [reflexivity|].
    repeat case_if; reflexivity.
Qed.

(** An upstream 404 is logged as a warning. *)
Lemma X23_log_lines_witness :
  let resp :=
    {| Fetch.status := 404; Fetch.contentType := Some "text/html";
       Fetch.contentLength := None; Fetch.contentDisposition := None;
       Fetch.body := None |} in
  ∃ level name fields,
    last (fst (Sniffing.proxyImage Some (JS.Error "TypeError" "")
                 (λ _ _ _, Fetch.Resolved resp) "GET" [("url", "https://cdn.test/a.jpg")]))
    = Some (Relay.Log level name fields)
    ∧ (level, name) ≠ ("info", "done").
Proof.
  intros resp.
  destruct (X23_log_lines Some (JS.Error "TypeError" "") (λ _ _ _, Fetch.Resolved resp) "GET"
              [("url", "https://cdn.test/a.jpg")] "https://cdn.test/a.jpg" eq_refl eq_refl)
    as [(level & name & fields & Hrun & _ & Hdone) _].
  exists level, name, fields. split; [by rewrite Hrun|].
  intros Hinfo. apply Hdone in Hinfo as [Hcode _]. discriminate Hcode.
Defined.

(** ** The list of URLs in a file *)

Module ListingFacts.
Import Relay Listing Notions.

Lemma rev_app_twice (s : string) :
  ∀ t u, String.rev_app (String.rev_app s t) u = String.rev_app t (s +:+ u).
Proof.
  induction s as [|c s IH]; intros t u; cbn [String.rev_app].
  - by rewrite PathFacts.app_empty.
  - rewrite IH. cbn [String.rev_app]. by rewrite PathFacts.app_cons.
Qed.

Lemma rev_involutive (s : string) : String.rev (String.rev s) = s.
Proof.
  unfold String.rev. rewrite rev_app_twice. cbn [String.rev_app].
  apply StemFacts.app_empty_r.
Qed.

Lemma every_rev_app (p : ascii → bool) (s : string) :
  ∀ t, every p (String.rev_app s t) = every p s && every p t.
Proof.
  induction s as [|c s IH]; intros t; cbn [String.rev_app every]; [reflexivity|].
  rewrite IH. cbn [every]. by destruct (p c), (every p s), (every p t).
Qed.

Lemma rev_app_nonempty (s t : string) : t ≠ "" → String.rev_app s t ≠ "".
Proof. revert t. induction s as [|c s IH]; intros t Ht; cbn [String.rev_app]; [done|]. by apply IH. Qed.

Lemma visible_not_white (c : ascii) : visible c = true → JS.is_white c = false.
Proof.
  destruct c as [[] [] [] [] [] [] [] []]; vm_compute; intros; congruence.
Qed.

Lemma visible_not_break (c : ascii) :
  visible c = true → Ascii.eqb c LF = false ∧ Ascii.eqb c CR = false.
Proof.
  destruct c as [[] [] [] [] [] [] [] []]; vm_compute; intros; split; congruence.
Qed.

Lemma trimStart_visible (s : string) : every visible s = true → JS.trimStart s = s.
Proof.
  destruct s as [|c s]; [reflexivity|]. cbn [every JS.trimStart].
  intros [Hc _]%andb_true_iff. by rewrite (visible_not_white _ Hc).
Qed.

(** A line of visible characters is left as it is. *)
Lemma trim_visible (s : string) : every visible s = true → JS.trim s = s.
Proof.
  intros Hs. unfold JS.trim, JS.trimEnd. rewrite (trimStart_visible s Hs).
  rewrite trimStart_visible; [apply rev_involutive|].
  unfold String.rev. rewrite every_rev_app, Hs. reflexivity.
Qed.

Lemma splitLines_nonempty (data : string) : splitLines data ≠ [].
Proof.
  induction data as [|c r IH]; cbn [splitLines]; [done|].
  repeat case_if; try done. by destruct (splitLines r).
Qed.

(** A line of visible characters, then what follows it. *)
Lemma splitLines_line (l rest : string) :
  every visible l = true →
  splitLines (l +:+ String LF rest) = l :: splitLines rest
  ∧ splitLines (l +:+ String CR (String LF rest)) = l :: splitLines rest
  ∧ splitLines l = [l].
Proof.
  induction l as [|c l IH]; intros Hl.
  - rewrite !PathFacts.app_empty. split_and!; [reflexivity | by destruct rest | reflexivity].
  - cbn [every] in Hl. apply andb_true_iff in Hl as [Hc Hl].
    destruct (IH Hl) as (Hfeed & Hreturn & Hlast).
    destruct (visible_not_break c Hc) as [Hlf Hcr].
    rewrite !PathFacts.app_cons. cbn [splitLines].
    rewrite Hlf, Hcr, Hfeed, Hreturn, Hlast. by split_and!.
Qed.

Lemma splitLines_sep (l rest : string) :
  every visible l = true →
  splitLines (l +:+ String LF "" +:+ rest) = l :: splitLines rest
  ∧ splitLines (l +:+ String CR (String LF "") +:+ rest) = l :: splitLines rest.
Proof.
  intros Hl. destruct (splitLines_line l rest Hl) as (Hfeed & Hreturn & _).
  split; [exact Hfeed | exact Hreturn].
Qed.

Lemma concat_with_cons (sep l l' : string) (ls : list string) :
  Path.concat_with sep (l :: l' :: ls) = l +:+ sep +:+ Path.concat_with sep (l' :: ls).
Proof. reflexivity. Qed.

Lemma splitLines_joined (ls : list string) :
  Forall (λ l, every visible l = true) ls →
  ls ≠ [] →
  splitLines (Path.concat_with (String LF "") ls) = ls
  ∧ splitLines (Path.concat_with (String CR (String LF "")) ls) = ls.
Proof.
  induction ls as [|l ls IH]; intros Hls Hne; [done|].
  apply Forall_cons in Hls as [Hl Hls].
  destruct ls as [|l' ls].
  - destruct (splitLines_line l "" Hl) as (_ & _ & Hlast). by split.
  - destruct IH as [Hfeed Hreturn]; [exact Hls | done|].
    rewrite !concat_with_cons.
    destruct (splitLines_sep l (Path.concat_with (String LF "") (l' :: ls)) Hl) as [-> _].
    destruct (splitLines_sep l (Path.concat_with (String CR (String LF "")) (l' :: ls)) Hl)
      as [_ ->].
    by rewrite Hfeed, Hreturn.
Qed.

(** The same, with a line break after the last line. *)
Lemma splitLines_ended (ls : list string) :
  Forall (λ l, every visible l = true) ls →
  ls ≠ [] →
  splitLines (Path.concat_with (String LF "") ls +:+ String LF "") = ls ++ [""]
  ∧ splitLines (Path.concat_with (String CR (String LF "")) ls +:+ String CR (String LF ""))
    = ls ++ [""].
Proof.
  induction ls as [|l ls IH]; intros Hls Hne; [done|].
  apply Forall_cons in Hls as [Hl Hls].
  destruct ls as [|l' ls].
  - cbn [Path.concat_with app].
    destruct (splitLines_line l "" Hl) as (Hfeed & Hreturn & _). by split.
  - destruct IH as [Hfeed Hreturn]; [exact Hls | done|].
    rewrite !concat_with_cons, !PathFacts.app_assoc.
    destruct (splitLines_sep l (Path.concat_with (String LF "") (l' :: ls) +:+ String LF "") Hl)
      as [-> _].
    destruct (splitLines_sep l (Path.concat_with (String CR (String LF "")) (l' :: ls)
                                +:+ String CR (String LF "")) Hl)
      as [_ ->].
    by rewrite Hfeed, Hreturn.
Qed.

Lemma kept (ls : list string) :
  Forall (λ l, l ≠ "" ∧ every visible l = true) ls →
  filter (λ s, JS.truthy (JS.Str s) = true) (JS.trim <$> ls) = ls.
Proof.
  induction ls as [|l ls IH]; intros Hls; [reflexivity|].
  apply Forall_cons in Hls as [[Hne Hl] Hls].
  rewrite fmap_cons, (trim_visible l Hl), filter_cons_True.
  - by rewrite IH.
  - cbn [JS.truthy]. by rewrite (proj2 (String.eqb_neq l "")) by exact Hne.
Qed.

End ListingFacts.

(** X24: the URLs [loadUrls] reads.  Without an input file, or with an
    empty name, the list is empty and no file is read.  An error of
    reading the file is passed on.  A file that holds a JSON array gives
    the elements of the array as they are; a file that holds any other
    JSON value gives no URL at all.  A file that is not JSON is read as
    text: for lines of visible characters that are separated by line
    feeds, with or without a carriage return before them and with or
    without a line break after the last line, the list is these lines in
    their order; and whatever the text, every entry is a string that is
    not empty. *)
Theorem X24_urls_of_an_input_file
    (readFileSync : string → JS.error + string) (parse : string → option Relay.jvalue)
    (input : string) :
  input ≠ "" →
  let listed := Listing.loadUrls readFileSync parse (Some input) in
  (∀ e, readFileSync input = inl e → listed = inl e)
  ∧ (∀ data, readFileSync input = inr data →
       (∀ items, parse data = Some (Relay.JArr items) → listed = inr items)
       ∧ (∀ v, parse data = Some v → (∀ items, v ≠ Relay.JArr items) → listed = inr [])
       ∧ (parse data = None →
          ∀ ls, Forall (λ l, l ≠ "" ∧ Notions.every Notions.visible l = true) ls →
                ls ≠ [] →
                data = Path.concat_with (String Listing.LF "") ls
                ∨ data = Path.concat_with (String Listing.CR (String Listing.LF "")) ls
                ∨ data = Path.concat_with (String Listing.LF "") ls +:+ String Listing.LF ""
                ∨ data = Path.concat_with (String Listing.CR (String Listing.LF "")) ls
                         +:+ String Listing.CR (String Listing.LF "") →
                listed = inr (Relay.JStr <$> ls))
       ∧ (parse data = None →
          ∃ lines, listed = inr (Relay.JStr <$> lines) ∧ Forall (λ l, l ≠ "") lines))
  ∧ (∀ unread, Listing.loadUrls unread parse None = inr []
               ∧ Listing.loadUrls unread parse (Some "") = inr []).
Proof.
  intros Hinput listed. subst listed. unfold Listing.loadUrls.
  cbn [JS.optional JS.truthy default from_option id].
  rewrite (proj2 (String.eqb_neq input "")) by exact Hinput. cbn [negb].
  change (default "" (Some input)) with input.
  split; [by intros e ->|]. split; [|by split].
  intros data ->.
  split_and!.
  - by intros items ->.
  - intros v -> Hv. destruct v; try reflexivity. by destruct (Hv items).
  - intros -> ls Hls Hne Hdata. do 2 f_equal.
    assert (Hvisible : Forall (λ l, Notions.every Notions.visible l = true) ls).
    { eapply Forall_impl; [exact Hls|]. by intros l [_ ?]. }
    destruct (ListingFacts.splitLines_joined ls Hvisible Hne) as [Hfeed Hreturn].
    destruct (ListingFacts.splitLines_ended ls Hvisible Hne) as [Hfeed' Hreturn'].
    destruct Hdata as [-> | [-> | [-> | ->]]];
      rewrite ?Hfeed, ?Hreturn, ?Hfeed', ?Hreturn';
      rewrite ?fmap_app, ?filter_app, ListingFacts.kept by exact Hls;
      [reflexivity | reflexivity | apply app_nil_r | apply app_nil_r].
  - intros ->. eexists. split; [reflexivity|].
    apply Forall_forall. intros l [Hl _]%list_elem_of_filter.
    cbn [JS.truthy] in Hl. apply negb_true_iff in Hl. by apply String.eqb_neq.
Qed.

(** Two addresses, one per line. *)
Lemma X24_urls_of_an_input_file_witness :
  let data := "https://cdn.test/1.jpg" +:+ String Listing.LF "https://cdn.test/2.jpg" in
  Listing.loadUrls (λ _, inr data) (λ _, None) (Some "urls.txt")
  = inr [Relay.JStr "https://cdn.test/1.jpg"; Relay.JStr "https://cdn.test/2.jpg"].
Proof.
  intros data.
  destruct (X24_urls_of_an_input_file (λ _, inr data) (λ _, None) "urls.txt"
              ltac:(discriminate)) as (_ & Hread & _).
  destruct (Hread data eq_refl) as (_ & _ & Htext & _).
  apply (Htext eq_refl ["https://cdn.test/1.jpg"; "https://cdn.test/2.jpg"]).
  - repeat constructor; discriminate.
  - discriminate.
  - left. reflexivity.
Defined.
